(** * MeetUp friend matching service: a shallow embedding and its properties

    The development follows [src/MeetUp/friend_matching_service.py].

    - Python [float] is IEEE 754 binary64: it is modelled by Rocq's primitive
      [float], whose operations are specified by [SpecFloat] through the
      axioms of [FloatAxioms].
    - Python [int] is [Z].
    - Python sets are stdpp's [gset]; [list(s)] is [elements s] (CPython fixes
      no order for it, and nothing below depends on the order).
    - Exceptions are the [Raise] outcome of the error monad [res].
    - Calls to the injected repositories, to the clock and to the logger are
      the nodes of a program tree [prog], run against an arbitrary
      implementation of the collaborators.

    The definitions come first: the model, the collaborators of
    [demo_run.py], and what the statements need.  The properties follow: the
    connection lifecycle, pairwise evaluation, time proximity, suggestion
    generation, and, after the facts on rounding they rest on, the bounds on
    path overlap. *)

From Stdlib Require Import ZArith List String Ascii Bool Lia Floats Reals Lra.
From Stdlib Require Import Sorted Permutation Psatz.
From stdpp Require Import gmap strings.
Import ListNotations.

Set Warnings "-inexact-float".
Local Open Scope Z_scope.

(** ** Exceptions and the error monad *)

Inductive exn : Type :=
| ValueError (msg : string)
| OverflowError
| ZeroDivisionError
| TypeError
| CollaboratorFailure (msg : string).

Inductive res (A : Type) : Type :=
| OK (a : A)
| Raise (e : exn).
Arguments OK {A} a.
Arguments Raise {A} e.

Definition bind {A B : Type} (m : res A) (k : A -> res B) : res B :=
  match m with
  | OK a => k a
  | Raise e => Raise e
  end.

Notation "x <- e ;; k" := (bind e (fun x => k))
  (at level 200, e at level 99, right associativity).

(** ** Python numbers *)

(** [float(n)] for an [int]: the nearest binary64, ties to even.  (CPython
    raises [OverflowError] above [2^1024]; the only integers converted here
    are lengths of lists and the constants 0, 2, 15 and 60.) *)
Definition float_of_int (n : Z) : float :=
  SF2Prim (binary_normalize prec emax n 0 false).

(** An [int] as an unrounded binary number with exponent 0. *)
Definition Z2SF (n : Z) : spec_float :=
  match n with
  | Z0 => S754_zero false
  | Zpos p => S754_finite false p 0
  | Zneg p => S754_finite true p 0
  end.

(** [a / b] on two [int]s: the correctly rounded quotient of the exact
    integers, [ZeroDivisionError] when [b] is 0, [OverflowError] when the
    quotient is too large for a float. *)
Definition int_truediv (a b : Z) : res float :=
  if b =? 0 then Raise ZeroDivisionError
  else
    let q := SF2Prim (SFdiv prec emax (Z2SF a) (Z2SF b)) in
    if is_infinity q then Raise OverflowError else OK q.

(** [a / b] on two [float]s. *)
Definition float_truediv (a b : float) : res float :=
  if (b =? 0)%float then Raise ZeroDivisionError else OK (a / b)%float.

(** [int(f)]: truncation toward zero. *)
Definition int_of_float (f : float) : res Z :=
  match Prim2SF f with
  | S754_nan => Raise (ValueError "cannot convert float NaN to integer")
  | S754_infinity _ => Raise OverflowError
  | S754_zero _ => OK 0
  | S754_finite s m e => OK (cond_Zopp s (Z.shiftl (Zpos m) e))
  end.

(** [min(a, b)]: the first argument unless the second is strictly smaller. *)
Definition py_min (a b : float) : float :=
  if (b <? a)%float then b else a.

(** ** datetime *)

(** A [datetime] as CPython subtracts it: the proleptic Gregorian ordinal of
    its date, the second of the day and the microsecond. *)
Record datetime : Type := {
  dt_ordinal : Z;
  dt_second : Z;
  dt_microsecond : Z
}.

Record timedelta : Type := {
  td_days : Z;
  td_seconds : Z;
  td_microseconds : Z
}.

(** The constructor [timedelta(days, seconds, microseconds)] normalises its
    arguments with [divmod]. *)
Definition make_timedelta (d s us : Z) : timedelta :=
  let s1 := s + us / 1000000 in
  {| td_days := d + s1 / 86400;
     td_seconds := s1 mod 86400;
     td_microseconds := us mod 1000000 |}.

Definition datetime_sub (a b : datetime) : timedelta :=
  make_timedelta (dt_ordinal a - dt_ordinal b)
                 (dt_second a - dt_second b)
                 (dt_microsecond a - dt_microsecond b).

Definition total_seconds (t : timedelta) : res float :=
  int_truediv ((td_days t * 86400 + td_seconds t) * 1000000 + td_microseconds t)
              1000000.

(** [date(1900, 1, 1).toordinal()], the date [strptime] gives when the format
    has no date field. *)
Definition ordinal_1900_01_01 : Z := 693596.

Definition digit_value (c : ascii) : option Z :=
  let n := Z.of_N (N_of_ascii c) in
  if (48 <=? n) && (n <=? 57) then Some (n - 48) else None.

(** One or two decimal digits; two digits only up to [bound].  This is what
    the regular expressions of [%H] ([2[0-3]|[0-1]\d|\d]) and [%M]
    ([[0-5]\d|\d]) accept when the field has to end where [cs] ends. *)
Definition parse_field (bound : Z) (cs : list ascii) : option Z :=
  match cs with
  | [c1] => digit_value c1
  | [c1; c2] =>
      match digit_value c1, digit_value c2 with
      | Some d1, Some d2 =>
          if 10 * d1 + d2 <=? bound then Some (10 * d1 + d2) else None
      | _, _ => None
      end
  | _ => None
  end.

Definition colon : ascii := ":"%char.

(** The text before the first colon and the text after it. *)
Fixpoint split_colon (cs : list ascii) : option (list ascii * list ascii) :=
  match cs with
  | [] => None
  | c :: cs' =>
      if Ascii.eqb c colon then Some ([], cs')
      else match split_colon cs' with
           | Some (h, m) => Some (c :: h, m)
           | None => None
           end
  end.

(** [datetime.strptime(time_str, "%H:%M")], on ASCII text. *)
Definition strptime_HM (time_str : string) : res datetime :=
  match split_colon (list_ascii_of_string time_str) with
  | Some (hs, ms) =>
      match parse_field 23 hs, parse_field 59 ms with
      | Some h, Some m =>
          OK {| dt_ordinal := ordinal_1900_01_01;
                dt_second := h * 3600 + m * 60;
                dt_microsecond := 0 |}
      | _, _ => Raise (ValueError "time data does not match format")
      end
  | None => Raise (ValueError "time data does not match format")
  end.

(** ** The data model *)

Record class_record : Type := {
  course : string;
  building : string;
  day : string;
  start_time : string;
  end_time : string
}.

Definition point : Type := float * float.
Definition path : Type := list point.

Record Schedule : Type := {
  user_id : Z;
  classes : list class_record;
  walking_paths : list path
}.

Record FriendSuggestion : Type := {
  suggested_user_id : Z;
  score : float;
  shared_classes : list string;
  path_overlap_percent : float;
  time_proximity_minutes : Z
}.

(** The two thresholds set by [__init__]. *)
Definition MIN_PATH_OVERLAP : float := 0.30%float.
Definition TIME_PROXIMITY_THRESHOLD : Z := 15.

(** ** Time proximity *)

Definition _parse_time (time_str : string) : res datetime :=
  strptime_HM time_str.

(** [abs((candidate_start - user_end).total_seconds() / 60)] *)
Definition minutes_apart (candidate_start user_end : datetime) : res float :=
  secs <- total_seconds (datetime_sub candidate_start user_end) ;;
  q <- float_truediv secs (float_of_int 60) ;;
  OK (PrimFloat.abs q).

(** The inner loop of [_calculate_time_proximity] for one class of the user. *)
Fixpoint scan_candidate_classes (user_day : string) (user_end : datetime)
    (candidate_classes : list class_record) (min_diff : float) : res float :=
  match candidate_classes with
  | [] => OK min_diff
  | candidate_class :: rest =>
      if negb (String.eqb user_day (day candidate_class))
      then scan_candidate_classes user_day user_end rest min_diff
      else
        candidate_start <- _parse_time (start_time candidate_class) ;;
        diff <- minutes_apart candidate_start user_end ;;
        scan_candidate_classes user_day user_end rest (py_min min_diff diff)
  end.

(** The outer loop. *)
Fixpoint scan_user_classes (user_classes candidate_classes : list class_record)
    (min_diff : float) : res float :=
  match user_classes with
  | [] => OK min_diff
  | user_class :: rest =>
      user_end <- _parse_time (end_time user_class) ;;
      min_diff' <- scan_candidate_classes (day user_class) user_end
                     candidate_classes min_diff ;;
      scan_user_classes rest candidate_classes min_diff'
  end.

Definition _calculate_time_proximity
    (user_classes candidate_classes : list class_record) : res Z :=
  min_diff <- scan_user_classes user_classes candidate_classes infinity ;;
  if (min_diff <=? float_of_int TIME_PROXIMITY_THRESHOLD)%float
  then int_of_float min_diff
  else OK (-1).

(** ** Path overlap and pairwise evaluation *)

Definition is_empty {A : Type} (l : list A) : bool :=
  match l with [] => true | _ => false end.

Section Matching.

(** [x ** y] on floats is the platform's [pow] wrapped by CPython's range
    checks ([OverflowError] on overflow).  It is a parameter of the model; an
    outcome that is not a float (a complex power of a negative base, which
    the comparison that follows rejects with [TypeError]) is a [Raise]. *)
Variable py_pow : float -> float -> res float.

Definition PROXIMITY_THRESHOLD : float := 0.0005%float.

(** [((p1[0] - p2[0])**2 + (p1[1] - p2[1])**2)**0.5] *)
Definition distance (point1 point2 : point) : res float :=
  dx2 <- py_pow (fst point1 - fst point2)%float (float_of_int 2) ;;
  dy2 <- py_pow (snd point1 - snd point2)%float (float_of_int 2) ;;
  py_pow (dx2 + dy2)%float 0.5%float.

(** The inner loop over [path2], left at the first point close enough. *)
Fixpoint point_covered (point1 : point) (path2 : path) : res bool :=
  match path2 with
  | [] => OK false
  | point2 :: rest =>
      d <- distance point1 point2 ;;
      if (d <? PROXIMITY_THRESHOLD)%float then OK true
      else point_covered point1 rest
  end.

(** The outer loop over [path1], counting the covered points. *)
Fixpoint count_overlap_points (path1 path2 : path) (overlap_points : Z)
    : res Z :=
  match path1 with
  | [] => OK overlap_points
  | point1 :: rest =>
      c <- point_covered point1 path2 ;;
      count_overlap_points rest path2
        (if c then overlap_points + 1 else overlap_points)
  end.

Definition _calculate_single_path_overlap (path1 path2 : path) : res float :=
  if is_empty path1 || is_empty path2 then OK 0%float
  else
    overlap_points <- count_overlap_points path1 path2 0 ;;
    int_truediv overlap_points (Z.of_nat (length path1)).

(** The two nested loops of [_calculate_path_overlap], threading
    [(total_overlap, comparisons)]. *)
Fixpoint overlap_inner (user_path : path) (candidate_paths : list path)
    (acc : float * Z) : res (float * Z) :=
  match candidate_paths with
  | [] => OK acc
  | candidate_path :: rest =>
      overlap <- _calculate_single_path_overlap user_path candidate_path ;;
      overlap_inner user_path rest ((fst acc + overlap)%float, snd acc + 1)
  end.

Fixpoint overlap_outer (user_paths candidate_paths : list path)
    (acc : float * Z) : res (float * Z) :=
  match user_paths with
  | [] => OK acc
  | user_path :: rest =>
      acc' <- overlap_inner user_path candidate_paths acc ;;
      overlap_outer rest candidate_paths acc'
  end.

Definition _calculate_path_overlap (user_paths candidate_paths : list path)
    : res float :=
  if is_empty user_paths || is_empty candidate_paths then OK 0%float
  else
    acc <- overlap_outer user_paths candidate_paths (0%float, 0) ;;
    if 0 <? snd acc
    then float_truediv (fst acc) (float_of_int (snd acc))
    else OK 0%float.

(** [{cls['course'] for cls in classes}] *)
Definition course_set (cs : list class_record) : gset string :=
  list_to_set (map course cs).

(** [list(user_classes & candidate_classes)] *)
Definition shared_courses (user_schedule candidate_schedule : Schedule)
    : list string :=
  elements (course_set (classes user_schedule)
            ∩ course_set (classes candidate_schedule)).

(** [1.0 if time_proximity > 0 else 0] *)
Definition proximity_bonus (time_proximity : Z) : float :=
  if 0 <? time_proximity then 1.0%float else float_of_int 0.

(** The expression assigned to [score]. *)
Definition match_score (shared : list string) (path_overlap : float)
    (time_proximity : Z) : float :=
  (float_of_int (Z.of_nat (length shared)) * 0.4
   + path_overlap * 0.4
   + proximity_bonus time_proximity * 0.2)%float.

Definition _evaluate_match (user_schedule candidate_schedule : Schedule)
    : res (option FriendSuggestion) :=
  let shared := shared_courses user_schedule candidate_schedule in
  time_proximity <- _calculate_time_proximity (classes user_schedule)
                      (classes candidate_schedule) ;;
  path_overlap <- _calculate_path_overlap (walking_paths user_schedule)
                    (walking_paths candidate_schedule) ;;
  let score := match_score shared path_overlap time_proximity in
  if (score <? 0.3)%float then OK None
  else if (Z.of_nat (length shared) =? 0)
          && (path_overlap <? MIN_PATH_OVERLAP)%float then OK None
  else OK (Some {| suggested_user_id := user_id candidate_schedule;
                   score := score;
                   shared_classes := shared;
                   path_overlap_percent := (path_overlap * 100)%float;
                   time_proximity_minutes := time_proximity |}).

End Matching.

(** A [pow] that is correctly rounded on the two exponents the service uses:
    the instance on which the examples below are evaluated. *)
Definition ieee_pow (x y : float) : res float :=
  if (y =? 2)%float then
    let r := (x * x)%float in
    if is_infinity r && negb (is_infinity x) then Raise OverflowError else OK r
  else if (y =? 0.5)%float then
    if (x <? 0)%float then Raise TypeError else OK (PrimFloat.sqrt x)
  else Raise (ValueError "exponent outside the model").

(** ** The service: programs over the collaborators *)

Record connection_view : Type := { other_user_id : Z }.
Record block_view : Type := { blocked_user_id : Z }.

(** The dict [accept_connection] builds. *)
Module AcceptedConnection.

Record t : Type := {
  id : Z;
  status : string;
  connected_at : datetime
}.

End AcceptedConnection.

(** What the service hands to [logger]: the level, the message template and
    the values formatted into it. *)
Inductive log_record : Type :=
| warning_no_schedule (uid : Z)
| error_generating_suggestions (uid : Z) (e : exn)
| info_connection_request (requesting_user_id target_user_id : Z)
| error_creating_connection_request (e : exn)
| info_connection_accepted (connection_id : Z).

Section Service.

(** The connection objects of the repository: the service only tests them
    for [None] and passes them on. *)
Variable Connection : Type.

(** The methods of [schedule_repo] and [connection_repo], indexed by the type
    of what they return. *)
Inductive repo_call : Type -> Type :=
| get_schedule_by_user (uid : Z) : repo_call (option Schedule)
| get_schedules_by_university (university_id : Z) (exclude_user_ids : list Z)
    : repo_call (list Schedule)
| get_connections (uid : Z) : repo_call (list connection_view)
| get_blocked_users (uid : Z) : repo_call (list block_view)
| get_connection_between (user1_id user2_id : Z)
    : repo_call (option Connection)
| is_blocked (user1_id user2_id : Z) : repo_call bool
| create_connection (user1_id user2_id : Z) (status : string)
    (suggested_at : datetime) : repo_call Connection.

Inductive event : Type :=
| Called {R : Type} (c : repo_call R).

(** A method body: it returns, raises, calls a repository (and continues
    with what the call returned or raised), reads the clock or logs. *)
Inductive prog (A : Type) : Type :=
| Ret (a : A)
| Throw (e : exn)
| Call {R : Type} (c : repo_call R) (k : res R -> prog A)
| UtcNow (k : datetime -> prog A)
| Log (r : log_record) (k : prog A).
Arguments Ret {A} a.
Arguments Throw {A} e.
Arguments Call {A R} c k.
Arguments UtcNow {A} k.
Arguments Log {A} r k.

Fixpoint pbind {A B : Type} (p : prog A) (f : A -> prog B) : prog B :=
  match p with
  | Ret a => f a
  | Throw e => Throw e
  | Call c k => Call c (fun r => pbind (k r) f)
  | UtcNow k => UtcNow (fun t => pbind (k t) f)
  | Log r k => Log r (pbind k f)
  end.

(** [try: p except Exception as e: h e] *)
Fixpoint try_except {A : Type} (p : prog A) (h : exn -> prog A) : prog A :=
  match p with
  | Ret a => Ret a
  | Throw e => h e
  | Call c k => Call c (fun r => try_except (k r) h)
  | UtcNow k => UtcNow (fun t => try_except (k t) h)
  | Log r k => Log r (try_except k h)
  end.

(** A repository call whose exception propagates. *)
Definition call {R : Type} (c : repo_call R) : prog R :=
  Call c (fun r => match r with OK v => Ret v | Raise e => Throw e end).

(** A pure computation that may raise. *)
Definition lift {A : Type} (r : res A) : prog A :=
  match r with OK a => Ret a | Raise e => Throw e end.

Notation "x <~ e ;; k" := (pbind e (fun x => k))
  (at level 200, e at level 99, right associativity).

Variable py_pow : float -> float -> res float.

(** The loop of [generate_suggestions] over the candidate schedules. *)
Fixpoint collect_suggestions (user_schedule : Schedule)
    (candidate_schedules : list Schedule)
    (suggestions : list FriendSuggestion) : res (list FriendSuggestion) :=
  match candidate_schedules with
  | [] => OK suggestions
  | candidate_schedule :: rest =>
      suggestion <- _evaluate_match py_pow user_schedule candidate_schedule ;;
      collect_suggestions user_schedule rest
        match suggestion with
        | Some s => if (0 <? score s)%float then suggestions ++ [s]
                    else suggestions
        | None => suggestions
        end
  end.

(** [suggestions.sort(key=lambda x: x.score, reverse=True)].  [list.sort] is
    stable, and with [reverse=True] elements of equal key keep their order.
    Every score in the list passed the test [score > 0], so none is NaN and
    [<] orders the keys totally: the result is that of inserting each element,
    in turn, behind the elements that are not smaller. *)
Fixpoint insert_by_score (x : FriendSuggestion) (l : list FriendSuggestion)
    : list FriendSuggestion :=
  match l with
  | [] => [x]
  | y :: l' =>
      if (score y <? score x)%float then x :: y :: l'
      else y :: insert_by_score x l'
  end.

Definition sort_by_score_desc (l : list FriendSuggestion)
    : list FriendSuggestion :=
  fold_left (fun acc x => insert_by_score x acc) l [].

(** [l[:limit]] *)
Definition slice_to {A : Type} (l : list A) (limit : Z) : list A :=
  if 0 <=? limit then firstn (Z.to_nat limit) l
  else firstn (Z.to_nat (Z.of_nat (length l) + limit)) l.

(** [list(existing_ids | blocked_ids | {user_id})] *)
Definition exclude_ids (existing_connections : list connection_view)
    (blocked_users : list block_view) (uid : Z) : list Z :=
  let existing_ids : gset Z := list_to_set (map other_user_id existing_connections) in
  let blocked_ids : gset Z := list_to_set (map blocked_user_id blocked_users) in
  elements (existing_ids ∪ blocked_ids ∪ {[ uid ]}).

Definition generate_suggestions (uid : Z) (limit : Z)
    : prog (list FriendSuggestion) :=
  try_except
    (found <~ call (get_schedule_by_user uid) ;;
     match found with
     | None => Log (warning_no_schedule uid) (Ret [])
     | Some user_schedule =>
         existing_connections <~ call (get_connections uid) ;;
         blocked_users <~ call (get_blocked_users uid) ;;
         candidate_schedules <~
           call (get_schedules_by_university (user_id user_schedule)
                   (exclude_ids existing_connections blocked_users uid)) ;;
         suggestions <~
           lift (collect_suggestions user_schedule candidate_schedules []) ;;
         Ret (slice_to (sort_by_score_desc suggestions) limit)
     end)
    (fun e => Log (error_generating_suggestions uid e) (Throw e)).

Definition _is_blocked (user1_id user2_id : Z) : prog bool :=
  b <~ call (is_blocked user1_id user2_id) ;;
  if b then Ret true else call (is_blocked user2_id user1_id).

Definition create_connection_request (requesting_user_id target_user_id : Z)
    : prog Connection :=
  try_except
    (existing <~ call (get_connection_between requesting_user_id
                         target_user_id) ;;
     match existing with
     | Some _ => Throw (ValueError "Connection already exists or is pending")
     | None =>
         blocked <~ _is_blocked requesting_user_id target_user_id ;;
         if blocked then Throw (ValueError "Cannot connect with blocked user")
         else
           UtcNow (fun now =>
             connection <~ call (create_connection requesting_user_id
                                   target_user_id "pending" now) ;;
             Log (info_connection_request requesting_user_id target_user_id)
                 (Ret connection))
     end)
    (fun e => Log (error_creating_connection_request e) (Throw e)).

Definition accept_connection (connection_id accepting_user_id : Z)
    : prog AcceptedConnection.t :=
  UtcNow (fun now =>
    let connection :=
      {| AcceptedConnection.id := connection_id;
         AcceptedConnection.status := "accepted";
         AcceptedConnection.connected_at := now |} in
    Log (info_connection_accepted connection_id) (Ret connection)).

(** *** Running a program against the collaborators *)

(** The repositories act on a store of their own; the clock is the sequence
    of its readings. *)
Variable Store : Type.
Variable handle : forall R : Type, repo_call R -> Store -> res R * Store.
Variable clock : nat -> datetime.

Record world : Type := {
  w_store : Store;
  w_ticks : nat;
  w_log : list log_record;
  w_calls : list event
}.

Fixpoint run {A : Type} (p : prog A) (w : world) : res A * world :=
  match p with
  | Ret a => (OK a, w)
  | Throw e => (Raise e, w)
  | Call c k =>
      let (r, s) := handle _ c (w_store w) in
      run (k r) {| w_store := s; w_ticks := w_ticks w; w_log := w_log w;
                   w_calls := w_calls w ++ [Called c] |}
  | UtcNow k =>
      run (k (clock (w_ticks w)))
          {| w_store := w_store w; w_ticks := S (w_ticks w);
             w_log := w_log w; w_calls := w_calls w |}
  | Log r k =>
      run k {| w_store := w_store w; w_ticks := w_ticks w;
               w_log := w_log w ++ [r]; w_calls := w_calls w |}
  end.

End Service.

Arguments Ret {Connection A} a.
Arguments Throw {Connection A} e.
Arguments Called {Connection R} c.
Arguments w_store {Connection Store} w.
Arguments w_ticks {Connection Store} w.
Arguments w_log {Connection Store} w.
Arguments w_calls {Connection Store} w.
Arguments Build_world {Connection Store} w_store w_ticks w_log w_calls.

(** The [create_connection] calls among the calls made: what the service
    asked the repository to persist. *)
Definition persisted_by {Connection : Type} (e : event Connection)
    : list (Z * Z * string * datetime) :=
  match e with
  | Called c =>
      match c with
      | create_connection _ u1 u2 st t => [(u1, u2, st, t)]
      | _ => []
      end
  end.

Definition persisted {Connection : Type} (calls : list (event Connection))
    : list (Z * Z * string * datetime) :=
  flat_map persisted_by calls.

(** ** The collaborators of [demo_run.py] *)

Definition alice : Schedule := {|
  user_id := 1;
  classes :=
    [ {| course := "CS101"; building := "Science Hall"; day := "Monday";
         start_time := "09:00"; end_time := "10:15" |};
      {| course := "MATH201"; building := "Math Building"; day := "Monday";
         start_time := "11:00"; end_time := "12:15" |} ];
  walking_paths :=
    [ [ (40.7128, -74.0060); (40.7129, -74.0061); (40.7130, -74.0062) ]%float ]
|}.

Definition bob : Schedule := {|
  user_id := 2;
  classes :=
    [ {| course := "CS101"; building := "Science Hall"; day := "Monday";
         start_time := "09:00"; end_time := "10:15" |};
      {| course := "ENG202"; building := "English Hall"; day := "Monday";
         start_time := "10:30"; end_time := "11:45" |} ];
  walking_paths := [ [ (40.7128, -74.0060); (40.7129, -74.0061) ]%float ]
|}.

Definition charlie : Schedule := {|
  user_id := 3;
  classes :=
    [ {| course := "PHYS101"; building := "Physics Building"; day := "Tuesday";
         start_time := "14:00"; end_time := "15:15" |} ];
  walking_paths := [ [ (41.8781, -87.6298)%float ] ]
|}.

(** The dict [MockConnectionRepository.create_connection] returns. *)
Record mock_connection : Type := {
  mc_id : Z;
  mc_user1_id : Z;
  mc_user2_id : Z;
  mc_status : string;
  mc_suggested_at : datetime
}.

(** [MockScheduleRepository] and [MockConnectionRepository]: they keep no
    state. *)
Definition mock_handle (R : Type) (c : repo_call mock_connection R) (s : unit)
    : res R * unit :=
  match c in repo_call _ R0 return res R0 * unit with
  | get_schedule_by_user _ uid =>
      (OK (if uid =? 1 then Some alice else None), s)
  | get_schedules_by_university _ _ _ => (OK [bob; charlie], s)
  | get_connections _ _ => (OK [], s)
  | get_blocked_users _ _ => (OK [], s)
  | get_connection_between _ _ _ => (OK None, s)
  | is_blocked _ _ _ => (OK false, s)
  | create_connection _ u1 u2 st t =>
      (OK {| mc_id := 1; mc_user1_id := u1; mc_user2_id := u2;
             mc_status := st; mc_suggested_at := t |}, s)
  end.

(** A repository double that keeps its connections and blocks in memory. *)
Record memory_store : Type := {
  ms_connections : list mock_connection;
  ms_blocks : list (Z * Z)
}.

Definition links (a b : Z) (c : mock_connection) : bool :=
  ((mc_user1_id c =? a) && (mc_user2_id c =? b))
  || ((mc_user1_id c =? b) && (mc_user2_id c =? a)).

Definition memory_handle (R : Type) (c : repo_call mock_connection R)
    (s : memory_store) : res R * memory_store :=
  match c in repo_call _ R0 return res R0 * memory_store with
  | get_schedule_by_user _ uid =>
      (OK (if uid =? 1 then Some alice else None), s)
  | get_schedules_by_university _ _ excl =>
      (OK (List.filter (fun c => negb (existsb (Z.eqb (user_id c)) excl))
                  [bob; charlie]), s)
  | get_connections _ uid =>
      (OK (flat_map (fun c =>
             if mc_user1_id c =? uid then [ {| other_user_id := mc_user2_id c |} ]
             else if mc_user2_id c =? uid then [ {| other_user_id := mc_user1_id c |} ]
             else []) (ms_connections s)), s)
  | get_blocked_users _ uid =>
      (OK (flat_map (fun b =>
             if fst b =? uid then [ {| blocked_user_id := snd b |} ] else [])
             (ms_blocks s)), s)
  | get_connection_between _ a b => (OK (find (links a b) (ms_connections s)), s)
  | is_blocked _ a b =>
      (OK (existsb (fun p => (fst p =? a) && (snd p =? b)) (ms_blocks s)), s)
  | create_connection _ u1 u2 st t =>
      let c := {| mc_id := Z.of_nat (length (ms_connections s)) + 1;
                  mc_user1_id := u1; mc_user2_id := u2;
                  mc_status := st; mc_suggested_at := t |} in
      (OK c, {| ms_connections := ms_connections s ++ [c];
                ms_blocks := ms_blocks s |})
  end.

(** A clock that reads midnight of 2024-01-01 plus one second per reading. *)
Definition demo_clock (n : nat) : datetime :=
  {| dt_ordinal := 738886; dt_second := Z.of_nat n; dt_microsecond := 0 |}.

Definition fresh_world {Connection Store : Type} (s : Store)
    : world Connection Store :=
  {| w_store := s; w_ticks := 0; w_log := []; w_calls := [] |}.

(** Two schedules with the same three classes and no recorded path. *)
Definition three_classes : list class_record :=
  [ {| course := "CS101"; building := "Science Hall"; day := "Monday";
       start_time := "09:00"; end_time := "10:15" |};
    {| course := "MATH201"; building := "Math Building"; day := "Tuesday";
       start_time := "11:00"; end_time := "12:15" |};
    {| course := "PHYS101"; building := "Physics Building"; day := "Friday";
       start_time := "14:00"; end_time := "15:15" |} ].

Definition dana : Schedule :=
  {| user_id := 4; classes := three_classes; walking_paths := [] |}.

Definition erin : Schedule :=
  {| user_id := 5; classes := three_classes; walking_paths := [] |}.

(** ** Further schedules, for the examples *)

(** One shared class, no recorded path, and more than 15 minutes between
    one's end and the other's start. *)
Definition one_class : list class_record :=
  [ {| course := "CS101"; building := "Science Hall"; day := "Monday";
       start_time := "09:00"; end_time := "10:15" |} ].

Definition henry : Schedule :=
  {| user_id := 6; classes := one_class; walking_paths := [] |}.

Definition ivy : Schedule :=
  {| user_id := 7; classes := one_class; walking_paths := [] |}.

(** No shared class, and a path of ten points of which three lie on the
    candidate's path: a path overlap of exactly 3/10. *)
Definition ten_points : path :=
  [ (0, 0); (0, 0); (0, 0); (1, 1); (1, 1);
    (1, 1); (1, 1); (1, 1); (1, 1); (1, 1) ]%float.

Definition frank : Schedule := {|
  user_id := 8;
  classes :=
    [ {| course := "HIST110"; building := "Old Hall"; day := "Monday";
         start_time := "09:00"; end_time := "10:00" |} ];
  walking_paths := [ ten_points ]
|}.

(** Frank with his class moved to Tuesday. *)
Definition frank_on_tuesday : Schedule := {|
  user_id := 8;
  classes :=
    [ {| course := "HIST110"; building := "Old Hall"; day := "Tuesday";
         start_time := "09:00"; end_time := "10:00" |} ];
  walking_paths := [ ten_points ]
|}.

Definition grace : Schedule := {|
  user_id := 9;
  classes :=
    [ {| course := "ART120"; building := "Studio"; day := "Monday";
         start_time := "10:10"; end_time := "11:00" |} ];
  walking_paths := [ [ (0, 0)%float ] ]
|}.

(** Stores of the in-memory repository: users 1 and 2 already connected;
    user 2 has blocked user 1; nothing recorded. *)
Definition store_connected : memory_store := {|
  ms_connections :=
    [ {| mc_id := 1; mc_user1_id := 2; mc_user2_id := 1;
         mc_status := "accepted"; mc_suggested_at := demo_clock 0 |} ];
  ms_blocks := []
|}.

Definition store_blocked : memory_store :=
  {| ms_connections := []; ms_blocks := [ (2, 1) ] |}.

Definition store_empty : memory_store :=
  {| ms_connections := []; ms_blocks := [] |}.

(** What [demo_run.py] prints: the suggestions for Alice, limit 10. *)
Definition demo_suggestions : list FriendSuggestion :=
  match fst (run mock_connection unit mock_handle demo_clock
               (generate_suggestions mock_connection ieee_pow 1 10)
               (fresh_world tt)) with
  | OK l => l
  | Raise _ => []
  end.

(** ** The order of binary64 numbers *)

(** A number that is not NaN, as a key whose lexicographic order is the order
    of [SFcompare]: the class (infinities outside, zeros in the middle), then
    the exponent, then the mantissa, the last two negated for a negative
    number. *)
Definition SFkey (f : spec_float) : Z * Z * Z :=
  match f with
  | S754_nan => (0, 0, 0)
  | S754_zero _ => (0, 0, 0)
  | S754_infinity s => (if s then -2 else 2, 0, 0)
  | S754_finite s m e => if s then (-1, - e, Zneg m) else (1, e, Zpos m)
  end.

Definition cmp3 (a b : Z * Z * Z) : comparison :=
  match fst (fst a) ?= fst (fst b) with
  | Eq => match snd (fst a) ?= snd (fst b) with
          | Eq => snd a ?= snd b
          | c => c
          end
  | c => c
  end.

Definition lt3 (a b : Z * Z * Z) : Prop :=
  fst (fst a) < fst (fst b)
  \/ (fst (fst a) = fst (fst b)
      /\ (snd (fst a) < snd (fst b)
          \/ (snd (fst a) = snd (fst b) /\ snd a < snd b))).

Definition le3 (a b : Z * Z * Z) : Prop := lt3 a b \/ a = b.

Definition SFnum (f : spec_float) : Prop := f <> S754_nan.

Definition fkey (x : float) : Z * Z * Z := SFkey (Prim2SF x).
Definition fnum (x : float) : Prop := SFnum (Prim2SF x).

(** ** Binary64 numbers as real numbers *)

(** Powers of two, of any integer exponent. *)
Definition pow2 (e : Z) : R := powerRZ 2 e.

(** The real number [m * 2^e]. *)
Definition F2R (m e : Z) : R := (IZR m * pow2 e)%R.

(** The real value of a finite number (0 for the others). *)
Definition SF2R (f : spec_float) : R :=
  match f with
  | S754_finite s m e => F2R (cond_Zopp s (Zpos m)) e
  | _ => 0%R
  end.

(** What [n] steps of [shr_1] leave: the quotient by [2^n], the last bit
    shifted out, and whether anything below it was set. *)
Definition shr_n_spec (m : Z) (r s : bool) (n : nat) : shr_record :=
  match n with
  | O => {| shr_m := m; shr_r := r; shr_s := s |}
  | S k => {| shr_m := m / 2 ^ Z.of_nat n;
              shr_r := Z.testbit m (Z.of_nat k);
              shr_s := r || s || negb (m mod 2 ^ Z.of_nat k =? 0) |}
  end.

(** The result of [binary_round_aux] for a positive sign, from the rounded
    mantissa [m2] at exponent [e1]. *)
Definition round_result (m2 e1 : Z) : spec_float :=
  if m2 =? 0 then S754_zero false
  else if m2 =? 2 ^ 53 then
    if e1 + 1 <=? 971 then S754_finite false (2 ^ 52)%positive (e1 + 1)
    else S754_infinity false
  else if e1 <=? 971 then S754_finite false (Z.to_pos m2) e1
  else S754_infinity false.

(** Positive zero or a positive finite number. *)
Definition nonneg_fz (r : spec_float) : Prop :=
  r = S754_zero false \/ exists m e, r = S754_finite false m e.

(** The real value of a float, and the floats that are [+0.0] or positive and
    finite. *)
Definition fval (x : float) : R := SF2R (Prim2SF x).
Definition fnonneg (x : float) : Prop := nonneg_fz (Prim2SF x).

(** What the loops of [_calculate_path_overlap] maintain on
    [(total_overlap, comparisons)]: the total is at most the number of
    comparisons, and at most [2^53], where adding a fraction no longer
    changes it. *)
Definition acc_ok (acc : float * Z) : Prop :=
  fnonneg (fst acc) /\ 0 <= snd acc
  /\ (fval (fst acc) <= IZR (Z.min (snd acc) (2 ^ 53)))%R.

(** ** The statements of the specification *)

(** A suggestion passed the test [score > 0]. *)
Definition positive_score (s : FriendSuggestion) : Prop :=
  (0 <? score s)%float = true.

(** Descending order of score. *)
Definition score_desc (a b : FriendSuggestion) : Prop :=
  (score b <=? score a)%float = true.

(** The minute of the day a time string denotes (0 when it is malformed, in
    which case the service raises before it uses the value). *)
Definition clock_minutes (time_str : string) : Z :=
  match strptime_HM time_str with
  | OK t => dt_second t / 60
  | Raise _ => 0
  end.

(** For one class of the user: the absolute difference, in minutes, between
    each same-day candidate class's start and the user's class's end. *)
Definition gaps_for (user_class : class_record)
    (candidate_classes : list class_record) : list Z :=
  map (fun c => Z.abs (clock_minutes (start_time c)
                       - clock_minutes (end_time user_class)))
      (List.filter (fun c => String.eqb (day user_class) (day c)) candidate_classes).

(** The differences over all same-day pairs. *)
Definition same_day_gaps (user_classes candidate_classes : list class_record)
    : list Z :=
  flat_map (fun u => gaps_for u candidate_classes) user_classes.

Definition min_step (acc : option Z) (x : Z) : option Z :=
  match acc with
  | None => Some x
  | Some m => Some (Z.min m x)
  end.

(** The minimum of a list, [None] for the empty list. *)
Definition minimum (l : list Z) : option Z := fold_left min_step l None.

(** Time proximity as the specification states it: the minimum difference
    when there is one and it is at most 15, otherwise the sentinel -1. *)
Definition time_proximity_spec (user_classes candidate_classes : list class_record)
    : Z :=
  match minimum (same_day_gaps user_classes candidate_classes) with
  | None => -1
  | Some m => if m <=? 15 then m else -1
  end.

(** Every end time of the user and every start time of the candidate is
    well formed. *)
Definition times_parse (user_classes candidate_classes : list class_record)
    : Prop :=
  Forall (fun u => exists t, strptime_HM (end_time u) = OK t) user_classes
  /\ Forall (fun c => exists t, strptime_HM (start_time c) = OK t)
            candidate_classes.

(** *** Tables over the minutes of a day *)

Definition Zseq (lo : Z) (n : nat) : list Z :=
  map (fun i => lo + Z.of_nat i) (seq 0 n).

(** The float the loop holds in [min_diff]: infinity before the first
    same-day pair, then a whole number of minutes. *)
Definition min_repr (o : option Z) : float :=
  match o with
  | None => infinity
  | Some k => float_of_int k
  end.

Definition in_day (o : option Z) : Prop :=
  match o with
  | None => True
  | Some k => 0 <= k <= 1439
  end.

(** For a difference of [d] minutes, the float arithmetic of
    [minutes_apart] gives the float of [|d|]. *)
Definition gap_check (d : Z) : bool :=
  match (secs <- int_truediv (60 * d * 1000000) 1000000 ;;
         q <- float_truediv secs (float_of_int 60) ;;
         OK (PrimFloat.abs q)) with
  | OK f => PrimFloat.Leibniz.eqb f (float_of_int (Z.abs d))
  | Raise _ => false
  end.

(** The float of [k] is below the float of [k + 1] and below infinity, and
    [int] gives [k] back. *)
Definition step_check (k : Z) : bool :=
  (float_of_int k <? float_of_int (k + 1))%float
  && (float_of_int k <? infinity)%float
  && match int_of_float (float_of_int k) with
     | OK r => r =? k
     | Raise _ => false
     end.

(** The composite score as the specification writes it:
    [0.4 x |shared_classes| + 0.4 x path_overlap
     + 0.2 x (1.0 if time_proximity > 0 else 0.0)]. *)
Definition composite_score_spec (shared_count : Z) (path_overlap : float)
    (time_proximity : Z) : float :=
  (0.4 * float_of_int shared_count
   + 0.4 * path_overlap
   + 0.2 * (if (0 <? time_proximity)%Z then 1.0 else 0.0))%float.

(** The transition of a connection as the specification words it, read on
    the in-memory repository: the stored connection of that id has status
    accepted. *)
Definition stored_as_accepted (s : memory_store) (connection_id : Z) : Prop :=
  exists c, In c (ms_connections s)
            /\ mc_id c = connection_id /\ mc_status c = "accepted".

(** ** Further definitions *)

(** Positive zero, a positive finite number or positive infinity. *)
Definition nonneg_ext (r : spec_float) : Prop :=
  nonneg_fz r \/ r = S754_infinity false.

(** Positive infinity, or a positive finite number of value at least [b]. *)
Definition at_least (b : R) (r : spec_float) : Prop :=
  r = S754_infinity false
  \/ exists m e, r = S754_finite false m e /\ (b <= F2R (Zpos m) e)%R.

(** The repository calls that only look something up. *)
Definition is_lookup {Connection : Type} (e : event Connection) : bool :=
  match e with
  | Called c =>
      match c with
      | create_connection _ _ _ _ _ => false
      | _ => true
      end
  end.

(** The repositories of [demo_run.py] behind a connection that serves a number
    of calls and then fails. *)
Definition outage_handle (R : Type) (c : repo_call mock_connection R)
    (budget : nat) : res R * nat :=
  match budget with
  | O => (Raise (CollaboratorFailure "repository unavailable"), O)
  | S n => (fst (mock_handle R c tt), n)
  end.

(** A schedule whose only class has a start time that is no time. *)
Definition mallory : Schedule := {|
  user_id := 10;
  classes :=
    [ {| course := "CS101"; building := "Science Hall"; day := "Monday";
         start_time := "9am"; end_time := "10:15" |} ];
  walking_paths := []
|}.

(** The repositories of [demo_run.py] with other candidate schedules. *)
Definition population_handle (population : list Schedule) (R : Type)
    (c : repo_call mock_connection R) (s : unit) : res R * unit :=
  match c in repo_call _ R0 return res R0 * unit with
  | get_schedules_by_university _ _ _ => (OK population, s)
  | c' => mock_handle _ c' s
  end.

(** The message of the [ValueError] that [strptime] raises. *)
Definition bad_time : exn := ValueError "time data does not match format".

(** Whether the user has a class on the day of the candidate's class. *)
Definition on_a_day_of (user_classes : list class_record) (c : class_record)
    : bool :=
  existsb (fun u => String.eqb (day u) (day c)) user_classes.

(** Whether a point lies within the threshold of some point of [path2],
    for a distance that is a total function. *)
Definition within_reach (dist : point -> point -> float) (path2 : path)
    (point1 : point) : bool :=
  existsb (fun point2 => (dist point1 point2 <? PROXIMITY_THRESHOLD)%float)
          path2.

(** The distance of the service under [ieee_pow], 0.0 where it raises. *)
Definition ieee_distance (point1 point2 : point) : float :=
  match distance ieee_pow point1 point2 with
  | OK d => d
  | Raise _ => 0%float
  end.

(** The suggestions that [_evaluate_match] yields over the candidates, in
    the order of the candidates. *)
Definition matches (py_pow : float -> float -> res float)
    (user_schedule : Schedule) (candidate_schedules : list Schedule)
    : list FriendSuggestion :=
  flat_map (fun c => match _evaluate_match py_pow user_schedule c with
                     | OK (Some s) => [s]
                     | _ => []
                     end) candidate_schedules.

(** The suggestions of a list whose score equals [v]. *)
Definition with_score (v : float) (l : list FriendSuggestion)
    : list FriendSuggestion :=
  List.filter (fun s => (score s =? v)%float) l.

(** A schedule whose class starts on Monday at 10:15, the minute at which
    Alice's first class ends. *)
Definition karl : Schedule := {|
  user_id := 11;
  classes :=
    [ {| course := "CS101"; building := "Science Hall"; day := "Monday";
         start_time := "10:15"; end_time := "11:30" |} ];
  walking_paths := []
|}.

(** A schedule whose path lies so far away that the square of the distance
    to it is no float. *)
Definition far_away : Schedule := {|
  user_id := 12;
  classes := [];
  walking_paths := [ [ (1e200, 0)%float ] ]
|}.

(** ** Properties *)

Section ServiceFacts.

Variable Connection : Type.
Variable py_pow : float -> float -> res float.
Variable Store : Type.
Variable handle : forall R : Type, repo_call Connection R -> Store -> res R * Store.
Variable clock : nat -> datetime.

Local Abbreviation run_it := (run Connection Store handle clock).

(** C5: when the schedule repository reports no schedule for the user,
    [generate_suggestions] returns the empty list and raises nothing; the
    only call made is the schedule lookup, and a warning is logged. *)
Theorem generate_suggestions_no_schedule :
  forall (uid limit : Z) (w : world Connection Store) (s : Store),
    handle _ (get_schedule_by_user Connection uid) (w_store w) = (OK None, s) ->
    run_it (generate_suggestions Connection py_pow uid limit) w
    = (OK [],
       {| w_store := s; w_ticks := w_ticks w;
          w_log := w_log w ++ [warning_no_schedule uid];
          w_calls := w_calls w ++ [Called (get_schedule_by_user Connection uid)] |}).
Proof.
  intros uid limit w s H.
  unfold generate_suggestions, call. simpl.
  rewrite H. reflexivity.
Qed.

(** C7: [create_connection_request] raises the conflict [ValueError] when
    the repository already holds a connection between the two users
    (whatever the connection is), or reports a block in either direction;
    then nothing is handed to [create_connection].  Otherwise it asks the
    repository to persist [(requesting, target, "pending", now)], once, and
    returns what the repository returned. *)
Theorem create_connection_request_outcomes :
  forall (a b : Z) (w : world Connection Store),
    let out := run_it (create_connection_request Connection a b) w in
    (forall c s1,
        handle _ (get_connection_between Connection a b) (w_store w)
        = (OK (Some c), s1) ->
        fst out = Raise (ValueError "Connection already exists or is pending")
        /\ persisted (w_calls (snd out)) = persisted (w_calls w)
        /\ w_store (snd out) = s1)
    /\ (forall s1 s2,
        handle _ (get_connection_between Connection a b) (w_store w)
        = (OK None, s1) ->
        handle _ (is_blocked Connection a b) s1 = (OK true, s2) ->
        fst out = Raise (ValueError "Cannot connect with blocked user")
        /\ persisted (w_calls (snd out)) = persisted (w_calls w)
        /\ w_store (snd out) = s2)
    /\ (forall s1 s2 s3,
        handle _ (get_connection_between Connection a b) (w_store w)
        = (OK None, s1) ->
        handle _ (is_blocked Connection a b) s1 = (OK false, s2) ->
        handle _ (is_blocked Connection b a) s2 = (OK true, s3) ->
        fst out = Raise (ValueError "Cannot connect with blocked user")
        /\ persisted (w_calls (snd out)) = persisted (w_calls w)
        /\ w_store (snd out) = s3)
    /\ (forall s1 s2 s3 s4 c,
        handle _ (get_connection_between Connection a b) (w_store w)
        = (OK None, s1) ->
        handle _ (is_blocked Connection a b) s1 = (OK false, s2) ->
        handle _ (is_blocked Connection b a) s2 = (OK false, s3) ->
        handle _ (create_connection Connection a b "pending"
                    (clock (w_ticks w))) s3 = (OK c, s4) ->
        fst out = OK c
        /\ persisted (w_calls (snd out))
           = persisted (w_calls w) ++ [(a, b, "pending", clock (w_ticks w))]
        /\ w_store (snd out) = s4).
Proof.
  intros a b w out. subst out.
  unfold create_connection_request, _is_blocked, call, persisted.
  repeat split; intros; simpl;
    repeat match goal with
           | H : handle _ ?c ?s = _ |- context [handle _ ?c ?s] =>
               rewrite H; simpl
           end;
    rewrite ?flat_map_app; simpl; rewrite ?app_nil_r; reflexivity.
Qed.

(** C8, amended: for every connection id and every accepting user,
    [accept_connection] returns the record of that id with status
    ["accepted"] and the clock's reading as [connected_at], whatever the
    repository holds about the connection or the user: nothing is looked up,
    so neither the party nor a pending status is verified.  The connection
    as stored is not touched: no repository call is made and the store is
    the one the run started from, so a stored pending connection stays
    pending.  The clock is read once and the info record is logged. *)
Theorem accept_connection_returns_accepted :
  forall (connection_id accepting_user_id : Z) (w : world Connection Store),
    let out :=
      run_it (accept_connection Connection connection_id accepting_user_id) w in
    fst out = OK {| AcceptedConnection.id := connection_id;
                    AcceptedConnection.status := "accepted";
                    AcceptedConnection.connected_at := clock (w_ticks w) |}
    /\ w_store (snd out) = w_store w
    /\ w_calls (snd out) = w_calls w
    /\ w_ticks (snd out) = S (w_ticks w)
    /\ w_log (snd out) = w_log w ++ [info_connection_accepted connection_id].
Proof.
  intros connection_id accepting_user_id w out. subst out.
  unfold accept_connection. cbn [run fst snd w_store w_calls w_ticks w_log].
  repeat split; reflexivity.
Qed.

(** C10: [accept_connection] calls no repository method, so the store is
    the one it started from; and the [id] and [status] of the record it
    returns are the same for any two accepting users. *)
Theorem accept_connection_frame :
  forall (connection_id user1 user2 : Z) (w : world Connection Store),
    let out1 := run_it (accept_connection Connection connection_id user1) w in
    let out2 := run_it (accept_connection Connection connection_id user2) w in
    w_calls (snd out1) = w_calls w
    /\ w_store (snd out1) = w_store w
    /\ (exists r1 r2,
          fst out1 = OK r1 /\ fst out2 = OK r2
          /\ AcceptedConnection.id r1 = connection_id
          /\ AcceptedConnection.id r2 = connection_id
          /\ AcceptedConnection.status r1 = "accepted"
          /\ AcceptedConnection.status r2 = "accepted").
Proof.
  intros. subst out1 out2. simpl.
  split; [reflexivity|]. split; [reflexivity|].
  do 2 eexists. repeat split; reflexivity.
Qed.

End ServiceFacts.

(** ** Floating-point facts *)

Lemma SFmul_comm : forall x y : spec_float,
  SFmul prec emax x y = SFmul prec emax y x.
Proof.
  intros [sx|sx| |sx mx ex] [sy|sy| |sy my ey]; simpl;
    rewrite ?(xorb_comm sx sy); try reflexivity.
  now rewrite (Pos.mul_comm mx my), (Z.add_comm ex ey).
Qed.

Lemma float_mul_comm : forall x y : float, (x * y)%float = (y * x)%float.
Proof.
  intros x y. apply Prim2SF_inj.
  rewrite !mul_spec. apply SFmul_comm.
Qed.

(** ** Pairwise evaluation *)

Section MatchingFacts.

Variable py_pow : float -> float -> res float.

Lemma match_score_spec : forall shared path_overlap time_proximity,
  match_score shared path_overlap time_proximity
  = composite_score_spec (Z.of_nat (length shared)) path_overlap time_proximity.
Proof.
  intros. unfold match_score, composite_score_spec, proximity_bonus.
  rewrite (float_mul_comm 0.4), (float_mul_comm 0.4 path_overlap),
    (float_mul_comm 0.2).
  destruct (0 <? time_proximity); reflexivity.
Qed.

Lemma evaluate_match_unfold : forall u c tp po,
  _calculate_time_proximity (classes u) (classes c) = OK tp ->
  _calculate_path_overlap py_pow (walking_paths u) (walking_paths c) = OK po ->
  _evaluate_match py_pow u c
  = let shared := shared_courses u c in
    let sc := match_score shared po tp in
    if (sc <? 0.3)%float then OK None
    else if (Z.of_nat (length shared) =? 0) && (po <? MIN_PATH_OVERLAP)%float
         then OK None
    else OK (Some {| suggested_user_id := user_id c;
                     score := sc;
                     shared_classes := shared;
                     path_overlap_percent := (po * 100)%float;
                     time_proximity_minutes := tp |}).
Proof.
  intros u c tp po Htp Hpo. unfold _evaluate_match.
  rewrite Htp. simpl. rewrite Hpo. reflexivity.
Qed.

Lemma evaluate_match_inv : forall u c s,
  _evaluate_match py_pow u c = OK (Some s) ->
  exists tp po,
    _calculate_time_proximity (classes u) (classes c) = OK tp
    /\ _calculate_path_overlap py_pow (walking_paths u) (walking_paths c) = OK po
    /\ s = {| suggested_user_id := user_id c;
              score := match_score (shared_courses u c) po tp;
              shared_classes := shared_courses u c;
              path_overlap_percent := (po * 100)%float;
              time_proximity_minutes := tp |}.
Proof.
  intros u c s H.
  destruct (_calculate_time_proximity (classes u) (classes c)) as [tp|e] eqn:Htp;
    [|unfold _evaluate_match in H; rewrite Htp in H; discriminate].
  destruct (_calculate_path_overlap py_pow (walking_paths u) (walking_paths c))
    as [po|e] eqn:Hpo;
    [|unfold _evaluate_match in H; rewrite Htp in H; simpl in H;
      rewrite Hpo in H; discriminate].
  rewrite (evaluate_match_unfold u c tp po Htp Hpo) in H. cbv zeta in H.
  exists tp, po. repeat split.
  destruct (_ <? 0.3)%float; [discriminate|].
  destruct (_ && _); [discriminate|].
  now inversion H.
Qed.

(** C1: the score [_evaluate_match] computes, tests against the floor and
    returns is
    [0.4 x |shared| + 0.4 x path_overlap + 0.2 x (1.0 if proximity > 0 else
    0.0)] in binary64 arithmetic; a pair with exactly one shared course, path
    overlap 0.0 and no positive time proximity is suggested with score
    exactly 0.4; and some pair that shares several courses scores above
    1.0. *)
Theorem evaluate_match_score :
  forall u c : Schedule,
    (forall tp po,
        _calculate_time_proximity (classes u) (classes c) = OK tp ->
        _calculate_path_overlap py_pow (walking_paths u) (walking_paths c)
        = OK po ->
        _evaluate_match py_pow u c
        = let n := Z.of_nat (length (shared_courses u c)) in
          let sc := composite_score_spec n po tp in
          if (sc <? 0.3)%float then OK None
          else if (n =? 0) && (po <? MIN_PATH_OVERLAP)%float then OK None
          else OK (Some {| suggested_user_id := user_id c;
                           score := sc;
                           shared_classes := shared_courses u c;
                           path_overlap_percent := (po * 100)%float;
                           time_proximity_minutes := tp |}))
    /\ (forall s, _evaluate_match py_pow u c = OK (Some s) ->
         exists tp po,
           _calculate_time_proximity (classes u) (classes c) = OK tp
           /\ _calculate_path_overlap py_pow (walking_paths u) (walking_paths c)
              = OK po
           /\ shared_classes s = shared_courses u c
           /\ score s
              = composite_score_spec (Z.of_nat (length (shared_classes s)))
                  po tp)
    /\ (forall tp,
         length (shared_courses u c) = 1%nat ->
         _calculate_path_overlap py_pow (walking_paths u) (walking_paths c)
         = OK 0%float ->
         _calculate_time_proximity (classes u) (classes c) = OK tp ->
         tp <= 0 ->
         exists s, _evaluate_match py_pow u c = OK (Some s)
                   /\ score s = 0.4%float)
    /\ (exists u' c' s,
         _evaluate_match py_pow u' c' = OK (Some s)
         /\ (2 <= length (shared_classes s))%nat
         /\ (1 <? score s)%float = true).
Proof.
  intros u c. split; [|split; [|split]].
  - intros tp po Htp Hpo.
    rewrite (evaluate_match_unfold u c tp po Htp Hpo). cbv zeta.
    now rewrite match_score_spec.
  - intros s H. destruct (evaluate_match_inv u c s H) as (tp & po & Htp & Hpo & ->).
    exists tp, po. simpl. repeat split; try assumption.
    apply match_score_spec.
  - intros tp Hlen Hpo Htp Hle.
    rewrite (evaluate_match_unfold u c tp _ Htp Hpo). cbv zeta.
    unfold match_score, proximity_bonus. rewrite Hlen.
    replace (0 <? tp) with false by (symmetry; apply Z.ltb_ge; exact Hle).
    eexists. split; reflexivity.
  - exists dana, erin. eexists. split; [|split].
    + vm_compute. reflexivity.
    + vm_compute. lia.
    + vm_compute. reflexivity.
Qed.

(** C2: [_evaluate_match] returns [None] exactly when the composite score is
    below 0.3, or no course is shared and the path overlap is below 0.30.  A
    path overlap of exactly 0.30 with no shared course passes the overlap
    test, and is then decided by the score floor alone; no shared course and
    path overlap 0.0 is always [None]. *)
Theorem evaluate_match_rejection :
  forall (u c : Schedule) (tp : Z) (po : float),
    _calculate_time_proximity (classes u) (classes c) = OK tp ->
    _calculate_path_overlap py_pow (walking_paths u) (walking_paths c) = OK po ->
    let n := length (shared_courses u c) in
    let sc := match_score (shared_courses u c) po tp in
    (_evaluate_match py_pow u c = OK None
     <-> ((sc <? 0.3)%float = true
          \/ (n = 0%nat /\ (po <? 0.30)%float = true)))
    /\ (_evaluate_match py_pow u c = OK None
        \/ exists s, _evaluate_match py_pow u c = OK (Some s) /\ score s = sc)
    /\ (n = 0%nat -> po = 0.30%float ->
        (po <? MIN_PATH_OVERLAP)%float = false
        /\ (_evaluate_match py_pow u c = OK None <-> tp <= 0))
    /\ (n = 0%nat -> po = 0%float -> _evaluate_match py_pow u c = OK None).
Proof.
  intros u c tp po Htp Hpo n sc.
  rewrite (evaluate_match_unfold u c tp po Htp Hpo). cbv zeta.
  fold n. fold sc. unfold MIN_PATH_OVERLAP.
  split; [|split; [|split]].
  - destruct (sc <? 0.3)%float eqn:Hs.
    + split; [intros _; now left | reflexivity].
    + destruct (Z.of_nat n =? 0) eqn:Hn; simpl.
      * apply Z.eqb_eq in Hn.
        destruct (po <? 0.3)%float eqn:Hp.
        -- split; [intros _; right; split; [lia | reflexivity] | reflexivity].
        -- split; [discriminate | intros [H|[_ H]]; discriminate].
      * apply Z.eqb_neq in Hn.
        split; [discriminate | intros [H|[H _]]; [discriminate | lia]].
  - destruct (sc <? 0.3)%float; [now left|].
    destruct (_ && _); [now left|].
    right. eexists. split; reflexivity.
  - intros Hn ->. split; [reflexivity|].
    subst sc. unfold match_score, proximity_bonus. fold n. rewrite Hn.
    destruct (0 <? tp) eqn:Ht.
    + apply Z.ltb_lt in Ht. split; [vm_compute; discriminate | lia].
    + apply Z.ltb_ge in Ht. split; [intros _; exact Ht | reflexivity].
  - intros Hn ->. rewrite Hn. simpl.
    destruct (sc <? 0.3)%float; reflexivity.
Qed.

(** C9: time proximity is directional.  With Alice as the user and Bob as
    the candidate of [demo_run.py] it is 15 minutes (Bob's 10:30 start after
    Alice's 10:15 end); with the roles swapped there is none. *)
Theorem time_proximity_not_symmetric :
  exists (a b : Schedule) (r1 r2 : Z),
    _calculate_time_proximity (classes a) (classes b) = OK r1
    /\ _calculate_time_proximity (classes b) (classes a) = OK r2
    /\ r1 <> r2.
Proof.
  exists alice, bob, 15, (-1).
  split; [vm_compute; reflexivity|].
  split; [vm_compute; reflexivity|].
  discriminate.
Qed.

End MatchingFacts.

(** ** The order of binary64 numbers, through keys *)

Lemma cmp3_Lt : forall a b, cmp3 a b = Lt <-> lt3 a b.
Proof.
  intros [[a1 a2] a3] [[b1 b2] b3]. unfold cmp3, lt3. simpl.
  destruct (Z.compare_spec a1 b1); destruct (Z.compare_spec a2 b2);
    destruct (Z.compare_spec a3 b3); split; intros; try discriminate;
    try reflexivity; try lia.
Qed.

Lemma cmp3_Eq : forall a b, cmp3 a b = Eq <-> a = b.
Proof.
  intros [[a1 a2] a3] [[b1 b2] b3]. unfold cmp3. simpl.
  destruct (Z.compare_spec a1 b1); destruct (Z.compare_spec a2 b2);
    destruct (Z.compare_spec a3 b3); split; intros H'; try discriminate;
    try reflexivity; try (inversion H'; lia); subst; reflexivity.
Qed.

Lemma cmp3_Gt : forall a b, cmp3 a b = Gt <-> lt3 b a.
Proof.
  intros [[a1 a2] a3] [[b1 b2] b3]. unfold cmp3, lt3. simpl.
  destruct (Z.compare_spec a1 b1); destruct (Z.compare_spec a2 b2);
    destruct (Z.compare_spec a3 b3); split; intros; try discriminate;
    try reflexivity; try lia.
Qed.

Lemma SFcompare_key : forall x y,
  SFnum x -> SFnum y -> SFcompare x y = Some (cmp3 (SFkey x) (SFkey y)).
Proof.
  intros [sx|sx| |sx mx ex] [sy|sy| |sy my ey] Hx Hy;
    try (exfalso; apply Hx; reflexivity);
    try (exfalso; apply Hy; reflexivity);
    try (destruct sx); try (destruct sy); try reflexivity.
  - unfold SFcompare, SFkey, cmp3. simpl fst. simpl snd.
    rewrite Z.compare_opp.
    change (1 ?= 1) with Eq. change (-1 ?= -1) with Eq. cbv iota.
    rewrite (Z.compare_antisym ex ey).
    destruct (ex ?= ey); simpl; reflexivity.
Qed.

Lemma SFcompare_nan : forall x y,
  SFcompare x y <> None -> SFnum x /\ SFnum y.
Proof.
  intros [sx|sx| |sx mx ex] [sy|sy| |sy my ey] H; split; try discriminate;
    exfalso; apply H; reflexivity.
Qed.

Lemma ltb_key : forall x y : float,
  (x <? y)%float = true <-> fnum x /\ fnum y /\ lt3 (fkey x) (fkey y).
Proof.
  intros x y. rewrite ltb_spec. unfold SFltb, fnum, fkey. split.
  - intros H.
    destruct (SFcompare (Prim2SF x) (Prim2SF y)) as [c|] eqn:Hc; [|discriminate].
    destruct (SFcompare_nan (Prim2SF x) (Prim2SF y)) as [Hx Hy];
      [rewrite Hc; discriminate|].
    rewrite (SFcompare_key _ _ Hx Hy) in Hc. inversion Hc as [Hc'].
    split; [exact Hx|]. split; [exact Hy|].
    apply cmp3_Lt. destruct c; try discriminate. exact Hc'.
  - intros (Hx & Hy & Hlt). rewrite (SFcompare_key _ _ Hx Hy).
    apply cmp3_Lt in Hlt. rewrite Hlt. reflexivity.
Qed.

Lemma leb_key : forall x y : float,
  (x <=? y)%float = true <-> fnum x /\ fnum y /\ le3 (fkey x) (fkey y).
Proof.
  intros x y. rewrite leb_spec. unfold SFleb, fnum, fkey. split.
  - intros H.
    destruct (SFcompare (Prim2SF x) (Prim2SF y)) as [c|] eqn:Hc; [|discriminate].
    destruct (SFcompare_nan (Prim2SF x) (Prim2SF y)) as [Hx Hy];
      [rewrite Hc; discriminate|].
    rewrite (SFcompare_key _ _ Hx Hy) in Hc. inversion Hc as [Hc'].
    split; [exact Hx|]. split; [exact Hy|].
    destruct c; try discriminate.
    + right. now apply cmp3_Eq.
    + left. now apply cmp3_Lt.
  - intros (Hx & Hy & [Hlt|Heq]); rewrite (SFcompare_key _ _ Hx Hy).
    + apply cmp3_Lt in Hlt. rewrite Hlt. reflexivity.
    + apply cmp3_Eq in Heq. rewrite Heq. reflexivity.
Qed.

Lemma lt3_trans : forall a b c, lt3 a b -> lt3 b c -> lt3 a c.
Proof. intros [[? ?] ?] [[? ?] ?] [[? ?] ?]. unfold lt3. simpl. lia. Qed.

Lemma lt3_irrefl : forall a, ~ lt3 a a.
Proof. intros [[? ?] ?]. unfold lt3. simpl. lia. Qed.

Lemma lt3_total : forall a b, lt3 a b \/ a = b \/ lt3 b a.
Proof.
  intros [[a1 a2] a3] [[b1 b2] b3]. unfold lt3. simpl.
  destruct (Z.eq_dec a1 b1), (Z.eq_dec a2 b2), (Z.eq_dec a3 b3);
    subst; try lia; try (right; left; reflexivity).
Qed.

Lemma le3_trans : forall a b c, le3 a b -> le3 b c -> le3 a c.
Proof.
  intros a b c [H1|H1] [H2|H2]; subst.
  - left. eapply lt3_trans; eassumption.
  - now left.
  - now left.
  - now right.
Qed.

Lemma ltb_false_leb : forall x y : float,
  fnum x -> fnum y -> (x <? y)%float = false -> (y <=? x)%float = true.
Proof.
  intros x y Hx Hy H. apply leb_key. split; [exact Hy|]. split; [exact Hx|].
  destruct (lt3_total (fkey x) (fkey y)) as [Hlt|[Heq|Hgt]].
  - assert ((x <? y)%float = true) by (apply ltb_key; auto). congruence.
  - right. now symmetry.
  - now left.
Qed.

Lemma ltb_leb : forall x y : float,
  (x <? y)%float = true -> (x <=? y)%float = true.
Proof.
  intros x y H. apply ltb_key in H. destruct H as (Hx & Hy & H).
  apply leb_key. split; [exact Hx|]. split; [exact Hy|]. now left.
Qed.

Lemma leb_trans : forall x y z : float,
  (x <=? y)%float = true -> (y <=? z)%float = true -> (x <=? z)%float = true.
Proof.
  intros x y z H1 H2. apply leb_key in H1. apply leb_key in H2.
  destruct H1 as (Hx & Hy & H1). destruct H2 as (_ & Hz & H2).
  apply leb_key. split; [exact Hx|]. split; [exact Hz|].
  eapply le3_trans; eassumption.
Qed.

(** ** Time proximity *)

Lemma forallb_Zseq : forall (f : Z -> bool) (lo : Z) (n : nat),
  forallb f (Zseq lo n) = true ->
  forall d, lo <= d < lo + Z.of_nat n -> f d = true.
Proof.
  intros f lo n H d Hd. unfold Zseq in H.
  rewrite forallb_forall in H. apply H.
  apply in_map_iff. exists (Z.to_nat (d - lo)). split; [lia|].
  apply in_seq. lia.
Qed.

Lemma gap_table : forall d, -1439 <= d <= 1439 -> gap_check d = true.
Proof.
  intros d Hd. apply (forallb_Zseq gap_check (-1439) 2879); [|lia].
  vm_compute. reflexivity.
Qed.

Lemma step_table : forall k, 0 <= k <= 1439 -> step_check k = true.
Proof.
  intros k Hk. apply (forallb_Zseq step_check 0 1440); [|lia].
  vm_compute. reflexivity.
Qed.

Lemma step_facts : forall k, 0 <= k <= 1439 ->
  (float_of_int k <? float_of_int (k + 1))%float = true
  /\ (float_of_int k <? infinity)%float = true
  /\ int_of_float (float_of_int k) = OK k.
Proof.
  intros k Hk. pose proof (step_table k Hk) as H. unfold step_check in H.
  apply andb_prop in H. destruct H as [H H3].
  apply andb_prop in H. destruct H as [H1 H2].
  split; [exact H1|]. split; [exact H2|].
  destruct (int_of_float (float_of_int k)) as [r|e]; [|discriminate].
  apply Z.eqb_eq in H3. now subst.
Qed.

Lemma minute_num : forall k, 0 <= k <= 1439 -> fnum (float_of_int k).
Proof.
  intros k Hk. destruct (step_facts k Hk) as (H & _).
  apply ltb_key in H. tauto.
Qed.

Lemma minute_chain : forall (n : nat) (k : Z),
  0 <= k -> k + 1 + Z.of_nat n <= 1440 ->
  lt3 (fkey (float_of_int k)) (fkey (float_of_int (k + 1 + Z.of_nat n))).
Proof.
  induction n as [|n IH]; intros k Hk Hn.
  - replace (k + 1 + Z.of_nat 0) with (k + 1) by lia.
    destruct (step_facts k) as (H & _); [lia|].
    apply ltb_key in H. tauto.
  - apply lt3_trans with (fkey (float_of_int (k + 1 + Z.of_nat n))).
    + apply IH; lia.
    + replace (k + 1 + Z.of_nat (S n)) with (k + 1 + Z.of_nat n + 1) by lia.
      destruct (step_facts (k + 1 + Z.of_nat n)) as (H & _); [lia|].
      apply ltb_key in H. tauto.
Qed.

Lemma minute_lt3 : forall k j, 0 <= k -> k < j -> j <= 1440 ->
  lt3 (fkey (float_of_int k)) (fkey (float_of_int j)).
Proof.
  intros k j Hk Hkj Hj.
  replace j with (k + 1 + Z.of_nat (Z.to_nat (j - k - 1))) by lia.
  apply minute_chain; lia.
Qed.

Lemma minute_ltb : forall k j, 0 <= k <= 1439 -> 0 <= j <= 1439 ->
  (float_of_int k <? float_of_int j)%float = (k <? j).
Proof.
  intros k j Hk Hj. destruct (k <? j) eqn:E.
  - apply Z.ltb_lt in E. apply ltb_key.
    split; [now apply minute_num|]. split; [now apply minute_num|].
    apply minute_lt3; lia.
  - apply Z.ltb_ge in E.
    destruct (float_of_int k <? float_of_int j)%float eqn:F; [|reflexivity].
    exfalso. apply ltb_key in F. destruct F as (_ & _ & F).
    destruct (Z.eq_dec j k) as [->|Hne].
    + exact (lt3_irrefl _ F).
    + apply (lt3_irrefl (fkey (float_of_int k))).
      eapply lt3_trans; [exact F|]. apply minute_lt3; lia.
Qed.

Lemma minute_leb : forall k j, 0 <= k <= 1439 -> 0 <= j <= 1439 ->
  (float_of_int k <=? float_of_int j)%float = (k <=? j).
Proof.
  intros k j Hk Hj. destruct (k <=? j) eqn:E.
  - apply Z.leb_le in E. apply leb_key.
    split; [now apply minute_num|]. split; [now apply minute_num|].
    destruct (Z.eq_dec k j) as [->|Hne]; [now right|].
    left. apply minute_lt3; lia.
  - apply Z.leb_gt in E.
    destruct (float_of_int k <=? float_of_int j)%float eqn:F; [|reflexivity].
    exfalso. apply leb_key in F. destruct F as (_ & _ & F).
    assert (G : lt3 (fkey (float_of_int j)) (fkey (float_of_int k)))
      by (apply minute_lt3; lia).
    destruct F as [F|F].
    + apply (lt3_irrefl (fkey (float_of_int k))).
      eapply lt3_trans; eassumption.
    + rewrite F in G. exact (lt3_irrefl _ G).
Qed.

Lemma py_min_repr : forall o g, in_day o -> 0 <= g <= 1439 ->
  py_min (min_repr o) (float_of_int g) = min_repr (min_step o g)
  /\ in_day (min_step o g).
Proof.
  intros [m|] g Ho Hg; unfold py_min; simpl in *.
  - rewrite minute_ltb by assumption. split; [|lia].
    destruct (g <? m) eqn:E.
    + apply Z.ltb_lt in E. now rewrite Z.min_r by lia.
    + apply Z.ltb_ge in E. now rewrite Z.min_l by lia.
  - destruct (step_facts g Hg) as (_ & H & _). rewrite H. split; [reflexivity|lia].
Qed.

Lemma digit_value_range : forall c d, digit_value c = Some d -> 0 <= d <= 9.
Proof.
  intros c d. unfold digit_value.
  destruct ((48 <=? _) && (_ <=? 57)) eqn:E; [|discriminate].
  apply andb_prop in E. destruct E as [E1 E2].
  apply Z.leb_le in E1. apply Z.leb_le in E2.
  intros H. inversion H. lia.
Qed.

Lemma parse_field_range : forall bound cs v,
  9 <= bound -> parse_field bound cs = Some v -> 0 <= v <= bound.
Proof.
  intros bound cs v Hb. unfold parse_field.
  destruct cs as [|c1 [|c2 [|c3 cs]]]; try discriminate.
  - intros H. apply digit_value_range in H. lia.
  - destruct (digit_value c1) as [d1|] eqn:E1; [|discriminate].
    destruct (digit_value c2) as [d2|] eqn:E2; [|discriminate].
    destruct (10 * d1 + d2 <=? bound) eqn:E; [|discriminate].
    apply Z.leb_le in E. apply digit_value_range in E1, E2.
    intros H. inversion H. lia.
Qed.

(** What [strptime] returns: 1900-01-01, a whole minute of the day. *)
Lemma strptime_HM_shape : forall time_str t,
  strptime_HM time_str = OK t ->
  dt_ordinal t = ordinal_1900_01_01
  /\ dt_microsecond t = 0
  /\ dt_second t = 60 * clock_minutes time_str
  /\ 0 <= clock_minutes time_str <= 1439.
Proof.
  intros time_str t H. unfold clock_minutes. rewrite H.
  unfold strptime_HM in H.
  destruct (split_colon _) as [[hs ms]|]; [|discriminate].
  destruct (parse_field 23 hs) as [h|] eqn:Eh; [|discriminate].
  destruct (parse_field 59 ms) as [m|] eqn:Em; [|discriminate].
  apply parse_field_range in Eh; [|lia]. apply parse_field_range in Em; [|lia].
  inversion H. simpl.
  replace (h * 3600 + m * 60) with ((h * 60 + m) * 60) by lia.
  rewrite Z.div_mul by lia. lia.
Qed.

Lemma minutes_apart_spec : forall a b sa sb,
  strptime_HM sa = OK a -> strptime_HM sb = OK b ->
  minutes_apart a b
  = OK (float_of_int (Z.abs (clock_minutes sa - clock_minutes sb)))
  /\ 0 <= Z.abs (clock_minutes sa - clock_minutes sb) <= 1439.
Proof.
  intros a b sa sb Ha Hb.
  destruct (strptime_HM_shape _ _ Ha) as (Ha1 & Ha2 & Ha3 & Ha4).
  destruct (strptime_HM_shape _ _ Hb) as (Hb1 & Hb2 & Hb3 & Hb4).
  set (d := clock_minutes sa - clock_minutes sb).
  assert (Hd : -1439 <= d <= 1439) by (unfold d; lia).
  split; [|lia].
  unfold minutes_apart, total_seconds, datetime_sub, make_timedelta.
  cbn [td_days td_seconds td_microseconds].
  rewrite Ha1, Ha2, Ha3, Hb1, Hb2, Hb3.
  match goal with
  | |- context [int_truediv ?x 1000000] =>
      replace x with (60 * d * 1000000)
  end.
  2:{ unfold d. change (0 - 0) with 0. change (0 / 1000000) with 0.
      change (0 mod 1000000) with 0.
      rewrite !Z.add_0_r.
      replace (ordinal_1900_01_01 - ordinal_1900_01_01) with 0 by lia.
      Z.to_euclidean_division_equations. lia. }
  pose proof (gap_table d Hd) as G. unfold gap_check in G.
  destruct (secs <- int_truediv (60 * d * 1000000) 1000000;;
            q <- float_truediv secs (float_of_int 60);; OK (PrimFloat.abs q))
    as [f|e]; [|discriminate].
  apply FloatAxioms.Leibniz.eqb_spec in G. now subst.
Qed.

Lemma scan_candidate_classes_spec : forall cs u uend o,
  strptime_HM (end_time u) = OK uend -> in_day o ->
  match scan_candidate_classes (day u) uend cs (min_repr o) with
  | OK f => f = min_repr (fold_left min_step (gaps_for u cs) o)
            /\ in_day (fold_left min_step (gaps_for u cs) o)
  | Raise _ => ~ Forall (fun c => exists t, strptime_HM (start_time c) = OK t) cs
  end.
Proof.
  induction cs as [|c cs IH]; intros u uend o Hu Ho.
  - simpl. auto.
  - unfold gaps_for in *. simpl.
    destruct (String.eqb (day u) (day c)) eqn:E; simpl.
    + unfold _parse_time.
      destruct (strptime_HM (start_time c)) as [cstart|e] eqn:Hc; simpl.
      * destruct (minutes_apart_spec _ _ _ _ Hc Hu) as [Hm Hr]. rewrite Hm. simpl.
        destruct (py_min_repr o _ Ho Hr) as [Hp Hi]. rewrite Hp.
        specialize (IH u uend _ Hu Hi).
        destruct (scan_candidate_classes _ _ _ _) as [f|e].
        -- exact IH.
        -- intros HF. apply IH. now inversion HF.
      * intros HF. inversion HF as [|? ? [t Ht] _]. congruence.
    + specialize (IH u uend o Hu Ho).
      destruct (scan_candidate_classes _ _ _ _) as [f|e].
      * exact IH.
      * intros HF. apply IH. now inversion HF.
Qed.

Lemma scan_user_classes_spec : forall us cs o,
  in_day o ->
  match scan_user_classes us cs (min_repr o) with
  | OK f => f = min_repr (fold_left min_step (same_day_gaps us cs) o)
            /\ in_day (fold_left min_step (same_day_gaps us cs) o)
  | Raise _ => ~ times_parse us cs
  end.
Proof.
  induction us as [|u us IH]; intros cs o Ho.
  - simpl. auto.
  - simpl. unfold _parse_time.
    destruct (strptime_HM (end_time u)) as [uend|e] eqn:Hu; simpl.
    + pose proof (scan_candidate_classes_spec cs u uend o Hu Ho) as Hc.
      destruct (scan_candidate_classes _ _ _ _) as [f|e]; simpl.
      * destruct Hc as [-> Hi]. rewrite fold_left_app.
        specialize (IH cs _ Hi).
        destruct (scan_user_classes _ _ _) as [f|e].
        -- exact IH.
        -- intros [H1 H2]. apply IH. split; [now inversion H1 | exact H2].
      * intros [_ H2]. now apply Hc.
    + intros [H1 _]. inversion H1 as [|? ? [t Ht] _]. congruence.
Qed.

Lemma fold_min_some : forall l a,
  exists m, fold_left min_step l (Some a) = Some m
            /\ (m = a \/ In m l) /\ m <= a /\ forall x, In x l -> m <= x.
Proof.
  induction l as [|y l IH]; intros a.
  - exists a. simpl. repeat split; auto; try lia; intros x [].
  - simpl. destruct (IH (Z.min a y)) as (m & H1 & H2 & H3 & H4).
    exists m. split; [exact H1|]. split; [|split].
    + destruct H2 as [H2|H2]; [|auto].
      destruct (Z.min_spec a y) as [[_ E]|[_ E]]; rewrite E in H2; auto.
    + lia.
    + intros x [<-|Hx]; [lia | now apply H4].
Qed.

Lemma minimum_spec : forall l,
  (minimum l = None <-> l = [])
  /\ forall m, minimum l = Some m -> In m l /\ forall x, In x l -> m <= x.
Proof.
  intros [|y l]; unfold minimum; simpl.
  - split; [tauto | discriminate].
  - destruct (fold_min_some l y) as (m & H1 & H2 & H3 & H4). rewrite H1.
    split; [split; discriminate|].
    intros m' E. inversion E; subst m'. split.
    + destruct H2; auto.
    + intros x [<-|Hx]; [lia | now apply H4].
Qed.

Lemma same_day_gaps_nonneg : forall us cs x,
  In x (same_day_gaps us cs) -> 0 <= x.
Proof.
  intros us cs x H. unfold same_day_gaps in H.
  apply in_flat_map in H. destruct H as (u & _ & H).
  unfold gaps_for in H. apply in_map_iff in H. destruct H as (c & <- & _).
  apply Z.abs_nonneg.
Qed.

(** C3: when [_calculate_time_proximity] returns, it returns the
    specification's value: the minimum over the same-day pairs of
    [|candidate start - user end|] in minutes (a whole number, so truncation
    changes nothing) if there is such a pair and the minimum is at most 15,
    and -1 otherwise.  It does return when the times are well formed.  The
    value is -1 exactly when no same-day pair exists or the minimum exceeds
    15; a minimum of exactly 15 is returned as 15. *)
Theorem time_proximity_meets_spec :
  forall user_classes candidate_classes : list class_record,
    let gaps := same_day_gaps user_classes candidate_classes in
    (forall r, _calculate_time_proximity user_classes candidate_classes = OK r ->
               r = time_proximity_spec user_classes candidate_classes)
    /\ (times_parse user_classes candidate_classes ->
        _calculate_time_proximity user_classes candidate_classes
        = OK (time_proximity_spec user_classes candidate_classes))
    /\ (forall m, minimum gaps = Some m ->
                  In m gaps /\ forall x, In x gaps -> m <= x)
    /\ (time_proximity_spec user_classes candidate_classes = -1
        <-> gaps = [] \/ exists m, minimum gaps = Some m /\ 15 < m)
    /\ (minimum gaps = Some 15 ->
        time_proximity_spec user_classes candidate_classes = 15).
Proof.
  intros us cs gaps.
  assert (Hcode : match _calculate_time_proximity us cs with
                  | OK r => r = time_proximity_spec us cs
                  | Raise _ => ~ times_parse us cs
                  end).
  { unfold _calculate_time_proximity, time_proximity_spec.
    pose proof (scan_user_classes_spec us cs None I) as H.
    change (min_repr None) with infinity in H.
    destruct (scan_user_classes us cs infinity) as [f|e]; simpl; [|exact H].
    destruct H as [-> Hi]. fold (minimum (same_day_gaps us cs)) in *.
    destruct (minimum (same_day_gaps us cs)) as [m|]; simpl in *.
    - unfold TIME_PROXIMITY_THRESHOLD. rewrite minute_leb by lia.
      destruct (m <=? 15) eqn:E; [|reflexivity].
      destruct (step_facts m Hi) as (_ & _ & ->). reflexivity.
    - reflexivity. }
  split; [|split; [|split; [|split]]].
  - intros r Hr. rewrite Hr in Hcode. exact Hcode.
  - intros Hp. destruct (_calculate_time_proximity us cs) as [r|e].
    + now subst.
    + contradiction.
  - apply minimum_spec.
  - unfold time_proximity_spec. fold gaps.
    destruct (minimum_spec gaps) as [Hn Hs].
    destruct (minimum gaps) as [m|] eqn:Em.
    + destruct (Hs m eq_refl) as [Hin _].
      apply same_day_gaps_nonneg in Hin.
      destruct (m <=? 15) eqn:E.
      * apply Z.leb_le in E. split; [lia|].
        intros [H|(m' & H & Hm')].
        -- apply Hn in H. discriminate.
        -- inversion H. lia.
      * apply Z.leb_gt in E. split; [|reflexivity].
        intros _. right. exists m. split; [reflexivity | lia].
    + split; [|reflexivity]. intros _. left. now apply Hn.
  - unfold time_proximity_spec. fold gaps. intros ->. reflexivity.
Qed.

(** ** Suggestion generation *)

Lemma positive_score_num : forall s, positive_score s -> fnum (score s).
Proof.
  intros s H. apply ltb_key in H. tauto.
Qed.

Lemma insert_by_score_perm : forall x l,
  Permutation (x :: l) (insert_by_score x l).
Proof.
  induction l as [|y l IH]; simpl.
  - reflexivity.
  - destruct (score y <? score x)%float.
    + reflexivity.
    + rewrite perm_swap. now apply perm_skip.
Qed.

Lemma sort_by_score_desc_perm_acc : forall l acc,
  Permutation (acc ++ l) (fold_left (fun a x => insert_by_score x a) l acc).
Proof.
  induction l as [|x l IH]; intros acc; simpl.
  - now rewrite app_nil_r.
  - rewrite <- IH. rewrite <- insert_by_score_perm.
    symmetry. apply Permutation_middle.
Qed.

Lemma sort_by_score_desc_perm : forall l,
  Permutation l (sort_by_score_desc l).
Proof.
  intros l. apply (sort_by_score_desc_perm_acc l []).
Qed.

Lemma insert_by_score_sorted : forall x l,
  positive_score x -> Forall positive_score l ->
  StronglySorted score_desc l ->
  StronglySorted score_desc (insert_by_score x l).
Proof.
  intros x l Hx. induction l as [|y l IH]; intros Hl Hs; simpl.
  - constructor; constructor.
  - inversion Hl as [|? ? Hy Hl']; subst.
    inversion Hs as [|? ? Hs' Hall]; subst.
    destruct (score y <? score x)%float eqn:E.
    + constructor; [exact Hs|].
      constructor.
      * unfold score_desc. now apply ltb_leb.
      * eapply List.Forall_impl; [|exact Hall].
        intros z Hz. unfold score_desc in *.
        eapply leb_trans; [exact Hz|]. now apply ltb_leb.
    + constructor; [now apply IH|].
      apply (Permutation_Forall (insert_by_score_perm x l)).
      constructor; [|exact Hall].
      unfold score_desc. apply ltb_false_leb; auto using positive_score_num.
Qed.

Lemma sort_by_score_desc_sorted_acc : forall l acc,
  Forall positive_score l -> Forall positive_score acc ->
  StronglySorted score_desc acc ->
  StronglySorted score_desc (fold_left (fun a x => insert_by_score x a) l acc).
Proof.
  induction l as [|x l IH]; intros acc Hl Hacc Hs; simpl.
  - exact Hs.
  - inversion Hl; subst. apply IH; [assumption| |].
    + apply (Permutation_Forall (insert_by_score_perm x acc)). now constructor.
    + now apply insert_by_score_sorted.
Qed.

Lemma sort_by_score_desc_sorted : forall l,
  Forall positive_score l -> StronglySorted score_desc (sort_by_score_desc l).
Proof.
  intros l Hl. apply sort_by_score_desc_sorted_acc; [exact Hl| |]; constructor.
Qed.

Lemma in_firstn_in : forall (A : Type) (n : nat) (l : list A) (y : A),
  In y (firstn n l) -> In y l.
Proof.
  intros A n l y H. rewrite <- (firstn_skipn n l). apply in_or_app. now left.
Qed.

Lemma firstn_sorted : forall (n : nat) (l : list FriendSuggestion),
  StronglySorted score_desc l -> StronglySorted score_desc (firstn n l).
Proof.
  induction n as [|n IH]; intros l Hs; simpl.
  - constructor.
  - destruct l as [|x l]; [constructor|].
    inversion Hs; subst. constructor; [now apply IH|].
    apply List.Forall_forall. intros y Hy.
    apply (proj1 (List.Forall_forall _ _) H2). eapply in_firstn_in; eauto.
Qed.

Section GenerationFacts.

Variable Connection : Type.
Variable py_pow : float -> float -> res float.
Variable Store : Type.
Variable handle : forall R : Type, repo_call Connection R -> Store -> res R * Store.
Variable clock : nat -> datetime.

Local Abbreviation run_it := (run Connection Store handle clock).

Lemma collect_suggestions_spec :
  forall (okc : Schedule -> Prop) us cands acc r,
    collect_suggestions py_pow us cands acc = OK r ->
    Forall okc cands ->
    Forall (fun s => positive_score s
                     /\ exists c, okc c /\ suggested_user_id s = user_id c) acc ->
    Forall (fun s => positive_score s
                     /\ exists c, okc c /\ suggested_user_id s = user_id c) r.
Proof.
  intros okc us cands. induction cands as [|c cands IH]; intros acc r H Hc Hacc.
  - simpl in H. inversion H; now subst.
  - simpl in H. inversion Hc as [|? ? Hok Hc']; subst.
    destruct (_evaluate_match py_pow us c) as [[s|]|e] eqn:E; simpl in H;
      try discriminate.
    + destruct (0 <? score s)%float eqn:Hs.
      * apply (IH _ _ H Hc'). apply Forall_app. split; [exact Hacc|].
        constructor; [|constructor]. split; [exact Hs|].
        exists c. split; [exact Hok|].
        destruct (evaluate_match_inv py_pow us c s E) as (tp & po & _ & _ & ->).
        reflexivity.
      * now apply (IH _ _ H Hc').
    + now apply (IH _ _ H Hc').
Qed.

Lemma generate_suggestions_inv : forall uid limit w l w',
  run_it (generate_suggestions Connection py_pow uid limit) w = (OK l, w') ->
  (l = [])
  \/ (exists us s1 conns s2 blocks s3 cands s4 sugg,
        handle _ (get_schedule_by_user Connection uid) (w_store w)
        = (OK (Some us), s1)
        /\ handle _ (get_connections Connection uid) s1 = (OK conns, s2)
        /\ handle _ (get_blocked_users Connection uid) s2 = (OK blocks, s3)
        /\ handle _ (get_schedules_by_university Connection (user_id us)
                       (exclude_ids conns blocks uid)) s3 = (OK cands, s4)
        /\ collect_suggestions py_pow us cands [] = OK sugg
        /\ l = slice_to (sort_by_score_desc sugg) limit).
Proof.
  intros uid limit w l w' H.
  unfold generate_suggestions, call in H. simpl in H.
  destruct (handle _ (get_schedule_by_user Connection uid) (w_store w))
    as [[[us|]|e] s1] eqn:H1; simpl in H; try discriminate.
  2:{ left. now inversion H. }
  destruct (handle _ (get_connections Connection uid) s1)
    as [[conns|e] s2] eqn:H2; simpl in H; try discriminate.
  destruct (handle _ (get_blocked_users Connection uid) s2)
    as [[blocks|e] s3] eqn:H3; simpl in H; try discriminate.
  destruct (handle _ (get_schedules_by_university Connection (user_id us)
                        (exclude_ids conns blocks uid)) s3)
    as [[cands|e] s4] eqn:H4; simpl in H; try discriminate.
  destruct (collect_suggestions py_pow us cands []) as [sugg|e] eqn:H5;
    simpl in H; try discriminate.
  right. exists us, s1, conns, s2, blocks, s3, cands, s4, sugg.
  repeat split; try assumption. now inversion H.
Qed.

Lemma slice_to_prefix : forall (A : Type) (l : list A) (limit : Z),
  exists n, slice_to l limit = firstn n l
            /\ (0 <= limit -> Z.of_nat (length (slice_to l limit)) <= limit).
Proof.
  intros A l limit. unfold slice_to.
  destruct (0 <=? limit) eqn:E.
  - exists (Z.to_nat limit). split; [reflexivity|].
    intros _. apply Z.leb_le in E.
    pose proof (firstn_le_length (Z.to_nat limit) l). lia.
  - exists (Z.to_nat (Z.of_nat (length l) + limit)). split; [reflexivity|].
    apply Z.leb_gt in E. lia.
Qed.

Lemma exclude_ids_covers : forall conns blocks uid x,
  ~ In x (exclude_ids conns blocks uid) ->
  x <> uid
  /\ ~ In x (map other_user_id conns)
  /\ ~ In x (map blocked_user_id blocks).
Proof.
  intros conns blocks uid x H.
  assert (G : forall y, y = uid \/ In y (map other_user_id conns)
                        \/ In y (map blocked_user_id blocks) ->
                        In y (exclude_ids conns blocks uid)).
  { intros y Hy. unfold exclude_ids.
    apply list_elem_of_In, elem_of_elements.
    rewrite !elem_of_union, !elem_of_list_to_set, elem_of_singleton.
    rewrite <- !list_elem_of_In in Hy. tauto. }
  repeat split; intros Hx; apply H, G; auto.
Qed.

(** C4: when [generate_suggestions] returns a list for a limit that is not
    negative, every suggestion in it has a score above 0, the list is in
    descending order of score, and it has at most [limit] entries.  If the
    population query returned no schedule of an excluded user, then no
    suggestion is for the requesting user, for a user of an existing
    connection, or for a blocked user. *)
Theorem generate_suggestions_result :
  forall (uid limit : Z) (w w' : world Connection Store)
         (l : list FriendSuggestion),
    0 <= limit ->
    run_it (generate_suggestions Connection py_pow uid limit) w = (OK l, w') ->
    Forall positive_score l
    /\ StronglySorted score_desc l
    /\ Z.of_nat (length l) <= limit
    /\ (forall us s1 conns s2 blocks s3 cands s4,
          handle _ (get_schedule_by_user Connection uid) (w_store w)
          = (OK (Some us), s1) ->
          handle _ (get_connections Connection uid) s1 = (OK conns, s2) ->
          handle _ (get_blocked_users Connection uid) s2 = (OK blocks, s3) ->
          handle _ (get_schedules_by_university Connection (user_id us)
                      (exclude_ids conns blocks uid)) s3 = (OK cands, s4) ->
          Forall (fun c => ~ In (user_id c) (exclude_ids conns blocks uid))
                 cands ->
          Forall (fun s => suggested_user_id s <> uid
                           /\ ~ In (suggested_user_id s)
                                   (map other_user_id conns)
                           /\ ~ In (suggested_user_id s)
                                   (map blocked_user_id blocks)) l).
Proof.
  intros uid limit w w' l Hlimit Hrun.
  destruct (generate_suggestions_inv uid limit w l w' Hrun)
    as [->|(us & s1 & conns & s2 & blocks & s3 & cands & s4 & sugg
            & H1 & H2 & H3 & H4 & H5 & ->)].
  { repeat split; try constructor. simpl. lia. }
  destruct (slice_to_prefix _ (sort_by_score_desc sugg) limit) as (n & Hn & Hlen).
  assert (Hpos : Forall positive_score sugg).
  { pose proof (collect_suggestions_spec (fun _ => True) us cands [] sugg H5) as G.
    eapply List.Forall_impl; [|apply G].
    - intros s [Hs _]. exact Hs.
    - apply List.Forall_forall. auto.
    - constructor. }
  split; [|split; [|split]].
  - rewrite Hn. apply List.Forall_forall. intros s Hs.
    apply in_firstn_in in Hs.
    apply (Permutation_in _ (Permutation_sym (sort_by_score_desc_perm sugg))) in Hs.
    exact (proj1 (List.Forall_forall _ _) Hpos s Hs).
  - rewrite Hn. apply firstn_sorted. now apply sort_by_score_desc_sorted.
  - now apply Hlen.
  - intros us' s1' conns' s2' blocks' s3' cands' s4' G1 G2 G3 G4 Hex.
    rewrite H1 in G1. injection G1 as E1 E1'. subst us' s1'.
    rewrite H2 in G2. injection G2 as E2 E2'. subst conns' s2'.
    rewrite H3 in G3. injection G3 as E3 E3'. subst blocks' s3'.
    rewrite H4 in G4. injection G4 as E4 E4'. subst cands' s4'.
    pose proof (collect_suggestions_spec _ us cands [] sugg H5 Hex
                  (List.Forall_nil _)) as G.
    rewrite Hn. apply List.Forall_forall. intros s Hs.
    apply in_firstn_in in Hs.
    apply (Permutation_in _ (Permutation_sym (sort_by_score_desc_perm sugg))) in Hs.
    destruct (proj1 (List.Forall_forall _ _) G s Hs) as (_ & c & Hc & ->).
    now apply exclude_ids_covers.
Qed.

End GenerationFacts.

(** ** Rounding to binary64 *)

Lemma pow2_pos : forall e, (0 < pow2 e)%R.
Proof. intros e. apply powerRZ_lt. lra. Qed.

Lemma pow2_add : forall a b, pow2 (a + b) = (pow2 a * pow2 b)%R.
Proof. intros a b. apply powerRZ_add. lra. Qed.

Lemma pow2_Z : forall k, 0 <= k -> pow2 k = IZR (2 ^ k).
Proof.
  intros k Hk. unfold pow2.
  rewrite <- (Z2Nat.id k Hk) at 1. rewrite <- pow_powerRZ.
  rewrite pow_IZR. now rewrite Z2Nat.id.
Qed.

Lemma pow2_le : forall a b, a <= b -> (pow2 a <= pow2 b)%R.
Proof.
  intros a b H. replace b with (a + (b - a)) by lia. rewrite pow2_add.
  rewrite (pow2_Z (b - a)) by lia.
  assert (0 < 2 ^ (b - a)) by (apply Z.pow_pos_nonneg; lia).
  assert (H1 : 1 <= 2 ^ (b - a)) by lia.
  apply IZR_le in H1. pose proof (pow2_pos a). nra.
Qed.

Lemma pow2_lt : forall a b, a < b -> (pow2 a < pow2 b)%R.
Proof.
  intros a b H. replace b with (a + (b - a)) by lia. rewrite pow2_add.
  rewrite (pow2_Z (b - a)) by lia.
  assert (2 ^ 1 <= 2 ^ (b - a)) by (apply Z.pow_le_mono_r; lia).
  change (2 ^ 1) with 2 in H0.
  apply IZR_le in H0. pose proof (pow2_pos a). nra.
Qed.

Lemma F2R_shift : forall m e k, 0 <= k -> F2R (m * 2 ^ k) e = F2R m (e + k).
Proof.
  intros m e k Hk. unfold F2R. rewrite pow2_add, (pow2_Z k Hk), mult_IZR. ring.
Qed.

Lemma F2R_le : forall m m' e, m <= m' -> (F2R m e <= F2R m' e)%R.
Proof.
  intros m m' e H. unfold F2R. apply IZR_le in H. pose proof (pow2_pos e). nra.
Qed.

Lemma F2R_lt : forall m m' e, m < m' -> (F2R m e < F2R m' e)%R.
Proof.
  intros m m' e H. unfold F2R. apply IZR_lt in H. pose proof (pow2_pos e). nra.
Qed.

Lemma F2R_le_inv : forall m m' e, (F2R m e <= F2R m' e)%R -> m <= m'.
Proof.
  intros m m' e H. destruct (Z_lt_le_dec m' m) as [L|L]; [|exact L].
  apply (F2R_lt _ _ e) in L. lra.
Qed.

Lemma F2R_lt_inv : forall m m' e, (F2R m e < F2R m' e)%R -> m < m'.
Proof.
  intros m m' e H. destruct (Z_lt_le_dec m m') as [L|L]; [exact L|].
  apply (F2R_le _ _ e) in L. lra.
Qed.

Lemma F2R_pow_lt : forall m d e, m < 2 ^ d -> 0 <= d -> (F2R m e < pow2 (d + e))%R.
Proof.
  intros m d e H Hd. rewrite Z.add_comm, pow2_add, (pow2_Z d Hd).
  unfold F2R. apply IZR_lt in H. pose proof (pow2_pos e). nra.
Qed.

Lemma F2R_pow_ge : forall m d e, 2 ^ d <= m -> 0 <= d -> (pow2 (d + e) <= F2R m e)%R.
Proof.
  intros m d e H Hd. rewrite Z.add_comm, pow2_add, (pow2_Z d Hd).
  unfold F2R. apply IZR_le in H. pose proof (pow2_pos e). nra.
Qed.

(** Digits *)

Lemma digits2_pos_bounds : forall p,
  2 ^ (Zpos (digits2_pos p) - 1) <= Zpos p < 2 ^ Zpos (digits2_pos p).
Proof.
  induction p as [p IH|p IH|]; simpl digits2_pos.
  - rewrite Pos2Z.inj_succ.
    replace (Z.succ (Zpos (digits2_pos p)) - 1) with (Z.succ (Zpos (digits2_pos p) - 1)) by lia.
    rewrite !Z.pow_succ_r by lia. lia.
  - rewrite Pos2Z.inj_succ.
    replace (Z.succ (Zpos (digits2_pos p)) - 1) with (Z.succ (Zpos (digits2_pos p) - 1)) by lia.
    rewrite !Z.pow_succ_r by lia. lia.
  - simpl. lia.
Qed.

Lemma Zdigits2_bounds : forall m, 0 < m ->
  1 <= Zdigits2 m /\ 2 ^ (Zdigits2 m - 1) <= m < 2 ^ Zdigits2 m.
Proof.
  intros [|p|p] H; try lia. simpl. split; [lia|]. apply digits2_pos_bounds.
Qed.

Lemma Zdigits2_nonneg : forall m, 0 <= Zdigits2 m.
Proof. intros [|p|p]; simpl; lia. Qed.

Lemma Zdigits2_ge : forall m k, 0 <= k -> 2 ^ k <= m -> k + 1 <= Zdigits2 m.
Proof.
  intros m k Hk H.
  assert (Hm : 0 < m) by (pose proof (Z.pow_pos_nonneg 2 k); lia).
  destruct (Zdigits2_bounds m Hm) as [H1 [_ H2]].
  destruct (Z_lt_le_dec (Zdigits2 m) (k + 1)) as [L|L]; [|exact L].
  assert (2 ^ Zdigits2 m <= 2 ^ k) by (apply Z.pow_le_mono_r; lia). lia.
Qed.

Lemma Zdigits2_le : forall m k, 0 <= k -> 0 <= m -> m < 2 ^ k -> Zdigits2 m <= k.
Proof.
  intros m k Hk Hm H.
  destruct (Z.eq_dec m 0) as [->|Hne]; [simpl; lia|].
  destruct (Zdigits2_bounds m ltac:(lia)) as [H1 [H2 _]].
  destruct (Z_lt_le_dec k (Zdigits2 m)) as [L|L]; [|exact L].
  assert (2 ^ k <= 2 ^ (Zdigits2 m - 1)) by (apply Z.pow_le_mono_r; lia). lia.
Qed.

(** Shifting right *)

Lemma shr_1_spec : forall m r s, 0 <= m ->
  shr_1 {| shr_m := m; shr_r := r; shr_s := s |}
  = {| shr_m := m / 2; shr_r := Z.odd m; shr_s := r || s |}.
Proof.
  intros [|p|p] r s H; try lia.
  - reflexivity.
  - destruct p as [p|p|]; simpl shr_1.
    + f_equal. rewrite Pos2Z.inj_xI. symmetry.
      rewrite Z.mul_comm, Z.div_add_l by lia. change (1 / 2) with 0. lia.
    + f_equal. rewrite Pos2Z.inj_xO. symmetry.
      rewrite Z.mul_comm, Z.div_mul by lia. reflexivity.
    + reflexivity.
Qed.

Lemma iter_pos_nat : forall (A : Type) (f : A -> A) (p : positive) (x : A),
  SpecFloat.iter_pos f p x = Nat.iter (Pos.to_nat p) f x.
Proof.
  intros A f. induction p as [p IH|p IH|]; intros x; simpl SpecFloat.iter_pos.
  - rewrite !IH. rewrite Pos2Nat.inj_xI.
    replace (S (2 * Pos.to_nat p)) with (Pos.to_nat p + Pos.to_nat p + 1)%nat by lia.
    rewrite !Nat.iter_add. reflexivity.
  - rewrite !IH. rewrite Pos2Nat.inj_xO.
    replace (2 * Pos.to_nat p)%nat with (Pos.to_nat p + Pos.to_nat p)%nat by lia.
    rewrite Nat.iter_add. reflexivity.
  - reflexivity.
Qed.

Lemma sticky_step : forall m k, 0 <= m -> 0 <= k ->
  Z.testbit m k || negb (m mod 2 ^ k =? 0)
  = negb (m mod 2 ^ (k + 1) =? 0).
Proof.
  intros m k Hm Hk.
  rewrite Z.pow_add_r by lia. change (2 ^ 1) with 2.
  rewrite Z.rem_mul_r by (try lia; apply Z.pow_nonzero; lia).
  pose proof (Z.testbit_spec' m k Hk) as T.
  assert (0 <= m mod 2 ^ k < 2 ^ k) by (apply Z.mod_pos_bound, Z.pow_pos_nonneg; lia).
  assert (0 < 2 ^ k) by (apply Z.pow_pos_nonneg; lia).
  destruct (Z.testbit m k); simpl in T; rewrite <- T.
  - simpl. symmetry. apply negb_true_iff, Z.eqb_neq. lia.
  - simpl. rewrite Z.mul_0_r, Z.add_0_r. reflexivity.
Qed.

Lemma shr_iter_spec : forall n m r s, 0 <= m ->
  Nat.iter n shr_1 {| shr_m := m; shr_r := r; shr_s := s |} = shr_n_spec m r s n.
Proof.
  induction n as [|n IH]; intros m r s Hm.
  - reflexivity.
  - simpl Nat.iter. rewrite IH by exact Hm.
    destruct n as [|k].
    + unfold shr_n_spec. rewrite shr_1_spec by exact Hm.
      change (Z.of_nat 1) with 1. change (Z.of_nat 0) with 0.
      rewrite Z.pow_1_r, Z.bit0_odd. change (2 ^ 0) with 1.
      rewrite Z.mod_1_r. simpl. now rewrite orb_false_r.
    + unfold shr_n_spec at 1.
      rewrite shr_1_spec by (apply Z.div_pos; [lia | apply Z.pow_pos_nonneg; lia]).
      unfold shr_n_spec.
      assert (E1 : m / 2 ^ Z.of_nat (S k) / 2 = m / 2 ^ Z.of_nat (S (S k))).
      { rewrite Z.div_div by (try lia; apply Z.pow_pos_nonneg; lia).
        f_equal. rewrite (Nat2Z.inj_succ (S k)), Z.pow_succ_r by lia. lia. }
      assert (E2 : Z.odd (m / 2 ^ Z.of_nat (S k)) = Z.testbit m (Z.of_nat (S k))).
      { rewrite Z.testbit_odd, Z.shiftr_div_pow2 by lia. reflexivity. }
      assert (E3 : Z.testbit m (Z.of_nat k)
                   || (r || s || negb (m mod 2 ^ Z.of_nat k =? 0))
                   = r || s || negb (m mod 2 ^ Z.of_nat (S k) =? 0)).
      { rewrite (Nat2Z.inj_succ k), <- Z.add_1_r, <- sticky_step by lia.
        destruct (Z.testbit m (Z.of_nat k)), r, s,
          (negb (m mod 2 ^ Z.of_nat k =? 0)); reflexivity. }
      rewrite E1, E2, E3. reflexivity.
Qed.

(** The exponent function of binary64 *)

Lemma fexp_eq : forall e, fexp prec emax e = Z.max (e - 53) (-1074).
Proof. intros e. reflexivity. Qed.

Lemma loc_of_record_of_loc : forall m l,
  loc_of_shr_record (shr_record_of_loc m l) = l.
Proof. intros m [|[| |]]; reflexivity. Qed.

Lemma shr_m_record_of_loc : forall m l, shr_m (shr_record_of_loc m l) = m.
Proof. intros m [|[| |]]; reflexivity. Qed.

Lemma shr_fexp_spec : forall m e l,
  0 <= m -> e <= fexp prec emax (Zdigits2 m + e) ->
  shr_fexp prec emax m e l
  = (Nat.iter (Z.to_nat (fexp prec emax (Zdigits2 m + e) - e)) shr_1
       (shr_record_of_loc m l),
     fexp prec emax (Zdigits2 m + e)).
Proof.
  intros m e l Hm He. unfold shr_fexp, shr.
  destruct (fexp prec emax (Zdigits2 m + e) - e) as [|p|p] eqn:E; try lia.
  - simpl. f_equal. lia.
  - rewrite iter_pos_nat. f_equal. lia.
Qed.

Lemma shr_fexp_noop : forall m e l,
  fexp prec emax (Zdigits2 m + e) <= e ->
  shr_fexp prec emax m e l = (shr_record_of_loc m l, e).
Proof.
  intros m e l He. unfold shr_fexp, shr.
  destruct (fexp prec emax (Zdigits2 m + e) - e) as [|p|p] eqn:E; try lia;
    reflexivity.
Qed.

Lemma iter_shr_m : forall n m l, 0 <= m ->
  shr_m (Nat.iter n shr_1 (shr_record_of_loc m l)) = m / 2 ^ Z.of_nat n.
Proof.
  intros n m l Hm.
  assert (E : shr_record_of_loc m l
              = {| shr_m := m; shr_r := shr_r (shr_record_of_loc m l);
                   shr_s := shr_s (shr_record_of_loc m l) |})
    by (destruct l as [|[| |]]; reflexivity).
  rewrite E, shr_iter_spec by exact Hm.
  destruct n; simpl shr_n_spec; simpl shr_m; [|reflexivity].
  change (Z.of_nat 0) with 0. now rewrite Z.pow_0_r, Z.div_1_r.
Qed.

Lemma iter_shr_loc : forall n m l, 0 <= m ->
  loc_of_shr_record (Nat.iter n shr_1 (shr_record_of_loc m l)) <> loc_Exact ->
  l <> loc_Exact \/ m mod 2 ^ Z.of_nat n <> 0.
Proof.
  intros n m l Hm H.
  assert (E : shr_record_of_loc m l
              = {| shr_m := m; shr_r := shr_r (shr_record_of_loc m l);
                   shr_s := shr_s (shr_record_of_loc m l) |})
    by (destruct l as [|[| |]]; reflexivity).
  destruct n as [|k].
  - simpl in H. rewrite loc_of_record_of_loc in H. now left.
  - rewrite E, shr_iter_spec in H by exact Hm. unfold shr_n_spec in H.
    destruct l as [|c]; [|left; discriminate].
    right. simpl in H.
    pose proof (sticky_step m (Z.of_nat k) Hm ltac:(lia)) as S.
    rewrite Nat2Z.inj_succ, <- Z.add_1_r.
    destruct (Z.testbit m (Z.of_nat k)), (negb (m mod 2 ^ Z.of_nat k =? 0));
      simpl in *; try (exfalso; apply H; reflexivity);
      symmetry in S; apply negb_true_iff, Z.eqb_neq in S; exact S.
Qed.

Lemma round_nearest_even_cases : forall m l,
  round_nearest_even m l = m
  \/ (round_nearest_even m l = m + 1 /\ l <> loc_Exact).
Proof.
  intros m [|[| |]]; simpl.
  - now left.
  - destruct (Z.even m); [now left | right; split; [reflexivity | discriminate]].
  - now left.
  - right. split; [reflexivity | discriminate].
Qed.

Lemma round_aux_shape : forall mx ex lx,
  0 <= mx -> ex <= fexp prec emax (Zdigits2 mx + ex) ->
  let e1 := fexp prec emax (Zdigits2 mx + ex) in
  let mrs := Nat.iter (Z.to_nat (e1 - ex)) shr_1 (shr_record_of_loc mx lx) in
  let m1 := mx / 2 ^ (e1 - ex) in
  let m2 := round_nearest_even m1 (loc_of_shr_record mrs) in
  0 <= m1 < 2 ^ 53 /\ (-1074 < e1 -> 2 ^ 52 <= m1) /\ -1074 <= e1
  /\ binary_round_aux prec emax false mx ex lx = round_result m2 e1.
Proof.
  intros mx ex lx Hmx Hpre e1 mrs m1 m2.
  assert (He1 : e1 = Z.max (Zdigits2 mx + ex - 53) (-1074)) by apply fexp_eq.
  assert (Hn : 0 <= e1 - ex) by (unfold e1; lia).
  assert (Hp : 0 < 2 ^ (e1 - ex)) by (apply Z.pow_pos_nonneg; lia).
  assert (Hm1 : 0 <= m1 < 2 ^ 53).
  { split; [apply Z.div_pos; lia|].
    destruct (Z.eq_dec mx 0) as [->|Hne].
    - unfold m1. rewrite Z.div_0_l by lia. lia.
    - destruct (Zdigits2_bounds mx ltac:(lia)) as (Hd & _ & Hlt).
      apply Z.div_lt_upper_bound; [exact Hp|].
      rewrite <- Z.pow_add_r by lia.
      eapply Z.lt_le_trans; [exact Hlt|].
      apply Z.pow_le_mono_r; lia. }
  assert (Hnorm : -1074 < e1 -> 2 ^ 52 <= m1).
  { intros Hgt.
    destruct (Z.eq_dec mx 0) as [->|Hne].
    - exfalso. simpl in He1. unfold e1 in *. simpl Zdigits2 in *. lia.
    - destruct (Zdigits2_bounds mx ltac:(lia)) as (Hd & Hge & _).
      apply Z.div_le_lower_bound; [exact Hp|].
      rewrite Z.mul_comm, <- Z.pow_add_r by lia.
      eapply Z.le_trans; [|exact Hge].
      apply Z.pow_le_mono_r; lia. }
  split; [exact Hm1|]. split; [exact Hnorm|]. split; [lia|].
  unfold binary_round_aux.
  rewrite shr_fexp_spec by assumption. fold e1. fold mrs.
  assert (Hs : shr_m mrs = m1).
  { unfold mrs. rewrite iter_shr_m by exact Hmx. unfold m1.
    now rewrite Z2Nat.id by lia. }
  rewrite Hs. fold m2.
  assert (Hm2 : m2 = m1 \/ m2 = m1 + 1).
  { unfold m2. destruct (round_nearest_even_cases m1 (loc_of_shr_record mrs))
      as [H|[H _]]; auto. }
  unfold round_result.
  destruct (Z.eqb_spec m2 0) as [E0|E0].
  - rewrite E0. rewrite shr_fexp_noop by (rewrite fexp_eq; simpl Zdigits2; lia).
    reflexivity.
  - destruct (Z.eqb_spec m2 (2 ^ 53)) as [E1|E1].
    + rewrite E1.
      rewrite shr_fexp_spec by (try lia; rewrite fexp_eq; simpl Zdigits2; lia).
      rewrite fexp_eq. change (Zdigits2 (2 ^ 53)) with 54.
      replace (Z.max (54 + e1 - 53) (-1074)) with (e1 + 1) by lia.
      replace (e1 + 1 - e1) with 1 by lia.
      change (shr_m (Nat.iter (Z.to_nat 1) shr_1
                       (shr_record_of_loc (2 ^ 53) loc_Exact)))
        with (Zpos (2 ^ 52)).
      reflexivity.
    + assert (Hlt : 0 < m2 < 2 ^ 53) by lia.
      rewrite shr_fexp_noop.
      2:{ rewrite fexp_eq.
          assert (Zdigits2 m2 <= 53) by (apply Zdigits2_le; lia). lia. }
      simpl shr_m. destruct m2 as [|p|p]; try lia. reflexivity.
Qed.

(** Canonical representations *)

Lemma bounded_facts : forall m e,
  SpecFloat.bounded prec emax m e = true ->
  Zpos m < 2 ^ 53 /\ (-1074 < e -> 2 ^ 52 <= Zpos m) /\ -1074 <= e <= 971.
Proof.
  intros m e H. unfold SpecFloat.bounded, canonical_mantissa in H.
  apply andb_prop in H. destruct H as [H1 H2].
  apply Z.eqb_eq in H1. apply Z.leb_le in H2. rewrite fexp_eq in H1.
  change (emax - prec) with 971 in H2.
  pose proof (digits2_pos_bounds m) as [Hlo Hhi].
  assert (Hd : Zpos (digits2_pos m) <= 53) by lia.
  split; [|split; [|lia]].
  - eapply Z.lt_le_trans; [exact Hhi|]. apply Z.pow_le_mono_r; lia.
  - intros Hgt. assert (Zpos (digits2_pos m) = 53) by lia.
    rewrite H in Hlo. exact Hlo.
Qed.

Lemma bounded_intro : forall m e,
  Zpos m < 2 ^ 53 -> (-1074 < e -> 2 ^ 52 <= Zpos m) -> -1074 <= e <= 971 ->
  SpecFloat.bounded prec emax m e = true.
Proof.
  intros m e H1 H2 H3. unfold SpecFloat.bounded, canonical_mantissa.
  apply andb_true_intro. split; [|apply Z.leb_le; change (emax - prec) with 971; lia].
  apply Z.eqb_eq. rewrite fexp_eq.
  assert (Hd : Zdigits2 (Zpos m) <= 53) by (apply Zdigits2_le; lia).
  simpl Zdigits2 in Hd.
  destruct (Z_lt_le_dec (-1074) e) as [L|L]; [|lia].
  assert (53 <= Zdigits2 (Zpos m)) by (apply (Zdigits2_ge _ 52); [lia | auto]).
  simpl Zdigits2 in H. lia.
Qed.

Lemma lattice_up : forall m1 e1 mB eB,
  0 <= m1 -> (-1074 < e1 -> 2 ^ 52 <= m1) -> -1074 <= e1 ->
  SpecFloat.bounded prec emax mB eB = true ->
  (F2R m1 e1 < F2R (Zpos mB) eB)%R ->
  (F2R (m1 + 1) e1 <= F2R (Zpos mB) eB)%R.
Proof.
  intros m1 e1 mB eB Hm Hnorm He HB Hlt.
  destruct (bounded_facts _ _ HB) as (B1 & B2 & B3).
  destruct (Z_le_gt_dec e1 eB) as [L|L].
  - replace eB with (e1 + (eB - e1)) in * by lia.
    rewrite <- F2R_shift in * by lia.
    apply F2R_lt_inv in Hlt. apply F2R_le. lia.
  - exfalso.
    pose proof (F2R_pow_ge m1 52 e1 (Hnorm ltac:(lia)) ltac:(lia)).
    pose proof (F2R_pow_lt (Zpos mB) 53 eB B1 ltac:(lia)).
    pose proof (pow2_le (53 + eB) (52 + e1) ltac:(lia)). lra.
Qed.

Lemma lattice_down : forall m1 e1 mB eB,
  0 <= m1 -> (-1074 < e1 -> 2 ^ 52 <= m1) -> -1074 <= e1 ->
  SpecFloat.bounded prec emax mB eB = true ->
  (F2R (Zpos mB) eB < F2R (m1 + 1) e1)%R ->
  (F2R (Zpos mB) eB <= F2R m1 e1)%R.
Proof.
  intros m1 e1 mB eB Hm Hnorm He HB Hlt.
  destruct (bounded_facts _ _ HB) as (B1 & B2 & B3).
  destruct (Z_le_gt_dec e1 eB) as [L|L].
  - replace eB with (e1 + (eB - e1)) in * by lia.
    rewrite <- F2R_shift in * by lia.
    apply F2R_lt_inv in Hlt. apply F2R_le. lia.
  - pose proof (F2R_pow_ge m1 52 e1 (Hnorm ltac:(lia)) ltac:(lia)).
    pose proof (F2R_pow_lt (Zpos mB) 53 eB B1 ltac:(lia)).
    pose proof (pow2_le (53 + eB) (52 + e1) ltac:(lia)). lra.
Qed.

(** Floor division against the scale *)

Lemma F2R_floor_k : forall mx ex k, 0 <= k -> 0 <= mx ->
  (F2R (mx / 2 ^ k) (ex + k) <= F2R mx ex)%R
  /\ (F2R mx ex < F2R (mx / 2 ^ k + 1) (ex + k))%R
  /\ (mx mod 2 ^ k <> 0 -> (F2R (mx / 2 ^ k) (ex + k) < F2R mx ex)%R).
Proof.
  intros mx ex k Hk Hm.
  assert (Hp : 0 < 2 ^ k) by (apply Z.pow_pos_nonneg; lia).
  pose proof (Z.div_mod mx (2 ^ k) ltac:(lia)) as D.
  pose proof (Z.mod_pos_bound mx (2 ^ k) Hp) as M.
  rewrite <- !F2R_shift by lia.
  split; [apply F2R_le; lia|]. split; [apply F2R_lt; lia|].
  intros Hne. apply F2R_lt. lia.
Qed.

Lemma F2R_floor : forall mx ex e1, ex <= e1 -> 0 <= mx ->
  (F2R (mx / 2 ^ (e1 - ex)) e1 <= F2R mx ex)%R
  /\ (F2R mx ex < F2R (mx / 2 ^ (e1 - ex) + 1) e1)%R
  /\ (mx mod 2 ^ (e1 - ex) <> 0 -> (F2R (mx / 2 ^ (e1 - ex)) e1 < F2R mx ex)%R).
Proof.
  intros mx ex e1 He Hm.
  pose proof (F2R_floor_k mx ex (e1 - ex) ltac:(lia) Hm) as H.
  replace (ex + (e1 - ex)) with e1 in H by lia. exact H.
Qed.

Lemma round_result_value : forall m2 e1 m e,
  0 <= m2 -> round_result m2 e1 = S754_finite false m e ->
  F2R (Zpos m) e = F2R m2 e1.
Proof.
  intros m2 e1 m e Hm H. unfold round_result in H.
  destruct (Z.eqb_spec m2 0); [discriminate|].
  destruct (Z.eqb_spec m2 (2 ^ 53)) as [E|E].
  - destruct (e1 + 1 <=? 971); [|discriminate]. inversion H; subst.
    rewrite <- F2R_shift by lia. reflexivity.
  - destruct (e1 <=? 971); [|discriminate]. inversion H; subst.
    rewrite Z2Pos.id by lia. reflexivity.
Qed.

Lemma round_result_valid : forall m1 m2 e1,
  0 <= m1 < 2 ^ 53 -> (-1074 < e1 -> 2 ^ 52 <= m1) -> -1074 <= e1 ->
  m2 = m1 \/ m2 = m1 + 1 ->
  valid_binary (round_result m2 e1) = true.
Proof.
  intros m1 m2 e1 Hm1 Hnorm He Hm2. unfold round_result.
  destruct (Z.eqb_spec m2 0); [reflexivity|].
  destruct (Z.eqb_spec m2 (2 ^ 53)) as [E|E].
  - destruct (Z.leb_spec (e1 + 1) 971); [|reflexivity].
    simpl. apply bounded_intro; simpl; lia.
  - destruct (Z.leb_spec e1 971); [|reflexivity].
    simpl. apply bounded_intro; rewrite ?Z2Pos.id by lia; try lia;
      intros Hgt; specialize (Hnorm Hgt); lia.
Qed.

Lemma F2R_pos_lt_top : forall mB eB,
  SpecFloat.bounded prec emax mB eB = true ->
  (0 < F2R (Zpos mB) eB < pow2 1024)%R.
Proof.
  intros mB eB HB. destruct (bounded_facts _ _ HB) as (B1 & B2 & B3).
  split.
  - unfold F2R. pose proof (pow2_pos eB).
    assert (0 < IZR (Zpos mB))%R by (apply IZR_lt; lia). nra.
  - pose proof (F2R_pow_lt (Zpos mB) 53 eB B1 ltac:(lia)).
    pose proof (pow2_le (53 + eB) 1024 ltac:(lia)). lra.
Qed.

Lemma round_result_bounded : forall m1 m2 e1 mB eB,
  0 <= m1 < 2 ^ 53 -> (-1074 < e1 -> 2 ^ 52 <= m1) -> -1074 <= e1 ->
  m2 = m1 \/ m2 = m1 + 1 ->
  SpecFloat.bounded prec emax mB eB = true ->
  (F2R m2 e1 <= F2R (Zpos mB) eB)%R ->
  valid_binary (round_result m2 e1) = true
  /\ nonneg_fz (round_result m2 e1)
  /\ (SF2R (round_result m2 e1) <= F2R (Zpos mB) eB)%R.
Proof.
  intros m1 m2 e1 mB eB Hm1 Hnorm He Hm2 HB Hle.
  split; [eapply round_result_valid; eassumption|].
  destruct (F2R_pos_lt_top _ _ HB) as [Bpos Btop].
  assert (Hfin : forall m e, round_result m2 e1 = S754_finite false m e ->
                 (SF2R (round_result m2 e1) <= F2R (Zpos mB) eB)%R).
  { intros m e E. rewrite E. simpl.
    rewrite (round_result_value m2 e1 m e ltac:(lia) E). exact Hle. }
  unfold round_result in *.
  destruct (Z.eqb_spec m2 0) as [E0|E0].
  - split; [now left | simpl; lra].
  - destruct (Z.eqb_spec m2 (2 ^ 53)) as [E1|E1].
    + destruct (Z.leb_spec (e1 + 1) 971) as [L|L].
      * split; [right; eauto | eapply Hfin; reflexivity].
      * exfalso. rewrite E1 in Hle.
        pose proof (F2R_pow_ge (2 ^ 53) 53 e1 ltac:(lia) ltac:(lia)).
        pose proof (pow2_le 1024 (53 + e1) ltac:(lia)). lra.
    + destruct (Z.leb_spec e1 971) as [L|L].
      * split; [right; eauto | eapply Hfin; reflexivity].
      * exfalso. specialize (Hnorm ltac:(lia)).
        pose proof (F2R_pow_ge m2 52 e1 ltac:(lia) ltac:(lia)).
        pose proof (pow2_le 1024 (52 + e1) ltac:(lia)). lra.
Qed.

Lemma round_aux_upper : forall mx ex lx mB eB (x : R),
  0 <= mx -> ex <= fexp prec emax (Zdigits2 mx + ex) ->
  (F2R mx ex <= x)%R -> (lx <> loc_Exact -> (F2R mx ex < x)%R) ->
  (x <= F2R (Zpos mB) eB)%R ->
  SpecFloat.bounded prec emax mB eB = true ->
  valid_binary (binary_round_aux prec emax false mx ex lx) = true
  /\ nonneg_fz (binary_round_aux prec emax false mx ex lx)
  /\ (SF2R (binary_round_aux prec emax false mx ex lx) <= F2R (Zpos mB) eB)%R.
Proof.
  intros mx ex lx mB eB x Hmx Hpre Hx Hlx HxB HB.
  destruct (round_aux_shape mx ex lx Hmx Hpre) as (Hm1 & Hnorm & He1 & Hr).
  rewrite Hr. clear Hr.
  set (e1 := fexp prec emax (Zdigits2 mx + ex)) in *.
  set (mrs := Nat.iter (Z.to_nat (e1 - ex)) shr_1 (shr_record_of_loc mx lx)) in *.
  set (m1 := mx / 2 ^ (e1 - ex)) in *.
  destruct (F2R_floor mx ex e1 Hpre Hmx) as (Fa & Fb & Fc). fold m1 in Fa, Fb, Fc.
  destruct (round_nearest_even_cases m1 (loc_of_shr_record mrs)) as [E|[E Hloc]].
  - rewrite E. apply (round_result_bounded m1); auto. lra.
  - rewrite E. apply (round_result_bounded m1); auto.
    apply lattice_up; try assumption; try lia.
    apply iter_shr_loc in Hloc; [|exact Hmx].
    rewrite Z2Nat.id in Hloc by lia.
    destruct Hloc as [Hl|Hrem].
    + specialize (Hlx Hl). lra.
    + specialize (Fc Hrem). lra.
Qed.

Lemma round_aux_lower : forall mx ex mB eB,
  0 <= mx -> ex <= fexp prec emax (Zdigits2 mx + ex) ->
  (F2R (Zpos mB) eB <= F2R mx ex)%R ->
  SpecFloat.bounded prec emax mB eB = true ->
  valid_binary (binary_round_aux prec emax false mx ex loc_Exact) = true
  /\ (binary_round_aux prec emax false mx ex loc_Exact = S754_infinity false
      \/ exists m e,
           binary_round_aux prec emax false mx ex loc_Exact = S754_finite false m e
           /\ (F2R (Zpos mB) eB <= F2R (Zpos m) e)%R).
Proof.
  intros mx ex mB eB Hmx Hpre HB Hbd.
  destruct (round_aux_shape mx ex loc_Exact Hmx Hpre) as (Hm1 & Hnorm & He1 & Hr).
  rewrite Hr. clear Hr.
  set (e1 := fexp prec emax (Zdigits2 mx + ex)) in *.
  set (mrs := Nat.iter (Z.to_nat (e1 - ex)) shr_1
                (shr_record_of_loc mx loc_Exact)) in *.
  set (m1 := mx / 2 ^ (e1 - ex)) in *.
  set (m2 := round_nearest_even m1 (loc_of_shr_record mrs)).
  assert (Hm2 : m2 = m1 \/ m2 = m1 + 1).
  { unfold m2. destruct (round_nearest_even_cases m1 (loc_of_shr_record mrs))
      as [E|[E _]]; auto. }
  split; [eapply round_result_valid; eassumption|].
  destruct (F2R_floor mx ex e1 Hpre Hmx) as (Fa & Fb & Fc). fold m1 in Fa, Fb, Fc.
  assert (Hlow : (F2R (Zpos mB) eB <= F2R m1 e1)%R)
    by (apply lattice_down; try assumption; try lia; lra).
  assert (Hlow2 : (F2R (Zpos mB) eB <= F2R m2 e1)%R).
  { pose proof (F2R_le m1 m2 e1 ltac:(lia)). lra. }
  destruct (F2R_pos_lt_top _ _ Hbd) as [Bpos _].
  assert (Hpos : 0 < m2).
  { destruct (Z_lt_le_dec 0 m2) as [L|L]; [exact L|].
    pose proof (F2R_le m2 0 e1 L) as H0. unfold F2R at 2 in H0.
    rewrite Rmult_0_l in H0. lra. }
  unfold round_result.
  destruct (Z.eqb_spec m2 0) as [E0|E0]; [lia|].
  destruct (Z.eqb_spec m2 (2 ^ 53)) as [E1|E1].
  - destruct (Z.leb_spec (e1 + 1) 971) as [L|L]; [|now left].
    right. do 2 eexists. split; [reflexivity|].
    rewrite <- F2R_shift by lia. rewrite E1 in Hlow2. exact Hlow2.
  - destruct (Z.leb_spec e1 971) as [L|L]; [|now left].
    right. do 2 eexists. split; [reflexivity|].
    rewrite Z2Pos.id by lia. exact Hlow2.
Qed.

(** Aligning to the left *)

Lemma pos_iter_xO : forall m d, Zpos (Pos.iter xO m d) = Zpos m * 2 ^ Zpos d.
Proof.
  intros m d. induction d as [|d IH] using Pos.peano_ind.
  - simpl. lia.
  - rewrite Pos.iter_succ, Pos2Z.inj_xO, IH, Pos2Z.inj_succ, Z.pow_succ_r by lia.
    lia.
Qed.

Lemma Zdigits2_shift : forall m k, 0 < m -> 0 <= k ->
  Zdigits2 (m * 2 ^ k) = Zdigits2 m + k.
Proof.
  intros m k Hm Hk.
  destruct (Zdigits2_bounds m Hm) as (Hd & Hlo & Hhi).
  assert (Hp : 0 < 2 ^ k) by (apply Z.pow_pos_nonneg; lia).
  apply Z.le_antisymm.
  - apply Zdigits2_le; [lia | nia |].
    rewrite Z.pow_add_r by lia. nia.
  - replace (Zdigits2 m + k) with (Zdigits2 m - 1 + k + 1) by lia.
    apply Zdigits2_ge; [lia|]. rewrite Z.pow_add_r by lia. nia.
Qed.

Lemma shl_align_spec : forall m e e0,
  F2R (Zpos (fst (shl_align m e e0))) (snd (shl_align m e e0)) = F2R (Zpos m) e
  /\ snd (shl_align m e e0) = Z.min e e0
  /\ Zdigits2 (Zpos (fst (shl_align m e e0))) + snd (shl_align m e e0)
     = Zdigits2 (Zpos m) + e.
Proof.
  intros m e e0. unfold shl_align.
  destruct (e0 - e) as [|p|p] eqn:E; simpl fst; simpl snd.
  - repeat split; lia.
  - repeat split; lia.
  - rewrite pos_iter_xO.
    assert (He : e = e0 + Zpos p) by lia.
    split; [|split].
    + rewrite F2R_shift by lia. f_equal. lia.
    + lia.
    + rewrite Zdigits2_shift by lia. lia.
Qed.

Lemma binary_round_pre : forall M e,
  let mz := fst (shl_align M e (fexp prec emax (Zpos (digits2_pos M) + e))) in
  let ez := snd (shl_align M e (fexp prec emax (Zpos (digits2_pos M) + e))) in
  binary_round prec emax false M e
  = binary_round_aux prec emax false (Zpos mz) ez loc_Exact
  /\ F2R (Zpos mz) ez = F2R (Zpos M) e
  /\ ez <= fexp prec emax (Zdigits2 (Zpos mz) + ez).
Proof.
  intros M e mz ez.
  destruct (shl_align_spec M e (fexp prec emax (Zpos (digits2_pos M) + e)))
    as (H1 & H2 & H3).
  fold mz in H1, H2, H3. fold ez in H1, H2, H3.
  split; [|split; [exact H1|]].
  - unfold binary_round, mz, ez.
    destruct (shl_align M e (fexp prec emax (Zpos (digits2_pos M) + e))).
    reflexivity.
  - rewrite H3. simpl Zdigits2. lia.
Qed.

Lemma binary_round_upper : forall M e mB eB,
  (F2R (Zpos M) e <= F2R (Zpos mB) eB)%R ->
  SpecFloat.bounded prec emax mB eB = true ->
  valid_binary (binary_round prec emax false M e) = true
  /\ nonneg_fz (binary_round prec emax false M e)
  /\ (SF2R (binary_round prec emax false M e) <= F2R (Zpos mB) eB)%R.
Proof.
  intros M e mB eB Hle HB.
  destruct (binary_round_pre M e) as (-> & Hv & Hpre).
  apply (round_aux_upper _ _ _ _ _ (F2R (Zpos M) e)); try assumption; try lia.
  - rewrite Hv. lra.
  - intros H. now elim H.
Qed.

Lemma binary_round_lower : forall M e mB eB,
  (F2R (Zpos mB) eB <= F2R (Zpos M) e)%R ->
  SpecFloat.bounded prec emax mB eB = true ->
  valid_binary (binary_round prec emax false M e) = true
  /\ (binary_round prec emax false M e = S754_infinity false
      \/ exists m e',
           binary_round prec emax false M e = S754_finite false m e'
           /\ (F2R (Zpos mB) eB <= F2R (Zpos m) e')%R).
Proof.
  intros M e mB eB Hle HB.
  destruct (binary_round_pre M e) as (-> & Hv & Hpre).
  apply round_aux_lower; try assumption; try lia.
  rewrite Hv. exact Hle.
Qed.

(** Operations on non-negative numbers *)

Lemma SF2R_finite : forall m e, SF2R (S754_finite false m e) = F2R (Zpos m) e.
Proof. reflexivity. Qed.

Lemma F2R_nonneg : forall m e, 0 <= m -> (0 <= F2R m e)%R.
Proof.
  intros m e H. unfold F2R. apply IZR_le in H. pose proof (pow2_pos e). nra.
Qed.

Lemma F2R_pos : forall m e, (0 < F2R (Zpos m) e)%R.
Proof.
  intros m e. unfold F2R. pose proof (pow2_pos e).
  assert (0 < IZR (Zpos m))%R by (apply IZR_lt; lia). nra.
Qed.

Lemma nonneg_fz_nonneg : forall r, nonneg_fz r -> (0 <= SF2R r)%R.
Proof.
  intros r [->|(m & e & ->)]; simpl; [lra|]. apply F2R_nonneg. lia.
Qed.

Lemma F2R_add : forall a b e, F2R (a + b) e = (F2R a e + F2R b e)%R.
Proof. intros. unfold F2R. rewrite plus_IZR. ring. Qed.

Lemma F2R_mul : forall a b ea eb,
  F2R (a * b) (ea + eb) = (F2R a ea * F2R b eb)%R.
Proof. intros. unfold F2R. rewrite mult_IZR, pow2_add. ring. Qed.

Lemma SFadd_upper : forall a b mB eB,
  nonneg_fz a -> nonneg_fz b ->
  valid_binary a = true -> valid_binary b = true ->
  (SF2R a + SF2R b <= F2R (Zpos mB) eB)%R ->
  SpecFloat.bounded prec emax mB eB = true ->
  valid_binary (SFadd prec emax a b) = true
  /\ nonneg_fz (SFadd prec emax a b)
  /\ (SF2R (SFadd prec emax a b) <= F2R (Zpos mB) eB)%R.
Proof.
  intros a b mB eB Ha Hb Va Vb Hle HB.
  destruct Ha as [->|(ma & ea & ->)]; destruct Hb as [->|(mb & eb & ->)].
  - simpl. repeat split; [now left | pose proof (F2R_pos mB eB); lra].
  - simpl SFadd. simpl in Hle. repeat split; [exact Vb | right; eauto | simpl; lra].
  - simpl SFadd. simpl in Hle. repeat split; [exact Va | right; eauto | simpl; lra].
  - unfold SFadd. cbv zeta. unfold cond_Zopp.
    destruct (shl_align_spec ma ea (Z.min ea eb)) as (A1 & A2 & _).
    destruct (shl_align_spec mb eb (Z.min ea eb)) as (B1 & B2 & _).
    replace (Z.min ea (Z.min ea eb)) with (Z.min ea eb) in A2 by lia.
    replace (Z.min eb (Z.min ea eb)) with (Z.min ea eb) in B2 by lia.
    rewrite A2 in A1. rewrite B2 in B1.
    change (Zpos (fst (shl_align ma ea (Z.min ea eb)))
            + Zpos (fst (shl_align mb eb (Z.min ea eb))))
      with (Zpos (fst (shl_align ma ea (Z.min ea eb))
                  + fst (shl_align mb eb (Z.min ea eb)))).
    unfold binary_normalize.
    apply binary_round_upper; [|exact HB].
    rewrite Pos2Z.inj_add, F2R_add, A1, B1. simpl in Hle. exact Hle.
Qed.

Lemma SFmul_upper : forall a mb eb mB eB,
  nonneg_fz a -> 2 ^ 52 <= Zpos mb ->
  (SF2R a * F2R (Zpos mb) eb <= F2R (Zpos mB) eB)%R ->
  SpecFloat.bounded prec emax mB eB = true ->
  valid_binary (SFmul prec emax a (S754_finite false mb eb)) = true
  /\ nonneg_fz (SFmul prec emax a (S754_finite false mb eb))
  /\ (SF2R (SFmul prec emax a (S754_finite false mb eb)) <= F2R (Zpos mB) eB)%R.
Proof.
  intros a mb eb mB eB Ha Hmb Hle HB.
  destruct Ha as [->|(ma & ea & ->)].
  - simpl. repeat split; [now left | pose proof (F2R_pos mB eB); lra].
  - simpl SFmul. simpl in Hle.
    apply (round_aux_upper _ _ _ _ _ (F2R (Zpos (ma * mb)) (ea + eb)));
      try assumption; try lia; try lra.
    + rewrite fexp_eq.
      assert (53 <= Zdigits2 (Zpos (ma * mb))).
      { apply (Zdigits2_ge _ 52); [lia|]. rewrite Pos2Z.inj_mul. nia. }
      lia.
    + intros H. now elim H.
    + rewrite Pos2Z.inj_mul, F2R_mul. exact Hle.
Qed.

Lemma new_location_inexact : forall n r,
  new_location n r <> loc_Exact -> r <> 0.
Proof.
  intros n r H E. apply H. subst r.
  unfold new_location, new_location_even, new_location_odd.
  destruct (Z.even n); reflexivity.
Qed.

Lemma SFdiv_core_spec : forall ma ea mb eb,
  let q := fst (fst (SFdiv_core_binary prec emax (Zpos ma) ea (Zpos mb) eb)) in
  let e' := snd (fst (SFdiv_core_binary prec emax (Zpos ma) ea (Zpos mb) eb)) in
  let l := snd (SFdiv_core_binary prec emax (Zpos ma) ea (Zpos mb) eb) in
  0 <= q
  /\ e' <= fexp prec emax (Zdigits2 q + e')
  /\ (F2R q e' * F2R (Zpos mb) eb <= F2R (Zpos ma) ea)%R
  /\ (l <> loc_Exact -> (F2R q e' * F2R (Zpos mb) eb < F2R (Zpos ma) ea)%R).
Proof.
  intros ma ea mb eb. unfold SFdiv_core_binary.
  set (d1 := Zdigits2 (Zpos ma)). set (d2 := Zdigits2 (Zpos mb)).
  set (e0 := Z.min (fexp prec emax (d1 + ea - (d2 + eb))) (ea - eb)).
  set (s := ea - eb - e0).
  set (m' := match s with
             | 0 => Zpos ma
             | Zpos _ => Z.shiftl (Zpos ma) s
             | Zneg _ => 0
             end).
  assert (Hs : 0 <= s) by (unfold s, e0; lia).
  assert (Hm' : m' = Zpos ma * 2 ^ s).
  { unfold m'. destruct s as [|p|p] eqn:E; try lia.
    rewrite Z.shiftl_mul_pow2 by lia. reflexivity. }
  pose proof (Z_div_mod m' (Zpos mb) ltac:(lia)) as D.
  destruct (Z.div_eucl m' (Zpos mb)) as [q r]. cbv zeta. simpl fst. simpl snd.
  destruct D as [D1 D2].
  assert (Hp : 0 < 2 ^ s) by (apply Z.pow_pos_nonneg; lia).
  assert (Hq : 0 <= q) by nia.
  assert (Hea : ea = s + (e0 + eb)) by (unfold s; lia).
  assert (Hv : F2R (Zpos ma) ea = F2R m' (e0 + eb)).
  { rewrite Hm', F2R_shift by lia. f_equal. lia. }
  split; [exact Hq|]. split; [|split].
  - rewrite fexp_eq.
    destruct (Z_le_gt_dec e0 (-1074)) as [L|L]; [lia|].
    assert (HD : e0 + 53 <= d1 + ea - (d2 + eb)).
    { unfold e0 in L |- *. rewrite fexp_eq in *. lia. }
    destruct (Zdigits2_bounds (Zpos ma) ltac:(lia)) as (Hd1 & Ha & _).
    destruct (Zdigits2_bounds (Zpos mb) ltac:(lia)) as (Hd2 & _ & Hb).
    fold d1 in Ha, Hd1. fold d2 in Hb, Hd2.
    assert (Hk : 0 <= d1 - 1 + s - d2) by lia.
    assert (Hq2 : 2 ^ (d1 - 1 + s - d2) <= q).
    { assert (Hpk : 0 < 2 ^ (d1 - 1 + s - d2)) by (apply Z.pow_pos_nonneg; lia).
      assert (E1 : 2 ^ (d1 - 1 + s - d2) * 2 ^ d2 = 2 ^ (d1 - 1) * 2 ^ s).
      { rewrite <- !Z.pow_add_r by lia. f_equal. lia. }
      assert (2 ^ (d1 - 1 + s - d2) * Zpos mb <= m') by (rewrite Hm'; nia).
      nia. }
    assert (d1 - 1 + s - d2 + 1 <= Zdigits2 q) by (apply Zdigits2_ge; assumption).
    lia.
  - rewrite Hv, <- F2R_mul. apply F2R_le. nia.
  - intros Hl. apply new_location_inexact in Hl.
    rewrite Hv, <- F2R_mul. apply F2R_lt. nia.
Qed.

Lemma SFdiv_upper : forall a mb eb mB eB,
  nonneg_fz a ->
  (SF2R a <= F2R (Zpos mB) eB * F2R (Zpos mb) eb)%R ->
  SpecFloat.bounded prec emax mB eB = true ->
  valid_binary (SFdiv prec emax a (S754_finite false mb eb)) = true
  /\ nonneg_fz (SFdiv prec emax a (S754_finite false mb eb))
  /\ (SF2R (SFdiv prec emax a (S754_finite false mb eb)) <= F2R (Zpos mB) eB)%R.
Proof.
  intros a mb eb mB eB Ha Hle HB.
  destruct Ha as [->|(ma & ea & ->)].
  - simpl. repeat split; [now left | pose proof (F2R_pos mB eB); lra].
  - unfold SFdiv. simpl xorb. simpl in Hle.
    pose proof (SFdiv_core_spec ma ea mb eb) as S.
    destruct (SFdiv_core_binary prec emax (Zpos ma) ea (Zpos mb) eb)
      as [[q e'] l].
    simpl in S. destruct S as (Hq & Hpre & Hv & Hs).
    pose proof (F2R_pos mb eb) as Pb.
    assert (Ediv : (F2R (Zpos ma) ea
                    = F2R (Zpos ma) ea / F2R (Zpos mb) eb * F2R (Zpos mb) eb)%R)
      by (field; lra).
    apply (round_aux_upper _ _ _ _ _ (F2R (Zpos ma) ea / F2R (Zpos mb) eb)%R);
      try assumption.
    + nra.
    + intros Hl. specialize (Hs Hl). nra.
    + nra.
Qed.

(** Comparison against a canonical bound *)

Lemma SFleb_upper : forall a mB eB,
  nonneg_fz a -> valid_binary a = true ->
  SpecFloat.bounded prec emax mB eB = true ->
  (SF2R a <= F2R (Zpos mB) eB)%R ->
  SFleb a (S754_finite false mB eB) = true.
Proof.
  intros a mB eB Ha Va HB Hle.
  destruct Ha as [->|(ma & ea & ->)]; [reflexivity|].
  simpl in Va, Hle.
  destruct (bounded_facts _ _ Va) as (A1 & A2 & A3).
  destruct (bounded_facts _ _ HB) as (B1 & B2 & B3).
  unfold SFleb, SFcompare.
  destruct (Z.compare_spec ea eB) as [E|E|E].
  - subst ea. apply F2R_le_inv in Hle.
    change (Pos.compare_cont Eq ma mB) with (Pos.compare ma mB).
    destruct (Pos.compare_spec ma mB); try reflexivity. lia.
  - reflexivity.
  - exfalso.
    pose proof (F2R_pow_ge (Zpos ma) 52 ea (A2 ltac:(lia)) ltac:(lia)).
    pose proof (F2R_pow_lt (Zpos mB) 53 eB B1 ltac:(lia)).
    pose proof (pow2_le (53 + eB) (52 + ea) ltac:(lia)). lra.
Qed.

Lemma SFleb_zero : forall a,
  nonneg_fz a -> SFleb (S754_zero false) a = true.
Proof.
  intros a [->|(ma & ea & ->)]; reflexivity.
Qed.

(** Integers up to 2^53 are binary64 numbers *)

Lemma small_int_canonical : forall j, 1 <= j <= 2 ^ 53 ->
  exists mB eB, SpecFloat.bounded prec emax mB eB = true
                /\ F2R (Zpos mB) eB = IZR j.
Proof.
  intros j Hj.
  destruct (Z.eq_dec j (2 ^ 53)) as [->|Hne].
  - exists (2 ^ 52)%positive, 1. split; [reflexivity|].
    unfold F2R. rewrite (pow2_Z 1) by lia. rewrite <- mult_IZR. reflexivity.
  - destruct (Zdigits2_bounds j ltac:(lia)) as (Hd & Hlo & Hhi).
    assert (Hd53 : Zdigits2 j <= 53) by (apply Zdigits2_le; lia).
    assert (Hp : 0 < 2 ^ (53 - Zdigits2 j)) by (apply Z.pow_pos_nonneg; lia).
    exists (Z.to_pos (j * 2 ^ (53 - Zdigits2 j))), (Zdigits2 j - 53).
    assert (E52 : 2 ^ (Zdigits2 j - 1) * 2 ^ (53 - Zdigits2 j) = 2 ^ 52)
      by (rewrite <- Z.pow_add_r by lia; f_equal; lia).
    assert (E53 : 2 ^ Zdigits2 j * 2 ^ (53 - Zdigits2 j) = 2 ^ 53)
      by (rewrite <- Z.pow_add_r by lia; f_equal; lia).
    split.
    + apply bounded_intro; rewrite ?Z2Pos.id by nia; try nia; try lia.
    + rewrite Z2Pos.id by nia. rewrite F2R_shift by lia.
      replace (Zdigits2 j - 53 + (53 - Zdigits2 j)) with 0 by lia.
      unfold F2R. rewrite (pow2_Z 0) by lia. rewrite <- mult_IZR. f_equal. lia.
Qed.

(** At the top of the integers: 2^53 plus at most 1 is rounded to 2^53 *)

Lemma digits_of_value : forall m e d,
  (pow2 (d - 1) <= F2R (Zpos m) e < pow2 d)%R -> Zdigits2 (Zpos m) + e = d.
Proof.
  intros m e d [Hlo Hhi].
  destruct (Zdigits2_bounds (Zpos m) ltac:(lia)) as (Hd & Mlo & Mhi).
  pose proof (F2R_pow_ge (Zpos m) (Zdigits2 (Zpos m) - 1) e Mlo ltac:(lia)) as G.
  pose proof (F2R_pow_lt (Zpos m) (Zdigits2 (Zpos m)) e Mhi ltac:(lia)) as L.
  destruct (Z.lt_trichotomy (Zdigits2 (Zpos m) + e) d) as [C|[C|C]]; [|exact C|].
  - pose proof (pow2_le (Zdigits2 (Zpos m) + e) (d - 1) ltac:(lia)). lra.
  - pose proof (pow2_le d (Zdigits2 (Zpos m) - 1 + e) ltac:(lia)). lra.
Qed.

Lemma iter_shr_loc_Gt : forall n m, 0 <= m ->
  loc_of_shr_record (Nat.iter n shr_1 (shr_record_of_loc m loc_Exact))
  = loc_Inexact Gt ->
  (1 <= n)%nat /\ 2 ^ (Z.of_nat n - 1) < m mod 2 ^ Z.of_nat n.
Proof.
  intros n m Hm H. destruct n as [|k]; [discriminate|].
  split; [lia|].
  change (shr_record_of_loc m loc_Exact)
    with {| shr_m := m; shr_r := false; shr_s := false |} in H.
  rewrite shr_iter_spec in H by exact Hm. unfold shr_n_spec in H. simpl in H.
  replace (Z.of_nat (S k) - 1) with (Z.of_nat k) by lia.
  rewrite Nat2Z.inj_succ, Z.pow_succ_r, Z.mul_comm by lia.
  rewrite Z.rem_mul_r by (try lia; apply Z.pow_nonzero; lia).
  pose proof (Z.testbit_spec' m (Z.of_nat k) ltac:(lia)) as T.
  assert (Hb : 0 <= m mod 2 ^ Z.of_nat k < 2 ^ Z.of_nat k)
    by (apply Z.mod_pos_bound, Z.pow_pos_nonneg; lia).
  destruct (Z.testbit m (Z.of_nat k)); simpl in T; rewrite <- T.
  - destruct (Z.eqb_spec (m mod 2 ^ Z.of_nat k) 0); simpl in H;
      [discriminate | lia].
  - destruct (Z.eqb_spec (m mod 2 ^ Z.of_nat k) 0); simpl in H; discriminate.
Qed.

Lemma near_top : forall m e,
  SpecFloat.bounded prec emax m e = true ->
  (IZR (2 ^ 53 - 1) < F2R (Zpos m) e <= IZR (2 ^ 53))%R ->
  m = (2 ^ 52)%positive /\ e = 1.
Proof.
  intros m e HB [Hlo Hhi].
  destruct (bounded_facts _ _ HB) as (B1 & B2 & B3).
  rewrite <- (pow2_Z 53) in Hhi by lia.
  destruct (Z_le_gt_dec e 0) as [L|L].
  - exfalso. pose proof (pow2_le e 0 L) as P. rewrite (pow2_Z 0) in P by lia.
    change (2 ^ 0) with 1 in P.
    assert (IZR (Zpos m) <= IZR (2 ^ 53 - 1))%R by (apply IZR_le; lia).
    assert (0 < IZR (Zpos m))%R by (apply IZR_lt; lia).
    pose proof (pow2_pos e). unfold F2R in Hlo. nra.
  - pose proof (F2R_pow_ge (Zpos m) 52 e (B2 ltac:(lia)) ltac:(lia)) as G.
    destruct (Z_le_gt_dec e 1) as [L1|L1].
    + assert (e = 1) by lia. subst e. split; [|reflexivity].
      replace 53 with (52 + 1) in Hhi by lia.
      assert (Hle : (F2R (Zpos m) 1 <= F2R (2 ^ 52) 1)%R).
      { pose proof (F2R_pow_ge (2 ^ 52) 52 1 ltac:(lia) ltac:(lia)).
        pose proof (F2R_pow_lt (2 ^ 52) 53 1 ltac:(lia) ltac:(lia)).
        unfold F2R at 2. rewrite <- (pow2_Z 52) by lia. rewrite <- pow2_add.
        exact Hhi. }
      apply F2R_le_inv in Hle. specialize (B2 ltac:(lia)). lia.
    + exfalso. pose proof (pow2_lt 53 (52 + e) ltac:(lia)). lra.
Qed.

Lemma F2R_0 : forall m, F2R m 0 = IZR m.
Proof.
  intros m. unfold F2R. rewrite (pow2_Z 0) by lia.
  change (2 ^ 0) with 1. apply Rmult_1_r.
Qed.

Lemma F2R_1 : forall m, F2R m 1 = IZR (m * 2).
Proof.
  intros m. unfold F2R. rewrite (pow2_Z 1) by lia. now rewrite mult_IZR.
Qed.

Lemma round_at_top : forall mz ez,
  ez <= fexp prec emax (Zdigits2 (Zpos mz) + ez) ->
  (IZR (2 ^ 53) <= F2R (Zpos mz) ez <= IZR (2 ^ 53 + 1))%R ->
  binary_round_aux prec emax false (Zpos mz) ez loc_Exact
  = S754_finite false (2 ^ 52)%positive 1.
Proof.
  intros mz ez Hpre [Hlo Hhi].
  assert (Hd : Zdigits2 (Zpos mz) + ez = 54).
  { apply digits_of_value. change (54 - 1) with 53.
    rewrite (pow2_Z 53), (pow2_Z 54) by lia. split; [exact Hlo|].
    assert (IZR (2 ^ 53 + 1) < IZR (2 ^ 54))%R by (apply IZR_lt; lia). lra. }
  destruct (round_aux_shape (Zpos mz) ez loc_Exact ltac:(lia) Hpre)
    as (Hm1 & Hnorm & He1 & Hr).
  rewrite Hr. clear Hr. rewrite Hd in *.
  change (fexp prec emax 54) with 1 in *.
  set (n := Z.to_nat (1 - ez)) in *.
  set (m1 := Zpos mz / 2 ^ (1 - ez)) in *.
  destruct (F2R_floor (Zpos mz) ez 1 Hpre ltac:(lia)) as (Fa & Fb & _).
  fold m1 in Fa, Fb.
  assert (Em1 : m1 = 2 ^ 52).
  { rewrite F2R_1 in Fa, Fb.
    assert (A : (IZR (m1 * 2) <= IZR (2 ^ 53 + 1))%R) by lra.
    assert (B : (IZR (2 ^ 53) < IZR ((m1 + 1) * 2))%R) by lra.
    apply le_IZR in A. apply lt_IZR in B. lia. }
  rewrite Em1.
  assert (Hloc : loc_of_shr_record
                   (Nat.iter n shr_1 (shr_record_of_loc (Zpos mz) loc_Exact))
                 <> loc_Inexact Gt).
  { intros G. apply iter_shr_loc_Gt in G; [|lia]. destruct G as [Hn G].
    unfold n in Hn, G. rewrite Z2Nat.id in G by lia.
    assert (Hez : ez <= 0) by lia.
    assert (Hp : 0 < 2 ^ (1 - ez)) by (apply Z.pow_pos_nonneg; lia).
    pose proof (Z.div_mod (Zpos mz) (2 ^ (1 - ez)) ltac:(lia)) as D.
    fold m1 in D. rewrite Em1 in D.
    assert (E2 : 2 ^ (1 - ez) = 2 * 2 ^ (1 - ez - 1)).
    { rewrite <- Z.pow_succ_r by lia. f_equal. lia. }
    assert (Hbig : (2 ^ 53 + 1) * 2 ^ (1 - ez - 1) < Zpos mz) by nia.
    apply (F2R_lt _ _ ez) in Hbig.
    rewrite F2R_shift in Hbig by lia.
    replace (ez + (1 - ez - 1)) with 0 in Hbig by lia.
    rewrite F2R_0 in Hbig. lra. }
  destruct (loc_of_shr_record
              (Nat.iter n shr_1 (shr_record_of_loc (Zpos mz) loc_Exact)))
    as [|[| |]]; try reflexivity.
  now elim Hloc.
Qed.

Lemma SFadd_at_top : forall mx ex,
  SpecFloat.bounded prec emax mx ex = true ->
  (F2R (Zpos mx) ex <= 1)%R ->
  SFadd prec emax (S754_finite false (2 ^ 52)%positive 1)
                  (S754_finite false mx ex)
  = S754_finite false (2 ^ 52)%positive 1.
Proof.
  intros mx ex HB Hle.
  unfold SFadd. cbv zeta. unfold cond_Zopp.
  destruct (shl_align_spec (2 ^ 52) 1 (Z.min 1 ex)) as (A1 & A2 & _).
  destruct (shl_align_spec mx ex (Z.min 1 ex)) as (B1 & B2 & _).
  replace (Z.min 1 (Z.min 1 ex)) with (Z.min 1 ex) in A2 by lia.
  replace (Z.min ex (Z.min 1 ex)) with (Z.min 1 ex) in B2 by lia.
  rewrite A2 in A1. rewrite B2 in B1.
  change (Zpos (fst (shl_align (2 ^ 52) 1 (Z.min 1 ex)))
          + Zpos (fst (shl_align mx ex (Z.min 1 ex))))
    with (Zpos (fst (shl_align (2 ^ 52) 1 (Z.min 1 ex))
                + fst (shl_align mx ex (Z.min 1 ex)))).
  unfold binary_normalize.
  set (M := (fst (shl_align (2 ^ 52) 1 (Z.min 1 ex))
             + fst (shl_align mx ex (Z.min 1 ex)))%positive).
  assert (HM : F2R (Zpos M) (Z.min 1 ex) = (IZR (2 ^ 53) + F2R (Zpos mx) ex)%R).
  { unfold M. rewrite Pos2Z.inj_add, F2R_add, A1, B1. f_equal.
    rewrite F2R_1. reflexivity. }
  destruct (binary_round_pre M (Z.min 1 ex)) as (-> & Hv & Hpre).
  apply round_at_top; [exact Hpre|].
  rewrite Hv, HM, plus_IZR. pose proof (F2R_pos mx ex). lra.
Qed.

Lemma SFadd_saturates : forall a b,
  nonneg_fz a -> nonneg_fz b ->
  valid_binary a = true -> valid_binary b = true ->
  (SF2R a <= IZR (2 ^ 53))%R -> (SF2R b <= 1)%R ->
  valid_binary (SFadd prec emax a b) = true
  /\ nonneg_fz (SFadd prec emax a b)
  /\ (SF2R (SFadd prec emax a b) <= IZR (2 ^ 53))%R.
Proof.
  intros a b Ha Hb Va Vb Hta Hb1.
  assert (Etop : F2R (Zpos (2 ^ 52)) 1 = IZR (2 ^ 53)).
  { rewrite F2R_1. reflexivity. }
  destruct (Rle_or_lt (SF2R a) (IZR (2 ^ 53 - 1))) as [L|L].
  - rewrite <- Etop. apply SFadd_upper; try assumption; [|reflexivity].
    rewrite Etop. rewrite minus_IZR in L. lra.
  - destruct Ha as [->|(ma & ea & ->)].
    + exfalso. simpl in L. assert (0 <= IZR (2 ^ 53 - 1))%R by (apply IZR_le; lia). lra.
    + simpl in L, Hta, Va.
      destruct (near_top ma ea Va (conj L Hta)) as [-> ->].
      destruct Hb as [->|(mb & eb & ->)].
      * simpl. repeat split; [right; eauto | rewrite Etop; lra].
      * simpl in Hb1, Vb. rewrite (SFadd_at_top mb eb Vb Hb1).
        repeat split; [right; eauto | simpl; rewrite Etop; lra].
Qed.

(** ** Floats between 0 and a bound *)

Lemma one_canonical :
  SpecFloat.bounded prec emax (2 ^ 52) (-52) = true
  /\ F2R (Zpos (2 ^ 52)) (-52) = 1%R
  /\ Prim2SF 1 = S754_finite false (2 ^ 52) (-52).
Proof.
  split; [reflexivity|]. split; [|reflexivity].
  rewrite <- (F2R_0 1). replace 0 with (-52 + 52) by lia.
  rewrite <- F2R_shift by lia. reflexivity.
Qed.

Lemma fnonneg_zero : fnonneg 0 /\ fval 0 = 0%R.
Proof. split; [left|]; reflexivity. Qed.

Lemma float_add_upper : forall (x y : float) mB eB,
  fnonneg x -> fnonneg y ->
  (fval x + fval y <= F2R (Zpos mB) eB)%R ->
  SpecFloat.bounded prec emax mB eB = true ->
  fnonneg (x + y) /\ (fval (x + y) <= F2R (Zpos mB) eB)%R.
Proof.
  intros x y mB eB Hx Hy Hle HB. unfold fnonneg, fval in *.
  rewrite add_spec.
  destruct (SFadd_upper (Prim2SF x) (Prim2SF y) mB eB Hx Hy
              (Prim2SF_valid x) (Prim2SF_valid y) Hle HB) as (_ & H1 & H2).
  split; assumption.
Qed.

Lemma float_add_saturates : forall x y : float,
  fnonneg x -> fnonneg y ->
  (fval x <= IZR (2 ^ 53))%R -> (fval y <= 1)%R ->
  fnonneg (x + y) /\ (fval (x + y) <= IZR (2 ^ 53))%R.
Proof.
  intros x y Hx Hy Hle1 Hle2. unfold fnonneg, fval in *.
  rewrite add_spec.
  destruct (SFadd_saturates (Prim2SF x) (Prim2SF y) Hx Hy
              (Prim2SF_valid x) (Prim2SF_valid y) Hle1 Hle2) as (_ & H1 & H2).
  split; assumption.
Qed.

Lemma Z2SF_nonneg : forall k, 0 <= k ->
  nonneg_fz (Z2SF k) /\ SF2R (Z2SF k) = IZR k.
Proof.
  intros [|p|p] H; try lia.
  - split; [now left | reflexivity].
  - split; [right; eauto|]. simpl. apply F2R_0.
Qed.

Lemma int_truediv_unit : forall k n q,
  0 <= k <= n -> 0 < n -> int_truediv k n = OK q ->
  fnonneg q /\ (fval q <= 1)%R.
Proof.
  intros k n q Hk Hn H. unfold int_truediv in H.
  destruct (n =? 0); [discriminate|].
  destruct (is_infinity _); [discriminate|].
  inversion H as [Hq]. clear H.
  destruct one_canonical as (B1 & B2 & _).
  destruct (Z2SF_nonneg k ltac:(lia)) as [Hnk Hvk].
  assert (En : Z2SF n = S754_finite false (Z.to_pos n) 0)
    by (destruct n; try lia; reflexivity).
  rewrite En.
  destruct (SFdiv_upper (Z2SF k) (Z.to_pos n) 0 (2 ^ 52) (-52) Hnk)
    as (V & N & L); [|exact B1|].
  - rewrite Hvk, B2, F2R_0, Z2Pos.id by lia.
    assert (IZR k <= IZR n)%R by (apply IZR_le; lia). lra.
  - unfold fnonneg, fval. rewrite (Prim2SF_SF2Prim _ V).
    rewrite B2 in L. split; assumption.
Qed.

Lemma float_of_int_lower : forall n mB eB,
  0 < n -> (F2R (Zpos mB) eB <= IZR n)%R ->
  SpecFloat.bounded prec emax mB eB = true ->
  Prim2SF (float_of_int n) = S754_infinity false
  \/ exists m e, Prim2SF (float_of_int n) = S754_finite false m e
                 /\ (F2R (Zpos mB) eB <= F2R (Zpos m) e)%R.
Proof.
  intros n mB eB Hn Hle HB. unfold float_of_int.
  destruct n as [|p|p]; try lia. unfold binary_normalize.
  destruct (binary_round_lower p 0 mB eB) as [V H]; [|exact HB|].
  - rewrite F2R_0. exact Hle.
  - rewrite (Prim2SF_SF2Prim _ V). exact H.
Qed.

Lemma float_div_unit : forall (t : float) (n : Z),
  fnonneg t -> 0 < n -> (fval t <= IZR n)%R ->
  fnonneg (t / float_of_int n) /\ (fval (t / float_of_int n) <= 1)%R.
Proof.
  intros t n Ht Hn Hle. unfold fnonneg, fval in *. rewrite div_spec.
  destruct one_canonical as (B1 & B2 & _).
  pose proof (Prim2SF_valid t) as Vt.
  destruct Ht as [Et|(mt & et & Et)]; rewrite Et in *.
  - destruct (float_of_int_lower n (2 ^ 52) (-52) Hn) as [E|(m & e & E & _)];
      [rewrite B2; apply IZR_le; lia | exact B1 | |]; rewrite E; simpl;
      (split; [now left | lra]).
  - simpl in Vt, Hle.
    destruct (float_of_int_lower n mt et Hn Hle Vt) as [E|(m & e & E & G)];
      rewrite E.
    + simpl. split; [now left | lra].
    + destruct (SFdiv_upper (S754_finite false mt et) m e (2 ^ 52) (-52))
        as (_ & N & L); [right; eauto | | exact B1 |].
      * rewrite B2. simpl. lra.
      * rewrite B2 in L. split; assumption.
Qed.

Lemma float_leb_one : forall x : float,
  fnonneg x -> (fval x <= 1)%R ->
  (0 <=? x)%float = true /\ (x <=? 1)%float = true.
Proof.
  intros x Hx Hle. rewrite !leb_spec.
  destruct one_canonical as (B1 & B2 & B3).
  split.
  - change (Prim2SF 0) with (S754_zero false). now apply SFleb_zero.
  - rewrite B3. apply SFleb_upper; try assumption.
    + apply Prim2SF_valid.
    + rewrite B2. exact Hle.
Qed.

Lemma float_percent : forall x : float,
  fnonneg x -> (fval x <= 1)%R ->
  (0 <=? x * 100)%float = true /\ (x * 100 <=? 100)%float = true.
Proof.
  intros x Hx Hle. rewrite !leb_spec, mul_spec.
  change (Prim2SF 0) with (S754_zero false).
  change (Prim2SF 100) with (S754_finite false 7036874417766400 (-46)).
  assert (HB : SpecFloat.bounded prec emax 7036874417766400 (-46) = true)
    by reflexivity.
  destruct (SFmul_upper (Prim2SF x) 7036874417766400 (-46)
              7036874417766400 (-46) Hx) as (V & N & L); [lia | | exact HB |].
  - pose proof (F2R_pos 7036874417766400 (-46)).
    pose proof (nonneg_fz_nonneg _ Hx). unfold fval in Hle. nra.
  - split; [now apply SFleb_zero | now apply SFleb_upper].
Qed.

(** ** Path overlap *)

Section OverlapFacts.

Variable py_pow : float -> float -> res float.

Lemma count_overlap_points_bounds : forall path1 path2 acc k,
  count_overlap_points py_pow path1 path2 acc = OK k ->
  acc <= k <= acc + Z.of_nat (length path1).
Proof.
  induction path1 as [|p path1 IH]; intros path2 acc k H.
  - simpl in H. inversion H. simpl. lia.
  - simpl in H. destruct (point_covered py_pow p path2) as [c|e]; [|discriminate].
    simpl in H. apply IH in H. simpl length. destruct c; lia.
Qed.

Lemma single_path_overlap_unit : forall path1 path2 f,
  _calculate_single_path_overlap py_pow path1 path2 = OK f ->
  fnonneg f /\ (fval f <= 1)%R.
Proof.
  intros path1 path2 f H. unfold _calculate_single_path_overlap in H.
  destruct (is_empty path1 || is_empty path2) eqn:E.
  - destruct fnonneg_zero as [Z1 Z2]. inversion H; subst.
    split; [exact Z1 | rewrite Z2; lra].
  - destruct (count_overlap_points py_pow path1 path2 0) as [k|e] eqn:C;
      [|discriminate].
    simpl in H. apply count_overlap_points_bounds in C.
    apply (int_truediv_unit k (Z.of_nat (length path1))); [lia | | exact H].
    destruct path1; [discriminate | simpl; lia].
Qed.

Lemma acc_ok_step : forall (t x : float) (i : Z),
  acc_ok (t, i) -> fnonneg x -> (fval x <= 1)%R ->
  acc_ok ((t + x)%float, i + 1).
Proof.
  intros t x i (Ht & Hi & Hle) Hx Hx1. unfold acc_ok in *. simpl in *.
  destruct (Z_le_gt_dec (i + 1) (2 ^ 53)) as [L|L].
  - rewrite Z.min_l in Hle |- * by lia.
    destruct (small_int_canonical (i + 1) ltac:(lia)) as (mB & eB & HB & EB).
    destruct (float_add_upper t x mB eB Ht Hx) as [N U]; [|exact HB|].
    + rewrite EB, plus_IZR. lra.
    + rewrite EB in U. split; [exact N|]. split; [lia | exact U].
  - rewrite Z.min_r in Hle |- * by lia.
    destruct (float_add_saturates t x Ht Hx Hle Hx1) as [N U].
    split; [exact N|]. split; [lia | exact U].
Qed.

Lemma overlap_inner_ok : forall user_path candidate_paths acc acc',
  overlap_inner py_pow user_path candidate_paths acc = OK acc' ->
  acc_ok acc ->
  acc_ok acc' /\ snd acc' = snd acc + Z.of_nat (length candidate_paths).
Proof.
  intros user_path candidate_paths.
  induction candidate_paths as [|c rest IH]; intros acc acc' H Hok.
  - simpl in H. inversion H; subst. simpl. split; [exact Hok | lia].
  - simpl in H.
    destruct (_calculate_single_path_overlap py_pow user_path c) as [x|e] eqn:E;
      [|discriminate].
    simpl in H. destruct (single_path_overlap_unit _ _ _ E) as [Hx Hx1].
    destruct acc as [t i]. simpl in H.
    apply IH in H; [|now apply acc_ok_step].
    destruct H as [H1 H2]. split; [exact H1|]. rewrite H2. simpl. lia.
Qed.

Lemma overlap_outer_ok : forall user_paths candidate_paths acc acc',
  overlap_outer py_pow user_paths candidate_paths acc = OK acc' ->
  acc_ok acc ->
  acc_ok acc'
  /\ snd acc' = snd acc
                + Z.of_nat (length user_paths) * Z.of_nat (length candidate_paths).
Proof.
  induction user_paths as [|u rest IH]; intros candidate_paths acc acc' H Hok.
  - simpl in H. inversion H; subst. simpl. split; [exact Hok | lia].
  - simpl in H.
    destruct (overlap_inner py_pow u candidate_paths acc) as [acc1|e] eqn:E;
      [|discriminate].
    simpl in H. destruct (overlap_inner_ok _ _ _ _ E Hok) as [Hok1 Hn1].
    apply IH in H; [|exact Hok1].
    destruct H as [H1 H2]. split; [exact H1|]. rewrite H2, Hn1.
    simpl length. lia.
Qed.

Lemma path_overlap_unit : forall user_paths candidate_paths po,
  _calculate_path_overlap py_pow user_paths candidate_paths = OK po ->
  fnonneg po /\ (fval po <= 1)%R.
Proof.
  intros user_paths candidate_paths po H. unfold _calculate_path_overlap in H.
  destruct fnonneg_zero as [Z1 Z2].
  destruct (is_empty user_paths || is_empty candidate_paths).
  { inversion H; subst. split; [exact Z1 | rewrite Z2; lra]. }
  destruct (overlap_outer py_pow user_paths candidate_paths (0%float, 0))
    as [[t n]|e] eqn:E; [|discriminate].
  simpl in H.
  destruct (overlap_outer_ok _ _ _ _ E) as [(Ht & Hn & Hle) _].
  { unfold acc_ok. cbn [fst snd]. split; [exact Z1|]. split; [lia|].
    rewrite Z2. change (Z.min 0 (2 ^ 53)) with 0. lra. }
  simpl in Ht, Hn, Hle.
  destruct (0 <? n) eqn:Hpos.
  - apply Z.ltb_lt in Hpos. unfold float_truediv in H.
    destruct (float_of_int n =? 0)%float; [discriminate|].
    inversion H; subst. apply float_div_unit; try assumption.
    assert (IZR (Z.min n (2 ^ 53)) <= IZR n)%R by (apply IZR_le; lia). lra.
  - inversion H; subst. split; [exact Z1 | rewrite Z2; lra].
Qed.

(** C6: the path overlap that [_calculate_path_overlap] returns, and with it
    the one [_evaluate_match] uses, is a float between 0 and 1, and
    [path_overlap_percent] one between 0 and 100; when either schedule has no
    recorded path it is exactly 0.0. *)
Theorem path_overlap_range :
  forall u c : Schedule,
    (forall po,
        _calculate_path_overlap py_pow (walking_paths u) (walking_paths c)
        = OK po ->
        (0 <=? po)%float = true /\ (po <=? 1)%float = true
        /\ (0 <=? po * 100)%float = true /\ (po * 100 <=? 100)%float = true)
    /\ (forall s, _evaluate_match py_pow u c = OK (Some s) ->
          (0 <=? path_overlap_percent s)%float = true
          /\ (path_overlap_percent s <=? 100)%float = true)
    /\ (walking_paths u = [] \/ walking_paths c = [] ->
        _calculate_path_overlap py_pow (walking_paths u) (walking_paths c)
        = OK 0%float).
Proof.
  intros u c. split; [|split].
  - intros po H. destruct (path_overlap_unit _ _ _ H) as [Hn Hle].
    destruct (float_leb_one po Hn Hle) as [H1 H2].
    destruct (float_percent po Hn Hle) as [H3 H4]. auto.
  - intros s H.
    destruct (evaluate_match_inv py_pow u c s H) as (tp & po & _ & Hpo & ->).
    simpl. destruct (path_overlap_unit _ _ _ Hpo) as [Hn Hle].
    now apply float_percent.
  - intros [E|E]; unfold _calculate_path_overlap; rewrite E.
    + reflexivity.
    + simpl. now rewrite orb_true_r.
Qed.

End OverlapFacts.

(** ** Rounding from below *)

Lemma round_result_ext : forall m2 e1, 0 <= m2 -> nonneg_ext (round_result m2 e1).
Proof.
  intros m2 e1 Hm. unfold round_result.
  destruct (m2 =? 0); [left; now left|].
  destruct (m2 =? 2 ^ 53).
  - destruct (e1 + 1 <=? 971); [left; right; eauto | now right].
  - destruct (e1 <=? 971); [left; right; eauto | now right].
Qed.

Lemma round_aux_ext : forall mx ex lx,
  0 <= mx -> ex <= fexp prec emax (Zdigits2 mx + ex) ->
  nonneg_ext (binary_round_aux prec emax false mx ex lx)
  /\ valid_binary (binary_round_aux prec emax false mx ex lx) = true.
Proof.
  intros mx ex lx Hmx Hpre.
  destruct (round_aux_shape mx ex lx Hmx Hpre) as (Hm1 & Hnorm & He1 & Hr).
  rewrite Hr. clear Hr.
  set (e1 := fexp prec emax (Zdigits2 mx + ex)) in *.
  set (mrs := Nat.iter (Z.to_nat (e1 - ex)) shr_1 (shr_record_of_loc mx lx)) in *.
  set (m1 := mx / 2 ^ (e1 - ex)) in *.
  destruct (round_nearest_even_cases m1 (loc_of_shr_record mrs)) as [E|[E _]];
    rewrite E; (split; [apply round_result_ext; lia|]);
    apply (round_result_valid m1); auto.
Qed.

Lemma round_aux_lower_gen : forall mx ex lx mB eB (x : R),
  0 <= mx -> ex <= fexp prec emax (Zdigits2 mx + ex) ->
  (F2R (Zpos mB) eB <= x)%R -> (x < F2R (mx + 1) ex)%R ->
  SpecFloat.bounded prec emax mB eB = true ->
  at_least (F2R (Zpos mB) eB) (binary_round_aux prec emax false mx ex lx).
Proof.
  intros mx ex lx mB eB x Hmx Hpre HB Hx Hbd.
  destruct (round_aux_shape mx ex lx Hmx Hpre) as (Hm1 & Hnorm & He1 & Hr).
  rewrite Hr. clear Hr.
  set (e1 := fexp prec emax (Zdigits2 mx + ex)) in *.
  set (mrs := Nat.iter (Z.to_nat (e1 - ex)) shr_1 (shr_record_of_loc mx lx)) in *.
  set (m1 := mx / 2 ^ (e1 - ex)) in *.
  set (m2 := round_nearest_even m1 (loc_of_shr_record mrs)).
  assert (Hm2 : m2 = m1 \/ m2 = m1 + 1).
  { unfold m2. destruct (round_nearest_even_cases m1 (loc_of_shr_record mrs))
      as [E|[E _]]; auto. }
  destruct (F2R_floor mx ex e1 Hpre Hmx) as (Fa & Fb & Fc). fold m1 in Fa, Fb, Fc.
  assert (Fd : (F2R (mx + 1) ex <= F2R (m1 + 1) e1)%R).
  { replace e1 with (ex + (e1 - ex)) in Fb |- * by lia.
    rewrite <- F2R_shift in Fb |- * by lia.
    apply F2R_lt_inv in Fb. apply F2R_le. lia. }
  assert (Hlow : (F2R (Zpos mB) eB <= F2R m1 e1)%R)
    by (apply lattice_down; try assumption; try lia; lra).
  assert (Hlow2 : (F2R (Zpos mB) eB <= F2R m2 e1)%R).
  { pose proof (F2R_le m1 m2 e1 ltac:(lia)). lra. }
  destruct (F2R_pos_lt_top _ _ Hbd) as [Bpos _].
  assert (Hpos : 0 < m2).
  { destruct (Z_lt_le_dec 0 m2) as [L|L]; [exact L|].
    pose proof (F2R_le m2 0 e1 L) as H0. unfold F2R at 2 in H0.
    rewrite Rmult_0_l in H0. lra. }
  unfold round_result, at_least.
  destruct (Z.eqb_spec m2 0) as [E0|E0]; [lia|].
  destruct (Z.eqb_spec m2 (2 ^ 53)) as [E1|E1].
  - destruct (Z.leb_spec (e1 + 1) 971) as [L|L]; [|now left].
    right. do 2 eexists. split; [reflexivity|].
    rewrite <- F2R_shift by lia. rewrite E1 in Hlow2. exact Hlow2.
  - destruct (Z.leb_spec e1 971) as [L|L]; [|now left].
    right. do 2 eexists. split; [reflexivity|].
    rewrite Z2Pos.id by lia. exact Hlow2.
Qed.

Lemma normal_product_pre : forall ma mb ea eb,
  2 ^ 52 <= Zpos mb ->
  ea + eb <= fexp prec emax (Zdigits2 (Zpos (ma * mb)) + (ea + eb)).
Proof.
  intros ma mb ea eb Hmb. rewrite fexp_eq.
  assert (53 <= Zdigits2 (Zpos (ma * mb))).
  { apply (Zdigits2_ge _ 52); [lia|]. rewrite Pos2Z.inj_mul. nia. }
  lia.
Qed.

Lemma SFmul_ext : forall a mb eb,
  nonneg_ext a -> 2 ^ 52 <= Zpos mb ->
  nonneg_ext (SFmul prec emax a (S754_finite false mb eb)).
Proof.
  intros a mb eb [[->|(ma & ea & ->)]| ->] Hmb; simpl.
  - left. now left.
  - apply round_aux_ext; [lia|]. now apply normal_product_pre.
  - now right.
Qed.

Lemma SFmul_lower : forall a mb eb mB eB,
  at_least (F2R (Zpos mB) eB / F2R (Zpos mb) eb) a ->
  2 ^ 52 <= Zpos mb ->
  SpecFloat.bounded prec emax mB eB = true ->
  at_least (F2R (Zpos mB) eB) (SFmul prec emax a (S754_finite false mb eb)).
Proof.
  intros a mb eb mB eB [->|(ma & ea & -> & H)] Hmb HB; simpl.
  - now left.
  - pose proof (F2R_pos mb eb) as Pb.
    assert (Hprod : (F2R (Zpos mB) eB <= F2R (Zpos (ma * mb)) (ea + eb))%R).
    { rewrite Pos2Z.inj_mul, F2R_mul.
      assert (E : (F2R (Zpos mB) eB
                   = F2R (Zpos mB) eB / F2R (Zpos mb) eb * F2R (Zpos mb) eb)%R)
        by (field; lra).
      rewrite E. nra. }
    apply (round_aux_lower_gen _ _ _ _ _ (F2R (Zpos (ma * mb)) (ea + eb)));
      try assumption; try lia.
    + now apply normal_product_pre.
    + apply F2R_lt. lia.
Qed.

Lemma binary_round_lower_ext : forall M e mB eB,
  (F2R (Zpos mB) eB <= F2R (Zpos M) e)%R ->
  SpecFloat.bounded prec emax mB eB = true ->
  at_least (F2R (Zpos mB) eB) (binary_round prec emax false M e).
Proof.
  intros M e mB eB Hle HB.
  destruct (binary_round_lower M e mB eB Hle HB) as [_ [H|H]];
    [now left | now right].
Qed.

Lemma binary_round_ext : forall M e,
  nonneg_ext (binary_round prec emax false M e)
  /\ valid_binary (binary_round prec emax false M e) = true.
Proof.
  intros M e. destruct (binary_round_pre M e) as (-> & _ & Hpre).
  apply round_aux_ext; [lia | exact Hpre].
Qed.

Lemma SFadd_ext : forall a b,
  nonneg_ext a -> nonneg_ext b -> nonneg_ext (SFadd prec emax a b).
Proof.
  intros a b [[->|(ma & ea & ->)]| ->] [[->|(mb & eb & ->)]| ->]; simpl;
    try (left; now left); try (now right); try (left; right; eauto; fail).
  unfold cond_Zopp.
  change (Zpos (fst (shl_align ma ea (Z.min ea eb)))
          + Zpos (fst (shl_align mb eb (Z.min ea eb))))
    with (Zpos (fst (shl_align ma ea (Z.min ea eb))
                + fst (shl_align mb eb (Z.min ea eb)))).
  unfold binary_normalize. apply binary_round_ext.
Qed.

Lemma SFadd_lower : forall a b mB eB,
  at_least (F2R (Zpos mB) eB) a -> nonneg_ext b ->
  SpecFloat.bounded prec emax mB eB = true ->
  at_least (F2R (Zpos mB) eB) (SFadd prec emax a b).
Proof.
  intros a b mB eB [->|(ma & ea & -> & H)] Hb HB.
  - destruct Hb as [[->|(mb & eb & ->)]| ->]; now left.
  - destruct Hb as [[->|(mb & eb & ->)]| ->].
    + simpl. right. eauto.
    + unfold SFadd. cbv zeta. unfold cond_Zopp.
      destruct (shl_align_spec ma ea (Z.min ea eb)) as (A1 & A2 & _).
      destruct (shl_align_spec mb eb (Z.min ea eb)) as (B1 & B2 & _).
      replace (Z.min ea (Z.min ea eb)) with (Z.min ea eb) in A2 by lia.
      replace (Z.min eb (Z.min ea eb)) with (Z.min ea eb) in B2 by lia.
      rewrite A2 in A1. rewrite B2 in B1.
      change (Zpos (fst (shl_align ma ea (Z.min ea eb)))
              + Zpos (fst (shl_align mb eb (Z.min ea eb))))
        with (Zpos (fst (shl_align ma ea (Z.min ea eb))
                    + fst (shl_align mb eb (Z.min ea eb)))).
      unfold binary_normalize. apply binary_round_lower_ext; [|exact HB].
      rewrite Pos2Z.inj_add, F2R_add, A1, B1.
      pose proof (F2R_pos mb eb). lra.
    + simpl. now left.
Qed.


(** ** Exact quotients *)

Lemma SFdiv_core_lt : forall ma ea mb eb,
  let q := fst (fst (SFdiv_core_binary prec emax (Zpos ma) ea (Zpos mb) eb)) in
  let e' := snd (fst (SFdiv_core_binary prec emax (Zpos ma) ea (Zpos mb) eb)) in
  (F2R (Zpos ma) ea < F2R (q + 1) e' * F2R (Zpos mb) eb)%R.
Proof.
  intros ma ea mb eb. unfold SFdiv_core_binary.
  set (d1 := Zdigits2 (Zpos ma)). set (d2 := Zdigits2 (Zpos mb)).
  set (e0 := Z.min (fexp prec emax (d1 + ea - (d2 + eb))) (ea - eb)).
  set (s := ea - eb - e0).
  set (m' := match s with
             | 0 => Zpos ma
             | Zpos _ => Z.shiftl (Zpos ma) s
             | Zneg _ => 0
             end).
  assert (Hs : 0 <= s) by (unfold s, e0; lia).
  assert (Hm' : m' = Zpos ma * 2 ^ s).
  { unfold m'. destruct s as [|p|p] eqn:E; try lia.
    rewrite Z.shiftl_mul_pow2 by lia. reflexivity. }
  pose proof (Z_div_mod m' (Zpos mb) ltac:(lia)) as D.
  destruct (Z.div_eucl m' (Zpos mb)) as [q r]. cbv zeta. simpl fst. simpl snd.
  destruct D as [D1 D2].
  assert (Hv : F2R (Zpos ma) ea = F2R m' (e0 + eb)).
  { rewrite Hm', F2R_shift by lia. f_equal. unfold s. lia. }
  rewrite Hv, <- F2R_mul. apply F2R_lt. nia.
Qed.

Lemma SFdiv_lower : forall ma ea mb eb mB eB,
  (F2R (Zpos mB) eB * F2R (Zpos mb) eb <= F2R (Zpos ma) ea)%R ->
  SpecFloat.bounded prec emax mB eB = true ->
  at_least (F2R (Zpos mB) eB)
    (SFdiv prec emax (S754_finite false ma ea) (S754_finite false mb eb)).
Proof.
  intros ma ea mb eb mB eB Hle HB. unfold SFdiv. simpl xorb.
  pose proof (SFdiv_core_spec ma ea mb eb) as S.
  pose proof (SFdiv_core_lt ma ea mb eb) as L.
  destruct (SFdiv_core_binary prec emax (Zpos ma) ea (Zpos mb) eb)
    as [[q e'] l].
  simpl in S, L. destruct S as (Hq & Hpre & _ & _).
  pose proof (F2R_pos mb eb) as Pb.
  apply (round_aux_lower_gen _ _ _ _ _ (F2R (Zpos ma) ea / F2R (Zpos mb) eb)%R);
    try assumption.
  - apply Rmult_le_reg_r with (F2R (Zpos mb) eb); [exact Pb|].
    replace (F2R (Zpos ma) ea / F2R (Zpos mb) eb * F2R (Zpos mb) eb)%R
      with (F2R (Zpos ma) ea) by (field; lra).
    exact Hle.
  - apply Rmult_lt_reg_r with (F2R (Zpos mb) eb); [exact Pb|].
    replace (F2R (Zpos ma) ea / F2R (Zpos mb) eb * F2R (Zpos mb) eb)%R
      with (F2R (Zpos ma) ea) by (field; lra).
    exact L.
Qed.

(** A real number has at most one canonical representation. *)
Lemma canonical_le : forall m e m' e',
  SpecFloat.bounded prec emax m e = true ->
  SpecFloat.bounded prec emax m' e' = true ->
  (F2R (Zpos m) e <= F2R (Zpos m') e')%R -> e <= e'.
Proof.
  intros m e m' e' B B' H.
  destruct (bounded_facts _ _ B) as (A1 & A2 & A3).
  destruct (bounded_facts _ _ B') as (B1 & B2 & B3).
  destruct (Z_le_gt_dec e e') as [L|L]; [exact L|]. exfalso.
  pose proof (F2R_pow_ge (Zpos m) 52 e (A2 ltac:(lia)) ltac:(lia)).
  pose proof (F2R_pow_lt (Zpos m') 53 e' B1 ltac:(lia)).
  pose proof (pow2_le (53 + e') (52 + e) ltac:(lia)). lra.
Qed.

Lemma canonical_unique : forall m e m' e',
  SpecFloat.bounded prec emax m e = true ->
  SpecFloat.bounded prec emax m' e' = true ->
  F2R (Zpos m) e = F2R (Zpos m') e' -> m = m' /\ e = e'.
Proof.
  intros m e m' e' B B' H.
  assert (E : e = e').
  { pose proof (canonical_le m e m' e' B B' ltac:(lra)).
    pose proof (canonical_le m' e' m e B' B ltac:(lra)). lia. }
  subst e'. split; [|reflexivity].
  pose proof (F2R_le_inv (Zpos m) (Zpos m') e ltac:(lra)).
  pose proof (F2R_le_inv (Zpos m') (Zpos m) e ltac:(lra)). lia.
Qed.

Lemma SFdiv_exact : forall ma ea mb eb mB eB,
  (F2R (Zpos mB) eB * F2R (Zpos mb) eb = F2R (Zpos ma) ea)%R ->
  SpecFloat.bounded prec emax mB eB = true ->
  SFdiv prec emax (S754_finite false ma ea) (S754_finite false mb eb)
  = S754_finite false mB eB.
Proof.
  intros ma ea mb eb mB eB H HB.
  destruct (SFdiv_upper (S754_finite false ma ea) mb eb mB eB)
    as (V & N & U); [right; eauto | simpl; lra | exact HB |].
  destruct (SFdiv_lower ma ea mb eb mB eB ltac:(lra) HB) as [E|(m & e & E & L)];
    rewrite E in *.
  - destruct N as [N|(m & e & N)]; discriminate.
  - simpl in V, U.
    destruct (canonical_unique m e mB eB V HB ltac:(lra)) as [-> ->].
    reflexivity.
Qed.

Lemma int_truediv_same : forall n, 0 < n -> int_truediv n n = OK 1%float.
Proof.
  intros n Hn. unfold int_truediv.
  destruct (Z.eqb_spec n 0) as [E|_]; [lia|].
  destruct n as [|p|p]; try lia. simpl Z2SF.
  destruct one_canonical as (B1 & B2 & B3).
  rewrite (SFdiv_exact p 0 p 0 (2 ^ 52) (-52)); [|rewrite B2; lra | exact B1].
  rewrite <- B3, SF2Prim_Prim2SF. reflexivity.
Qed.

Lemma int_truediv_zero : forall n, 0 < n -> int_truediv 0 n = OK 0%float.
Proof.
  intros n Hn. unfold int_truediv.
  destruct (Z.eqb_spec n 0) as [E|_]; [lia|].
  destruct n as [|p|p]; try lia. reflexivity.
Qed.

Lemma float_div_one : forall x : float,
  fnonneg x -> float_truediv x (float_of_int 1) = OK x.
Proof.
  intros x Hx. unfold float_truediv.
  change (float_of_int 1) with 1%float.
  change (1 =? 0)%float with false. cbv iota. f_equal.
  apply Prim2SF_inj. rewrite div_spec.
  destruct one_canonical as (B1 & B2 & B3). rewrite B3.
  pose proof (Prim2SF_valid x) as V. unfold fnonneg in Hx.
  destruct Hx as [E|(m & e & E)]; rewrite E in *.
  - reflexivity.
  - apply SFdiv_exact; [rewrite B2; lra | exact V].
Qed.

Lemma float_zero_add : forall x : float, fnonneg x -> (0 + x)%float = x.
Proof.
  intros x Hx. apply Prim2SF_inj. rewrite add_spec.
  change (Prim2SF 0) with (S754_zero false). unfold fnonneg in Hx.
  destruct Hx as [E|(m & e & E)]; rewrite E; reflexivity.
Qed.

(** ** Time proximity: outcomes and what is looked at *)

(** X1: [_parse_time] returns a time of day on 1900-01-01, hour 0 to 23 and
    minute 0 to 59 with no seconds, or raises the [ValueError] of
    [strptime]. *)
Theorem parse_time_outcomes :
  forall time_str : string,
    match _parse_time time_str with
    | OK t =>
        dt_ordinal t = ordinal_1900_01_01
        /\ dt_microsecond t = 0
        /\ exists h m, 0 <= h <= 23 /\ 0 <= m <= 59
                       /\ dt_second t = 3600 * h + 60 * m
    | Raise e => e = bad_time
    end.
Proof.
  intros time_str. unfold _parse_time, strptime_HM, bad_time.
  destruct (split_colon _) as [[hs ms]|]; [|reflexivity].
  destruct (parse_field 23 hs) as [h|] eqn:Eh; [|reflexivity].
  destruct (parse_field 59 ms) as [m|] eqn:Em; [|reflexivity].
  apply parse_field_range in Eh; [|lia]. apply parse_field_range in Em; [|lia].
  simpl. split; [reflexivity|]. split; [reflexivity|].
  exists h, m. lia.
Qed.

Lemma strptime_HM_raises : forall time_str e,
  strptime_HM time_str = Raise e -> e = bad_time.
Proof.
  intros time_str e H. unfold strptime_HM in H.
  destruct (split_colon _) as [[hs ms]|]; [|now injection H as <-].
  destruct (parse_field 23 hs) as [h|]; [|now injection H as <-].
  destruct (parse_field 59 ms) as [m|]; [discriminate | now injection H as <-].
Qed.

Lemma scan_candidate_classes_raises : forall cs u uend o e,
  strptime_HM (end_time u) = OK uend -> in_day o ->
  scan_candidate_classes (day u) uend cs (min_repr o) = Raise e ->
  e = bad_time.
Proof.
  induction cs as [|c cs IH]; intros u uend o e Hu Ho H.
  - discriminate.
  - simpl in H. destruct (String.eqb (day u) (day c)); simpl in H.
    + unfold _parse_time in H.
      destruct (strptime_HM (start_time c)) as [cstart|e'] eqn:Hc; simpl in H.
      * destruct (minutes_apart_spec _ _ _ _ Hc Hu) as [Hm Hr].
        rewrite Hm in H. simpl in H.
        destruct (py_min_repr o _ Ho Hr) as [Hp Hi]. rewrite Hp in H.
        exact (IH u uend _ e Hu Hi H).
      * injection H as <-. exact (strptime_HM_raises _ _ Hc).
    + exact (IH u uend o e Hu Ho H).
Qed.

Lemma scan_user_classes_raises : forall us cs o e,
  in_day o ->
  scan_user_classes us cs (min_repr o) = Raise e -> e = bad_time.
Proof.
  induction us as [|u us IH]; intros cs o e Ho H.
  - discriminate.
  - simpl in H. unfold _parse_time in H.
    destruct (strptime_HM (end_time u)) as [uend|e'] eqn:Hu; simpl in H.
    + pose proof (scan_candidate_classes_spec cs u uend o Hu Ho) as Hc.
      destruct (scan_candidate_classes (day u) uend cs (min_repr o))
        as [f|e'] eqn:Hs; simpl in H.
      * destruct Hc as [-> Hi]. exact (IH cs _ e Hi H).
      * injection H as <-.
        exact (scan_candidate_classes_raises cs u uend o e' Hu Ho Hs).
    + injection H as <-. exact (strptime_HM_raises _ _ Hu).
Qed.

(** What the code computes is the minimum of the specification, and it
    raises only on a time that is malformed. *)
Lemma time_proximity_code : forall us cs,
  match _calculate_time_proximity us cs with
  | OK r => r = time_proximity_spec us cs
  | Raise e => e = bad_time /\ ~ times_parse us cs
  end.
Proof.
  intros us cs. unfold _calculate_time_proximity, time_proximity_spec.
  pose proof (scan_user_classes_spec us cs None I) as H.
  pose proof (scan_user_classes_raises us cs None) as G.
  change (min_repr None) with infinity in H, G.
  destruct (scan_user_classes us cs infinity) as [f|e]; simpl.
  2:{ split; [exact (G e I eq_refl) | exact H]. }
  destruct H as [-> Hi]. fold (minimum (same_day_gaps us cs)) in *.
  destruct (minimum (same_day_gaps us cs)) as [m|]; simpl in *.
  - unfold TIME_PROXIMITY_THRESHOLD. rewrite minute_leb by lia.
    destruct (m <=? 15) eqn:E; [|reflexivity].
    destruct (step_facts m Hi) as (_ & _ & ->). reflexivity.
  - reflexivity.
Qed.

Lemma time_proximity_spec_range : forall us cs,
  time_proximity_spec us cs = -1 \/ 0 <= time_proximity_spec us cs <= 15.
Proof.
  intros us cs. unfold time_proximity_spec.
  destruct (minimum_spec (same_day_gaps us cs)) as [_ Hs].
  destruct (minimum (same_day_gaps us cs)) as [m|]; [|now left].
  destruct (Hs m eq_refl) as [Hin _]. apply same_day_gaps_nonneg in Hin.
  destruct (m <=? 15) eqn:E; [|now left].
  apply Z.leb_le in E. right. lia.
Qed.

(** X2: [_calculate_time_proximity] has two outcomes.  It returns -1 or a
    number of minutes from 0 to 15, nothing else; or it raises, and then what it
    raises is the [ValueError] of a malformed time among the user's end times
    and the candidate's start times: the arithmetic on the parsed times never
    fails. *)
Theorem time_proximity_outcomes :
  forall user_classes candidate_classes : list class_record,
    match _calculate_time_proximity user_classes candidate_classes with
    | OK r => r = -1 \/ 0 <= r <= 15
    | Raise e => e = bad_time /\ ~ times_parse user_classes candidate_classes
    end.
Proof.
  intros us cs. pose proof (time_proximity_code us cs) as H.
  destruct (_calculate_time_proximity us cs) as [r|e]; [|exact H].
  subst r. apply time_proximity_spec_range.
Qed.

Lemma scan_candidate_classes_filter :
  forall (keep : class_record -> bool) d uend cs m,
    (forall c, String.eqb d (day c) = true -> keep c = true) ->
    scan_candidate_classes d uend (List.filter keep cs) m
    = scan_candidate_classes d uend cs m.
Proof.
  intros keep d uend cs. induction cs as [|c cs IH]; intros m Hk.
  - reflexivity.
  - simpl. destruct (String.eqb d (day c)) eqn:E; simpl.
    + rewrite (Hk c E). simpl. rewrite E. simpl.
      destruct (_parse_time (start_time c)) as [cstart|e]; [|reflexivity]. simpl.
      destruct (minutes_apart cstart uend) as [diff|e]; [|reflexivity]. simpl.
      now apply IH.
    + destruct (keep c); simpl; [rewrite E; simpl|]; now apply IH.
Qed.

Lemma scan_user_classes_filter :
  forall (keep : class_record -> bool) us cs m,
    (forall u c, In u us -> String.eqb (day u) (day c) = true -> keep c = true) ->
    scan_user_classes us (List.filter keep cs) m = scan_user_classes us cs m.
Proof.
  intros keep us cs. induction us as [|u us IH]; intros m Hk.
  - reflexivity.
  - simpl. destruct (_parse_time (end_time u)) as [uend|e]; [|reflexivity]. simpl.
    rewrite scan_candidate_classes_filter
      by (intros c Hc; apply (Hk u c); [now left | exact Hc]).
    destruct (scan_candidate_classes (day u) uend cs m) as [m'|e];
      [|reflexivity].
    simpl. apply IH. intros u' c Hu'. apply Hk. now right.
Qed.

(** X3: a class of the candidate on a day on which the user has no class is
    never looked at, not even to parse its start time: the outcome is that
    for the candidate's classes on the user's days.  With no class of the
    user at all the result is -1, whatever the candidate's classes hold. *)
Theorem time_proximity_ignores_other_days :
  forall user_classes candidate_classes : list class_record,
    _calculate_time_proximity user_classes candidate_classes
    = _calculate_time_proximity user_classes
        (List.filter (on_a_day_of user_classes) candidate_classes)
    /\ _calculate_time_proximity [] candidate_classes = OK (-1).
Proof.
  intros us cs. split; [|reflexivity].
  unfold _calculate_time_proximity.
  rewrite scan_user_classes_filter; [reflexivity|].
  intros u c Hu E. unfold on_a_day_of. apply existsb_exists.
  exists u. split; assumption.
Qed.

(** ** The score of a suggestion *)

Lemma nonneg_ext_num : forall x : float, nonneg_ext (Prim2SF x) -> fnum x.
Proof.
  intros x [[E|(m & e & E)]|E]; unfold fnum, SFnum; rewrite E; discriminate.
Qed.

Lemma float_of_int_ext : forall n, 0 <= n ->
  nonneg_ext (Prim2SF (float_of_int n)).
Proof.
  intros [|p|p] Hn; try lia.
  - left. now left.
  - unfold float_of_int, binary_normalize.
    destruct (binary_round_ext p 0) as [N V].
    rewrite (Prim2SF_SF2Prim _ V). exact N.
Qed.

Lemma proximity_bonus_term : forall tp,
  (proximity_bonus tp * 0.2)%float = 0.2%float
  \/ (proximity_bonus tp * 0.2)%float = 0%float.
Proof.
  intros tp. unfold proximity_bonus. destruct (0 <? tp); [left|right]; reflexivity.
Qed.

Lemma match_score_ext : forall shared po tp,
  fnonneg po -> nonneg_ext (Prim2SF (match_score shared po tp)).
Proof.
  intros shared po tp Hpo. unfold match_score.
  rewrite !add_spec, !mul_spec.
  change (Prim2SF 0.4) with (S754_finite false 7205759403792794 (-54)).
  apply SFadd_ext; [apply SFadd_ext|].
  - apply SFmul_ext; [apply float_of_int_ext; lia | lia].
  - apply SFmul_ext; [now left | lia].
  - rewrite <- mul_spec.
    destruct (proximity_bonus_term tp) as [-> | ->];
      [left; right; do 2 eexists; reflexivity | left; now left].
Qed.

Lemma SFleb_lower : forall r mB eB,
  at_least (F2R (Zpos mB) eB) r -> valid_binary r = true ->
  SpecFloat.bounded prec emax mB eB = true ->
  SFleb (S754_finite false mB eB) r = true.
Proof.
  intros r mB eB [->|(m & e & -> & H)] V HB; [reflexivity|].
  apply SFleb_upper; [right; eauto | exact HB | exact V | exact H].
Qed.

Lemma leb_not_ltb : forall x y z : float,
  (x <? y)%float = true -> (y <=? z)%float = true -> (z <? x)%float = false.
Proof.
  intros x y z H1 H2. destruct (z <? x)%float eqn:H3; [|reflexivity].
  exfalso. apply ltb_key in H1, H3. apply leb_key in H2.
  destruct H1 as (_ & _ & H1). destruct H3 as (_ & _ & H3).
  destruct H2 as (_ & _ & [H2|H2]).
  - apply (lt3_irrefl (fkey x)).
    eapply lt3_trans; [exact H1|]. eapply lt3_trans; eassumption.
  - rewrite H2 in H1. apply (lt3_irrefl (fkey x)).
    eapply lt3_trans; eassumption.
Qed.

Lemma ltb_leb_trans : forall x y z : float,
  (x <? y)%float = true -> (y <=? z)%float = true -> (x <? z)%float = true.
Proof.
  intros x y z H1 H2. apply ltb_key in H1. apply leb_key in H2.
  destruct H1 as (Hx & _ & H1). destruct H2 as (_ & Hz & H2).
  apply ltb_key. split; [exact Hx|]. split; [exact Hz|].
  destruct H2 as [H2|H2]; [eapply lt3_trans; eassumption | now rewrite <- H2].
Qed.

Section ScoreFacts.

Variable py_pow : float -> float -> res float.

(** A returned suggestion passed the floor: its score is a number, at least
    0.3 and so above 0. *)
Lemma evaluate_match_score_floor : forall u c s,
  _evaluate_match py_pow u c = OK (Some s) ->
  (0.3 <=? score s)%float = true /\ (0 <? score s)%float = true.
Proof.
  intros u c s H.
  destruct (evaluate_match_inv py_pow u c s H) as (tp & po & Htp & Hpo & E).
  rewrite (evaluate_match_unfold py_pow u c tp po Htp Hpo) in H. cbv zeta in H.
  destruct (match_score (shared_courses u c) po tp <? 0.3)%float eqn:F;
    [discriminate|].
  destruct (path_overlap_unit py_pow _ _ _ Hpo) as [Hn _].
  pose proof (match_score_ext (shared_courses u c) po tp Hn) as X.
  apply nonneg_ext_num in X.
  assert (L : (0.3 <=? score s)%float = true).
  { subst s. simpl. apply ltb_false_leb; [exact X | discriminate | exact F]. }
  split; [exact L|].
  apply (ltb_leb_trans 0 0.3 (score s)); [reflexivity | exact L].
Qed.

(** X6: every suggestion [_evaluate_match] returns is for the candidate,
    has a score that is a number and at least 0.3, lists each shared course
    once (the courses that occur in both schedules, and only those), and has
    a time proximity of -1 or of 0 to 15 minutes. *)
Theorem evaluate_match_suggestion_fields :
  forall (u c : Schedule) (s : FriendSuggestion),
    _evaluate_match py_pow u c = OK (Some s) ->
    suggested_user_id s = user_id c
    /\ (0.3 <=? score s)%float = true
    /\ NoDup (shared_classes s)
    /\ (forall x, In x (shared_classes s)
                  <-> In x (map course (classes u))
                      /\ In x (map course (classes c)))
    /\ (time_proximity_minutes s = -1 \/ 0 <= time_proximity_minutes s <= 15).
Proof.
  intros u c s H.
  destruct (evaluate_match_score_floor u c s H) as [L _].
  destruct (evaluate_match_inv py_pow u c s H) as (tp & po & Htp & Hpo & E).
  split; [subst s; reflexivity|]. split; [exact L|].
  subst s. simpl. split; [|split].
  - unfold shared_courses. apply NoDup_elements.
  - intros x. unfold shared_courses, course_set.
    rewrite <- !list_elem_of_In, elem_of_elements, elem_of_intersection,
      !elem_of_list_to_set. reflexivity.
  - pose proof (time_proximity_code (classes u) (classes c)) as T.
    rewrite Htp in T. subst tp. apply time_proximity_spec_range.
Qed.

(** X7: two schedules with a course in common are always suggested to each
    other: when time proximity and path overlap are computed without error,
    [_evaluate_match] returns a suggestion, and its score is at least 0.4,
    whatever the paths and the times are. *)
Theorem evaluate_match_shared_course :
  forall (u c : Schedule) (uc cc : class_record) (tp : Z) (po : float),
    In uc (classes u) -> In cc (classes c) -> course uc = course cc ->
    _calculate_time_proximity (classes u) (classes c) = OK tp ->
    _calculate_path_overlap py_pow (walking_paths u) (walking_paths c) = OK po ->
    exists s, _evaluate_match py_pow u c = OK (Some s)
              /\ In (course uc) (shared_classes s)
              /\ (0.4 <=? score s)%float = true.
Proof.
  intros u c uc cc tp po Hu Hc Hcourse Htp Hpo.
  assert (Hin : In (course uc) (shared_courses u c)).
  { unfold shared_courses, course_set.
    rewrite <- list_elem_of_In, elem_of_elements, elem_of_intersection,
      !elem_of_list_to_set, !list_elem_of_In.
    split; [now apply in_map | rewrite Hcourse; now apply in_map]. }
  assert (Hlen : 0 < Z.of_nat (length (shared_courses u c))).
  { destruct (shared_courses u c); [destruct Hin | simpl; lia]. }
  destruct (path_overlap_unit py_pow _ _ _ Hpo) as [Hn _].
  set (sc := match_score (shared_courses u c) po tp).
  assert (L : (0.4 <=? sc)%float = true).
  { rewrite leb_spec.
    change (Prim2SF 0.4) with (S754_finite false 7205759403792794 (-54)).
    assert (HB : SpecFloat.bounded prec emax 7205759403792794 (-54) = true)
      by reflexivity.
    apply SFleb_lower; [|apply Prim2SF_valid | exact HB].
    unfold sc, match_score. rewrite !add_spec, !mul_spec.
    change (Prim2SF 0.4) with (S754_finite false 7205759403792794 (-54)).
    apply SFadd_lower; [apply SFadd_lower| |exact HB].
    - apply SFmul_lower; [|lia | exact HB].
      pose proof (F2R_pos 7205759403792794 (-54)) as P.
      replace (F2R 7205759403792794 (-54) / F2R 7205759403792794 (-54))%R
        with 1%R by (field; lra).
      destruct one_canonical as (B1 & B2 & _). rewrite <- B2.
      destruct (float_of_int_lower (Z.of_nat (length (shared_courses u c)))
                  (2 ^ 52) (-52) Hlen) as [E|(m & e & E & G)];
        [rewrite B2; apply IZR_le; lia | exact B1 | now left |].
      right. eauto.
    - apply SFmul_ext; [now left | lia].
    - exact HB.
    - rewrite <- mul_spec.
      destruct (proximity_bonus_term tp) as [-> | ->];
        [left; right; do 2 eexists; reflexivity | left; now left]. }
  rewrite (evaluate_match_unfold py_pow u c tp po Htp Hpo). cbv zeta. fold sc.
  rewrite (leb_not_ltb 0.3 0.4 sc eq_refl L).
  replace (Z.of_nat (length (shared_courses u c)) =? 0) with false
    by (symmetry; apply Z.eqb_neq; lia).
  simpl. eexists. split; [reflexivity|]. simpl. split; [exact Hin | exact L].
Qed.

End ScoreFacts.

Lemma float_add_zero : forall x : float,
  nonneg_ext (Prim2SF x) -> (x + 0)%float = x.
Proof.
  intros x Hx. apply Prim2SF_inj. rewrite add_spec.
  change (Prim2SF 0) with (S754_zero false).
  destruct Hx as [[E|(m & e & E)]|E]; rewrite E; reflexivity.
Qed.

Section BackToBack.

Variable py_pow : float -> float -> res float.

(** X8: a class of the candidate that starts, on the same day, at the very
    minute a class of the user ends gives a time proximity of 0, and 0 earns
    no proximity bonus: the score of the suggestion is that of the shared
    courses and the path overlap alone. *)
Theorem evaluate_match_back_to_back :
  forall (u c : Schedule) (uc cc : class_record),
    times_parse (classes u) (classes c) ->
    In uc (classes u) -> In cc (classes c) -> day uc = day cc ->
    clock_minutes (start_time cc) = clock_minutes (end_time uc) ->
    _calculate_time_proximity (classes u) (classes c) = OK 0
    /\ forall s, _evaluate_match py_pow u c = OK (Some s) ->
         time_proximity_minutes s = 0
         /\ exists po,
              _calculate_path_overlap py_pow (walking_paths u) (walking_paths c)
              = OK po
              /\ score s
                 = (float_of_int (Z.of_nat (length (shared_classes s))) * 0.4
                    + po * 0.4)%float.
Proof.
  intros u c uc cc Hp Hu Hc Hday Hmin.
  assert (T : _calculate_time_proximity (classes u) (classes c) = OK 0).
  { pose proof (time_proximity_code (classes u) (classes c)) as K.
    destruct (_calculate_time_proximity (classes u) (classes c)) as [r|e];
      [|destruct K as [_ K]; contradiction].
    subst r. f_equal. unfold time_proximity_spec.
    assert (Hin : In 0 (same_day_gaps (classes u) (classes c))).
    { unfold same_day_gaps. apply in_flat_map. exists uc. split; [exact Hu|].
      unfold gaps_for. apply in_map_iff. exists cc. split; [rewrite Hmin; lia|].
      apply List.filter_In. split; [exact Hc|]. rewrite Hday. apply String.eqb_refl. }
    destruct (minimum_spec (same_day_gaps (classes u) (classes c))) as [Hn Hs].
    destruct (minimum (same_day_gaps (classes u) (classes c))) as [m|] eqn:Em.
    - destruct (Hs m eq_refl) as [Hm Hle].
      apply same_day_gaps_nonneg in Hm. specialize (Hle 0 Hin).
      replace m with 0 by lia. reflexivity.
    - rewrite (proj1 Hn eq_refl) in Hin. destruct Hin. }
  split; [exact T|]. intros s H.
  destruct (evaluate_match_inv py_pow u c s H) as (tp & po & Htp & Hpo & E).
  rewrite T in Htp. injection Htp as <-. subst s. simpl.
  split; [reflexivity|]. exists po. split; [exact Hpo|].
  unfold match_score.
  change (proximity_bonus 0 * 0.2)%float with 0%float.
  apply float_add_zero. rewrite add_spec, !mul_spec.
  change (Prim2SF 0.4) with (S754_finite false 7205759403792794 (-54)).
  destruct (path_overlap_unit py_pow _ _ _ Hpo) as [Hn _].
  apply SFadd_ext.
  - apply SFmul_ext; [apply float_of_int_ext; lia | lia].
  - apply SFmul_ext; [now left | lia].
Qed.

End BackToBack.

(** ** Path overlap: what is counted *)

Section OverlapCount.

Variable py_pow : float -> float -> res float.

Lemma point_covered_reach : forall dist point1 path2,
  (forall point2, In point2 path2 ->
                  distance py_pow point1 point2 = OK (dist point1 point2)) ->
  point_covered py_pow point1 path2 = OK (within_reach dist path2 point1).
Proof.
  intros dist point1 path2. induction path2 as [|q path2 IH]; intros H.
  - reflexivity.
  - simpl. rewrite (H q) by now left. simpl.
    destruct (dist point1 q <? PROXIMITY_THRESHOLD)%float; [reflexivity|].
    apply IH. intros point2 Hq. apply H. now right.
Qed.

Lemma count_overlap_points_reach : forall dist path1 path2 acc,
  (forall point1 point2, In point1 path1 -> In point2 path2 ->
     distance py_pow point1 point2 = OK (dist point1 point2)) ->
  count_overlap_points py_pow path1 path2 acc
  = OK (acc + Z.of_nat (length (List.filter (within_reach dist path2) path1))).
Proof.
  intros dist path1 path2. induction path1 as [|p path1 IH]; intros acc H.
  - simpl. f_equal. lia.
  - simpl. rewrite (point_covered_reach dist p path2)
      by (intros q Hq; apply H; [now left | exact Hq]).
    simpl. rewrite IH by (intros p' q Hp' Hq; apply H; [now right | exact Hq]).
    destruct (within_reach dist path2 p); simpl length; f_equal; lia.
Qed.

(** X4: the overlap of [path1] with [path2] is the number of points of
    [path1] that lie within the threshold of some point of [path2], each
    counted once however many points of [path2] are near it, divided by the
    length of [path1].  When every point of [path1] is within reach the
    overlap is exactly 1.0, when none is it is exactly 0.0. *)
Theorem single_path_overlap_counts :
  forall (dist : point -> point -> float) (path1 path2 : path),
    path1 <> [] -> path2 <> [] ->
    (forall point1 point2, In point1 path1 -> In point2 path2 ->
       distance py_pow point1 point2 = OK (dist point1 point2)) ->
    let reached := List.filter (within_reach dist path2) path1 in
    _calculate_single_path_overlap py_pow path1 path2
    = int_truediv (Z.of_nat (length reached)) (Z.of_nat (length path1))
    /\ (reached = path1 ->
        _calculate_single_path_overlap py_pow path1 path2 = OK 1%float)
    /\ (reached = [] ->
        _calculate_single_path_overlap py_pow path1 path2 = OK 0%float).
Proof.
  intros dist path1 path2 H1 H2 Hd reached.
  assert (E : _calculate_single_path_overlap py_pow path1 path2
              = int_truediv (Z.of_nat (length reached))
                            (Z.of_nat (length path1))).
  { unfold _calculate_single_path_overlap.
    destruct path1 as [|p1 path1]; [contradiction|].
    destruct path2 as [|p2 path2]; [contradiction|].
    cbn [is_empty orb].
    rewrite (count_overlap_points_reach dist _ _ 0 Hd). reflexivity. }
  assert (Hlen : 0 < Z.of_nat (length path1))
    by (destruct path1; [contradiction | simpl; lia]).
  split; [exact E|]. split; intros R; rewrite E, R.
  - now apply int_truediv_same.
  - now apply int_truediv_zero.
Qed.

(** X5: when each of the two schedules has exactly one walking path, the
    path overlap of the schedules is the overlap of these two paths, with no
    rounding added by the sum and the average. *)
Theorem path_overlap_one_path_each :
  forall user_path candidate_path : path,
    _calculate_path_overlap py_pow [user_path] [candidate_path]
    = _calculate_single_path_overlap py_pow user_path candidate_path.
Proof.
  intros user_path candidate_path. unfold _calculate_path_overlap. simpl.
  destruct (_calculate_single_path_overlap py_pow user_path candidate_path)
    as [x|e] eqn:E; [|reflexivity].
  simpl. destruct (single_path_overlap_unit py_pow _ _ _ E) as [Hx _].
  rewrite (float_zero_add x Hx). now apply float_div_one.
Qed.

End OverlapCount.

(** ** Where an exception can come from *)

Lemma nonneg_fz_not_infinity : forall r,
  nonneg_fz r -> valid_binary r = true -> is_infinity (SF2Prim r) = false.
Proof.
  intros r N V. unfold is_infinity.
  rewrite FloatAxioms.eqb_spec, abs_spec, (Prim2SF_SF2Prim _ V).
  destruct N as [->|(m & e & ->)]; reflexivity.
Qed.

Lemma int_truediv_returns : forall k n,
  0 <= k <= n -> 0 < n -> exists q, int_truediv k n = OK q.
Proof.
  intros k n Hk Hn. unfold int_truediv.
  destruct (Z.eqb_spec n 0) as [E|_]; [lia|].
  destruct one_canonical as (B1 & B2 & _).
  destruct (Z2SF_nonneg k ltac:(lia)) as [Hnk Hvk].
  assert (En : Z2SF n = S754_finite false (Z.to_pos n) 0)
    by (destruct n; try lia; reflexivity).
  rewrite En.
  destruct (SFdiv_upper (Z2SF k) (Z.to_pos n) 0 (2 ^ 52) (-52) Hnk)
    as (V & N & _); [|exact B1|].
  - rewrite Hvk, B2, F2R_0, Z2Pos.id by lia.
    assert (IZR k <= IZR n)%R by (apply IZR_le; lia). lra.
  - rewrite (nonneg_fz_not_infinity _ N V). eauto.
Qed.

Lemma float_truediv_returns : forall (t : float) (n : Z),
  0 < n -> float_truediv t (float_of_int n) = OK (t / float_of_int n)%float.
Proof.
  intros t n Hn. unfold float_truediv.
  replace (float_of_int n =? 0)%float with false; [reflexivity|].
  symmetry. rewrite FloatAxioms.eqb_spec.
  change (Prim2SF 0) with (S754_zero false).
  destruct one_canonical as (B1 & B2 & _).
  destruct (float_of_int_lower n (2 ^ 52) (-52) Hn) as [E|(m & e & E & _)];
    [rewrite B2; apply IZR_le; lia | exact B1 | |]; rewrite E; reflexivity.
Qed.

Section FailureFacts.

Variable py_pow : float -> float -> res float.

Lemma distance_raises : forall p q e,
  distance py_pow p q = Raise e -> exists x y, py_pow x y = Raise e.
Proof.
  intros p q e H. unfold distance in H.
  destruct (py_pow (fst p - fst q) (float_of_int 2)) as [dx2|e1] eqn:E1;
    simpl in H; [|injection H as <-; eauto].
  destruct (py_pow (snd p - snd q) (float_of_int 2)) as [dy2|e2] eqn:E2;
    simpl in H; [|injection H as <-; eauto].
  eauto.
Qed.

Lemma point_covered_raises : forall p path2 e,
  point_covered py_pow p path2 = Raise e -> exists x y, py_pow x y = Raise e.
Proof.
  intros p path2 e. induction path2 as [|q path2 IH]; intros H; [discriminate|].
  simpl in H. destruct (distance py_pow p q) as [d|e1] eqn:E; simpl in H.
  - destruct (d <? PROXIMITY_THRESHOLD)%float; [discriminate | now apply IH].
  - injection H as <-. exact (distance_raises _ _ _ E).
Qed.

Lemma count_overlap_points_raises : forall path1 path2 acc e,
  count_overlap_points py_pow path1 path2 acc = Raise e ->
  exists x y, py_pow x y = Raise e.
Proof.
  induction path1 as [|p path1 IH]; intros path2 acc e H; [discriminate|].
  simpl in H. destruct (point_covered py_pow p path2) as [c|e1] eqn:E; simpl in H.
  - exact (IH _ _ _ H).
  - injection H as <-. exact (point_covered_raises _ _ _ E).
Qed.

Lemma single_path_overlap_raises : forall path1 path2 e,
  _calculate_single_path_overlap py_pow path1 path2 = Raise e ->
  exists x y, py_pow x y = Raise e.
Proof.
  intros path1 path2 e H. unfold _calculate_single_path_overlap in H.
  destruct (is_empty path1 || is_empty path2) eqn:Em; [discriminate|].
  destruct (count_overlap_points py_pow path1 path2 0) as [k|e1] eqn:C;
    simpl in H.
  - exfalso. apply count_overlap_points_bounds in C.
    destruct (int_truediv_returns k (Z.of_nat (length path1))) as [q Hq];
      [lia | destruct path1; [discriminate | simpl; lia] | congruence].
  - injection H as <-. exact (count_overlap_points_raises _ _ _ _ C).
Qed.

Lemma overlap_inner_raises : forall user_path candidate_paths acc e,
  overlap_inner py_pow user_path candidate_paths acc = Raise e ->
  exists x y, py_pow x y = Raise e.
Proof.
  intros user_path candidate_paths.
  induction candidate_paths as [|c rest IH]; intros acc e H; [discriminate|].
  simpl in H.
  destruct (_calculate_single_path_overlap py_pow user_path c) as [o|e1] eqn:E;
    simpl in H.
  - exact (IH _ _ H).
  - injection H as <-. exact (single_path_overlap_raises _ _ _ E).
Qed.

Lemma overlap_outer_raises : forall user_paths candidate_paths acc e,
  overlap_outer py_pow user_paths candidate_paths acc = Raise e ->
  exists x y, py_pow x y = Raise e.
Proof.
  induction user_paths as [|u rest IH]; intros candidate_paths acc e H;
    [discriminate|].
  simpl in H.
  destruct (overlap_inner py_pow u candidate_paths acc) as [acc1|e1] eqn:E;
    simpl in H.
  - exact (IH _ _ _ H).
  - injection H as <-. exact (overlap_inner_raises _ _ _ _ E).
Qed.

Lemma path_overlap_raises : forall user_paths candidate_paths e,
  _calculate_path_overlap py_pow user_paths candidate_paths = Raise e ->
  exists x y, py_pow x y = Raise e.
Proof.
  intros user_paths candidate_paths e H. unfold _calculate_path_overlap in H.
  destruct (is_empty user_paths || is_empty candidate_paths); [discriminate|].
  destruct (overlap_outer py_pow user_paths candidate_paths (0%float, 0))
    as [[t n]|e1] eqn:E; simpl in H.
  - exfalso. destruct (0 <? n) eqn:Hn; [|discriminate].
    apply Z.ltb_lt in Hn. rewrite float_truediv_returns in H by exact Hn.
    discriminate.
  - injection H as <-. exact (overlap_outer_raises _ _ _ _ E).
Qed.


(** X9: [_evaluate_match] raises in two cases only: a time that is
    malformed, which gives the [ValueError] of [strptime], and the power
    operator of the distance raising, whose exception is passed on.  The
    divisions, the conversions and the comparisons of the service never
    fail: there is no division by zero, whatever the paths and classes. *)
Theorem evaluate_match_failures :
  forall (u c : Schedule) (e : exn),
    _evaluate_match py_pow u c = Raise e ->
    (e = bad_time /\ ~ times_parse (classes u) (classes c))
    \/ exists x y, py_pow x y = Raise e.
Proof.
  intros u c e H. unfold _evaluate_match in H.
  pose proof (time_proximity_code (classes u) (classes c)) as T.
  destruct (_calculate_time_proximity (classes u) (classes c)) as [tp|e1];
    simpl in H.
  - right.
    destruct (_calculate_path_overlap py_pow (walking_paths u) (walking_paths c))
      as [po|e2] eqn:P; simpl in H.
    + destruct (_ <? 0.3)%float; [discriminate|].
      destruct (_ && _); discriminate.
    + injection H as <-. exact (path_overlap_raises _ _ _ P).
  - injection H as <-. left. exact T.
Qed.

End FailureFacts.

(** ** Suggestion generation: nothing is lost *)

Lemma sorted_app_inv : forall (l1 l2 : list FriendSuggestion),
  StronglySorted score_desc (l1 ++ l2) ->
  forall x y, In x l1 -> In y l2 -> score_desc x y.
Proof.
  induction l1 as [|a l1 IH]; intros l2 H x y Hx Hy.
  - destruct Hx.
  - simpl in H. inversion H as [|? ? H1 H2]; subst.
    destruct Hx as [<-|Hx].
    + apply (proj1 (List.Forall_forall _ _) H2). apply in_or_app. now right.
    + now apply (IH l2 H1).
Qed.

Lemma eqb_key : forall x y : float,
  (x =? y)%float = true -> fkey x = fkey y.
Proof.
  intros x y H. rewrite FloatAxioms.eqb_spec in H. unfold SFeqb in H.
  destruct (SFcompare (Prim2SF x) (Prim2SF y)) as [c|] eqn:Hc; [|discriminate].
  destruct (SFcompare_nan (Prim2SF x) (Prim2SF y)) as [Hx Hy];
    [rewrite Hc; discriminate|].
  rewrite (SFcompare_key _ _ Hx Hy) in Hc. injection Hc as Hc.
  destruct c; try discriminate. now apply cmp3_Eq.
Qed.

Lemma with_score_below : forall v x l,
  (score x =? v)%float = true ->
  Forall (fun z => (score z <? score x)%float = true) l ->
  with_score v l = [].
Proof.
  intros v x l Hx. induction l as [|z l IH]; intros H; [reflexivity|].
  inversion H as [|? ? Hz H']; subst. unfold with_score in *. simpl.
  destruct (score z =? v)%float eqn:E; [|now apply IH].
  exfalso. apply eqb_key in Hx, E. apply ltb_key in Hz.
  destruct Hz as (_ & _ & Hz). rewrite E, <- Hx in Hz.
  exact (lt3_irrefl _ Hz).
Qed.

Lemma with_score_insert : forall v x l,
  StronglySorted score_desc l ->
  with_score v (insert_by_score x l) = with_score v (l ++ [x]).
Proof.
  intros v x l. induction l as [|y l IH]; intros Hs; [reflexivity|].
  inversion Hs as [|? ? Hs' Hall]; subst. cbn [insert_by_score].
  destruct (score y <? score x)%float eqn:E.
  - assert (Hb : Forall (fun z => (score z <? score x)%float = true) (y :: l)).
    { constructor; [exact E|].
      eapply List.Forall_impl; [|exact Hall].
      intros z Hz. unfold score_desc in Hz.
      apply ltb_key in E. apply leb_key in Hz.
      destruct E as (_ & Hx & E). destruct Hz as (Hz & _ & Hz').
      apply ltb_key. split; [exact Hz|]. split; [exact Hx|].
      destruct Hz' as [Hz'|Hz']; [eapply lt3_trans; eassumption | now rewrite Hz']. }
    remember (y :: l) as yl eqn:Eyl.
    unfold with_score. rewrite List.filter_app. simpl.
    destruct (score x =? v)%float eqn:Ex; cbv iota; [|now rewrite app_nil_r].
    fold (with_score v yl). now rewrite (with_score_below v x yl Ex Hb).
  - unfold with_score in *. simpl. rewrite (IH Hs'). reflexivity.
Qed.

Lemma with_score_sort_acc : forall v l acc,
  Forall positive_score l -> Forall positive_score acc ->
  StronglySorted score_desc acc ->
  with_score v (fold_left (fun a x => insert_by_score x a) l acc)
  = with_score v (acc ++ l).
Proof.
  intros v l. induction l as [|x l IH]; intros acc Hl Hacc Hs; simpl.
  - now rewrite app_nil_r.
  - inversion Hl as [|? ? Hx Hl']; subst.
    rewrite IH; [|exact Hl'| |].
    + unfold with_score. rewrite !List.filter_app.
      fold (with_score v (insert_by_score x acc)).
      rewrite (with_score_insert v x acc Hs). unfold with_score.
      rewrite List.filter_app. simpl.
      destruct (score x =? v)%float; simpl; now rewrite <- ?app_assoc.
    + apply (Permutation_Forall (insert_by_score_perm x acc)). now constructor.
    + now apply insert_by_score_sorted.
Qed.

(** X10: the exclude list handed to the population query holds the
    requesting user, the other user of every existing connection and every
    blocked user, each exactly once, and nobody else. *)
Theorem exclude_ids_exact :
  forall (conns : list connection_view) (blocks : list block_view) (uid : Z),
    NoDup (exclude_ids conns blocks uid)
    /\ In uid (exclude_ids conns blocks uid)
    /\ forall x, In x (exclude_ids conns blocks uid)
                 <-> x = uid
                     \/ In x (map other_user_id conns)
                     \/ In x (map blocked_user_id blocks).
Proof.
  intros conns blocks uid.
  assert (G : forall x, In x (exclude_ids conns blocks uid)
                        <-> x = uid
                            \/ In x (map other_user_id conns)
                            \/ In x (map blocked_user_id blocks)).
  { intros x. unfold exclude_ids.
    rewrite <- !list_elem_of_In, elem_of_elements, !elem_of_union,
      !elem_of_list_to_set, elem_of_singleton. tauto. }
  split; [unfold exclude_ids; apply NoDup_elements|].
  split; [apply G; now left | exact G].
Qed.

Section CompleteFacts.

Variable Connection : Type.
Variable py_pow : float -> float -> res float.
Variable Store : Type.
Variable handle : forall R : Type, repo_call Connection R -> Store -> res R * Store.
Variable clock : nat -> datetime.

Local Abbreviation run_it := (run Connection Store handle clock).

(** The test [score > 0] of the loop drops nothing. *)
Lemma collect_suggestions_matches : forall us cands acc,
  Forall (fun c => exists r, _evaluate_match py_pow us c = OK r) cands ->
  collect_suggestions py_pow us cands acc = OK (acc ++ matches py_pow us cands).
Proof.
  intros us cands. induction cands as [|c cands IH]; intros acc H.
  - simpl. now rewrite app_nil_r.
  - inversion H as [|? ? [r Hr] H']; subst. simpl. unfold matches in *. simpl.
    rewrite Hr. simpl. destruct r as [s|].
    + destruct (evaluate_match_score_floor py_pow us c s Hr) as [_ ->].
      rewrite IH by exact H'. now rewrite <- app_assoc.
    + now apply IH.
Qed.

Lemma matches_positive : forall us cands,
  Forall positive_score (matches py_pow us cands).
Proof.
  intros us cands. apply List.Forall_forall. intros s Hs.
  unfold matches in Hs. apply in_flat_map in Hs. destruct Hs as (c & _ & Hs).
  destruct (_evaluate_match py_pow us c) as [[s'|]|e] eqn:E;
    try (destruct Hs; fail).
  destruct Hs as [<-|[]].
  exact (proj2 (evaluate_match_score_floor py_pow us c s' E)).
Qed.

(** X11: when the four repository calls answer and every candidate is
    evaluated without error, [generate_suggestions] returns the suggestions
    that [_evaluate_match] yields over the candidates, none dropped by the
    test [score > 0], sorted and cut to the limit; it logs nothing and makes
    exactly these four calls, the population query being asked for the
    schedule's own user id.  With a limit of at least the number of
    candidates every one of these suggestions is returned. *)
Theorem generate_suggestions_complete :
  forall (uid limit : Z) (w : world Connection Store) (us : Schedule)
         (conns : list connection_view) (blocks : list block_view)
         (cands : list Schedule) (s1 s2 s3 s4 : Store),
    handle _ (get_schedule_by_user Connection uid) (w_store w)
    = (OK (Some us), s1) ->
    handle _ (get_connections Connection uid) s1 = (OK conns, s2) ->
    handle _ (get_blocked_users Connection uid) s2 = (OK blocks, s3) ->
    handle _ (get_schedules_by_university Connection (user_id us)
                (exclude_ids conns blocks uid)) s3 = (OK cands, s4) ->
    Forall (fun c => exists r, _evaluate_match py_pow us c = OK r) cands ->
    let found := matches py_pow us cands in
    run_it (generate_suggestions Connection py_pow uid limit) w
    = (OK (slice_to (sort_by_score_desc found) limit),
       {| w_store := s4; w_ticks := w_ticks w; w_log := w_log w;
          w_calls :=
            w_calls w
            ++ [Called (get_schedule_by_user Connection uid);
                Called (get_connections Connection uid);
                Called (get_blocked_users Connection uid);
                Called (get_schedules_by_university Connection (user_id us)
                          (exclude_ids conns blocks uid))] |})
    /\ (Z.of_nat (length cands) <= limit ->
        Permutation found (slice_to (sort_by_score_desc found) limit)).
Proof.
  intros uid limit w us conns blocks cands s1 s2 s3 s4 H1 H2 H3 H4 Hok found.
  split.
  - unfold generate_suggestions, call. simpl.
    rewrite H1. simpl. rewrite H2. simpl. rewrite H3. simpl. rewrite H4. simpl.
    rewrite (collect_suggestions_matches us cands [] Hok). simpl.
    rewrite <- !app_assoc. reflexivity.
  - intros Hl.
    assert (Hn : (length found <= length cands)%nat).
    { unfold found, matches. clear. induction cands as [|c cands IH]; simpl.
      - lia.
      - rewrite length_app.
        destruct (_evaluate_match py_pow us c) as [[s|]|e]; simpl; lia. }
    unfold slice_to. replace (0 <=? limit) with true
      by (symmetry; apply Z.leb_le; lia).
    rewrite firstn_all2.
    + apply sort_by_score_desc_perm.
    + rewrite <- (Permutation_length (sort_by_score_desc_perm found)). lia.
Qed.

(** X12: the limit keeps the best.  When the four repository calls answer
    and every candidate is evaluated without error, a suggestion that
    [_evaluate_match] yields for a candidate and that is not in the list
    returned has a score no higher than any suggestion that is. *)
Theorem generate_suggestions_keeps_best :
  forall (uid limit : Z) (w : world Connection Store) (us : Schedule)
         (conns : list connection_view) (blocks : list block_view)
         (cands : list Schedule) (s1 s2 s3 s4 : Store),
    handle _ (get_schedule_by_user Connection uid) (w_store w)
    = (OK (Some us), s1) ->
    handle _ (get_connections Connection uid) s1 = (OK conns, s2) ->
    handle _ (get_blocked_users Connection uid) s2 = (OK blocks, s3) ->
    handle _ (get_schedules_by_university Connection (user_id us)
                (exclude_ids conns blocks uid)) s3 = (OK cands, s4) ->
    Forall (fun c => exists r, _evaluate_match py_pow us c = OK r) cands ->
    exists l,
      fst (run_it (generate_suggestions Connection py_pow uid limit) w) = OK l
      /\ forall s, In s (matches py_pow us cands) ->
           In s l
           \/ forall x, In x l -> (score s <=? score x)%float = true.
Proof.
  intros uid limit w us conns blocks cands s1 s2 s3 s4 H1 H2 H3 H4 Hok.
  set (found := matches py_pow us cands).
  exists (slice_to (sort_by_score_desc found) limit). split.
  - unfold generate_suggestions, call. simpl.
    rewrite H1. simpl. rewrite H2. simpl. rewrite H3. simpl. rewrite H4. simpl.
    rewrite (collect_suggestions_matches us cands [] Hok). reflexivity.
  - intros s Hs.
    destruct (slice_to_prefix _ (sort_by_score_desc found) limit) as (n & -> & _).
    pose proof (sort_by_score_desc_sorted found (matches_positive us cands)) as S.
    apply (Permutation_in _ (sort_by_score_desc_perm found)) in Hs.
    rewrite <- (firstn_skipn n (sort_by_score_desc found)) in Hs, S.
    apply in_app_or in Hs. destruct Hs as [Hs|Hs].
    + left. exact Hs.
    + right. intros x Hx. exact (sorted_app_inv _ _ S x s Hx Hs).
Qed.

Lemma with_score_sort : forall us cands v,
  with_score v (sort_by_score_desc (matches py_pow us cands))
  = with_score v (matches py_pow us cands).
Proof.
  intros us cands v. unfold sort_by_score_desc.
  rewrite with_score_sort_acc; [reflexivity| | |]; try constructor.
  apply matches_positive.
Qed.

(** X13: suggestions of equal score are returned in the order of their
    candidates.  When the four repository calls answer and every candidate
    is evaluated without error, the returned suggestions of any one score
    are the first of the suggestions of that score found over the
    candidates, in the order in which the repository listed the
    candidates. *)
Theorem generate_suggestions_ties_in_order :
  forall (uid limit : Z) (w : world Connection Store) (us : Schedule)
         (conns : list connection_view) (blocks : list block_view)
         (cands : list Schedule) (s1 s2 s3 s4 : Store) (v : float),
    handle _ (get_schedule_by_user Connection uid) (w_store w)
    = (OK (Some us), s1) ->
    handle _ (get_connections Connection uid) s1 = (OK conns, s2) ->
    handle _ (get_blocked_users Connection uid) s2 = (OK blocks, s3) ->
    handle _ (get_schedules_by_university Connection (user_id us)
                (exclude_ids conns blocks uid)) s3 = (OK cands, s4) ->
    Forall (fun c => exists r, _evaluate_match py_pow us c = OK r) cands ->
    exists l later,
      fst (run_it (generate_suggestions Connection py_pow uid limit) w) = OK l
      /\ with_score v (matches py_pow us cands) = with_score v l ++ later.
Proof.
  intros uid limit w us conns blocks cands s1 s2 s3 s4 v H1 H2 H3 H4 Hok.
  set (found := matches py_pow us cands).
  destruct (slice_to_prefix _ (sort_by_score_desc found) limit) as (k & E & _).
  exists (slice_to (sort_by_score_desc found) limit),
         (with_score v (skipn k (sort_by_score_desc found))).
  split.
  - unfold generate_suggestions, call. simpl.
    rewrite H1. simpl. rewrite H2. simpl. rewrite H3. simpl. rewrite H4. simpl.
    rewrite (collect_suggestions_matches us cands [] Hok). reflexivity.
  - rewrite E. unfold found. rewrite <- with_score_sort.
    unfold with_score. rewrite <- List.filter_app, firstn_skipn. reflexivity.
Qed.

(** X14: how many suggestions are returned.  When the four repository calls
    answer and every candidate is evaluated without error, with [n]
    suggestions found, a limit that is not negative returns the smaller of
    [limit] and [n], so none for a limit of 0; a negative limit raises
    nothing and returns all but the last [-limit] of the sorted suggestions,
    none if there are no more than that. *)
Theorem generate_suggestions_count :
  forall (uid limit : Z) (w : world Connection Store) (us : Schedule)
         (conns : list connection_view) (blocks : list block_view)
         (cands : list Schedule) (s1 s2 s3 s4 : Store),
    handle _ (get_schedule_by_user Connection uid) (w_store w)
    = (OK (Some us), s1) ->
    handle _ (get_connections Connection uid) s1 = (OK conns, s2) ->
    handle _ (get_blocked_users Connection uid) s2 = (OK blocks, s3) ->
    handle _ (get_schedules_by_university Connection (user_id us)
                (exclude_ids conns blocks uid)) s3 = (OK cands, s4) ->
    Forall (fun c => exists r, _evaluate_match py_pow us c = OK r) cands ->
    let n := Z.of_nat (length (matches py_pow us cands)) in
    exists l,
      fst (run_it (generate_suggestions Connection py_pow uid limit) w) = OK l
      /\ Z.of_nat (length l)
         = (if 0 <=? limit then Z.min limit n else Z.max 0 (n + limit))
      /\ exists dropped,
           sort_by_score_desc (matches py_pow us cands) = l ++ dropped.
Proof.
  intros uid limit w us conns blocks cands s1 s2 s3 s4 H1 H2 H3 H4 Hok n.
  set (found := matches py_pow us cands) in *.
  exists (slice_to (sort_by_score_desc found) limit). split; [|split].
  - unfold generate_suggestions, call. simpl.
    rewrite H1. simpl. rewrite H2. simpl. rewrite H3. simpl. rewrite H4. simpl.
    rewrite (collect_suggestions_matches us cands [] Hok). reflexivity.
  - pose proof (Permutation_length (sort_by_score_desc_perm found)) as P.
    unfold slice_to. destruct (0 <=? limit) eqn:E.
    + rewrite length_firstn. apply Z.leb_le in E. unfold n. lia.
    + rewrite length_firstn. apply Z.leb_gt in E. unfold n. lia.
  - destruct (slice_to_prefix _ (sort_by_score_desc found) limit) as (k & -> & _).
    exists (skipn k (sort_by_score_desc found)).
    symmetry. apply firstn_skipn.
Qed.



End CompleteFacts.

(** ** The service: failures, traces and what is left untouched *)

Section ServiceTraces.

Variable Connection : Type.
Variable py_pow : float -> float -> res float.
Variable Store : Type.
Variable handle : forall R : Type, repo_call Connection R -> Store -> res R * Store.
Variable clock : nat -> datetime.

Local Abbreviation run_it := (run Connection Store handle clock).

Lemma persisted_app : forall (l1 l2 : list (event Connection)),
  persisted (l1 ++ l2) = persisted l1 ++ persisted l2.
Proof. intros. unfold persisted. apply flat_map_app. Qed.

(** X16: when a repository call of [generate_suggestions] raises, the
    exception reaches the caller unchanged, one error record carrying it is
    logged, and no further repository call is made. *)
Theorem generate_suggestions_repository_failure :
  forall (uid limit : Z) (w : world Connection Store) (e : exn),
    let out := run_it (generate_suggestions Connection py_pow uid limit) w in
    let failed_after (s : Store) (made : list (event Connection)) :=
      out = (Raise e,
             {| w_store := s; w_ticks := w_ticks w;
                w_log := w_log w ++ [error_generating_suggestions uid e];
                w_calls := w_calls w ++ made |}) in
    (forall s1,
        handle _ (get_schedule_by_user Connection uid) (w_store w)
        = (Raise e, s1) ->
        failed_after s1 [Called (get_schedule_by_user Connection uid)])
    /\ (forall us s1 s2,
        handle _ (get_schedule_by_user Connection uid) (w_store w)
        = (OK (Some us), s1) ->
        handle _ (get_connections Connection uid) s1 = (Raise e, s2) ->
        failed_after s2 [Called (get_schedule_by_user Connection uid);
                         Called (get_connections Connection uid)])
    /\ (forall us s1 conns s2 s3,
        handle _ (get_schedule_by_user Connection uid) (w_store w)
        = (OK (Some us), s1) ->
        handle _ (get_connections Connection uid) s1 = (OK conns, s2) ->
        handle _ (get_blocked_users Connection uid) s2 = (Raise e, s3) ->
        failed_after s3 [Called (get_schedule_by_user Connection uid);
                         Called (get_connections Connection uid);
                         Called (get_blocked_users Connection uid)])
    /\ (forall us s1 conns s2 blocks s3 s4,
        handle _ (get_schedule_by_user Connection uid) (w_store w)
        = (OK (Some us), s1) ->
        handle _ (get_connections Connection uid) s1 = (OK conns, s2) ->
        handle _ (get_blocked_users Connection uid) s2 = (OK blocks, s3) ->
        handle _ (get_schedules_by_university Connection (user_id us)
                    (exclude_ids conns blocks uid)) s3 = (Raise e, s4) ->
        failed_after s4
          [Called (get_schedule_by_user Connection uid);
           Called (get_connections Connection uid);
           Called (get_blocked_users Connection uid);
           Called (get_schedules_by_university Connection (user_id us)
                     (exclude_ids conns blocks uid))]).
Proof.
  intros uid limit w e out failed_after. subst out failed_after.
  unfold generate_suggestions, call.
  repeat split; intros; simpl;
    repeat match goal with
           | H : handle _ ?c ?s = _ |- context [handle _ ?c ?s] =>
               rewrite H; simpl
           end;
    rewrite <- ?app_assoc; reflexivity.
Qed.

Lemma collect_suggestions_failure : forall us cands1 c cands2 acc e,
  Forall (fun c' => exists r, _evaluate_match py_pow us c' = OK r) cands1 ->
  _evaluate_match py_pow us c = Raise e ->
  collect_suggestions py_pow us (cands1 ++ c :: cands2) acc = Raise e.
Proof.
  intros us cands1 c cands2. induction cands1 as [|c1 cands1 IH];
    intros acc e Hok Hbad; simpl.
  - rewrite Hbad. reflexivity.
  - inversion Hok as [|? ? [r Hr] Hok']; subst. rewrite Hr. simpl.
    now apply IH.
Qed.

(** X17: when the repository calls answer and the evaluation of one
    candidate schedule raises (a malformed time, say) after the candidates
    before it were evaluated without error, the whole request raises that
    exception, whatever the candidates before it were worth: no suggestion
    is returned, and the error is logged once. *)
Theorem generate_suggestions_candidate_failure :
  forall (uid limit : Z) (w : world Connection Store) (us : Schedule)
         (conns : list connection_view) (blocks : list block_view)
         (cands1 cands2 : list Schedule) (c : Schedule)
         (s1 s2 s3 s4 : Store) (e : exn),
    handle _ (get_schedule_by_user Connection uid) (w_store w)
    = (OK (Some us), s1) ->
    handle _ (get_connections Connection uid) s1 = (OK conns, s2) ->
    handle _ (get_blocked_users Connection uid) s2 = (OK blocks, s3) ->
    handle _ (get_schedules_by_university Connection (user_id us)
                (exclude_ids conns blocks uid)) s3
    = (OK (cands1 ++ c :: cands2), s4) ->
    Forall (fun c' => exists r, _evaluate_match py_pow us c' = OK r) cands1 ->
    _evaluate_match py_pow us c = Raise e ->
    let out := run_it (generate_suggestions Connection py_pow uid limit) w in
    fst out = Raise e
    /\ w_log (snd out) = w_log w ++ [error_generating_suggestions uid e]
    /\ w_store (snd out) = s4.
Proof.
  intros uid limit w us conns blocks cands1 cands2 c s1 s2 s3 s4 e
         H1 H2 H3 H4 Hok Hbad out. subst out.
  unfold generate_suggestions, call. simpl.
  rewrite H1. simpl. rewrite H2. simpl. rewrite H3. simpl. rewrite H4. simpl.
  rewrite (collect_suggestions_failure us cands1 c cands2 [] e Hok Hbad).
  simpl. auto.
Qed.

Local Ltac trace_done :=
  rewrite <- ?app_assoc; rewrite ?persisted_app; simpl; rewrite ?app_nil_r;
  split; [reflexivity|]; split; [reflexivity|]; split;
  [ eexists; split; [reflexivity|]; split; [simpl; lia | reflexivity]
  | first [ exists []; split; [symmetry; apply app_nil_r | simpl; lia]
          | eexists; split; [reflexivity | simpl; lia] ] ].

(** X15: [generate_suggestions] only reads.  Whatever the repositories
    answer, and whether it returns or raises, it makes at most four
    repository calls, all of them lookups, never asks for a connection to be
    created, never reads the clock, and logs at most one record. *)
Theorem generate_suggestions_read_only :
  forall (uid limit : Z) (w : world Connection Store),
    let out := run_it (generate_suggestions Connection py_pow uid limit) w in
    w_ticks (snd out) = w_ticks w
    /\ persisted (w_calls (snd out)) = persisted (w_calls w)
    /\ (exists made,
          w_calls (snd out) = w_calls w ++ made
          /\ (length made <= 4)%nat
          /\ forallb is_lookup made = true)
    /\ (exists logged,
          w_log (snd out) = w_log w ++ logged /\ (length logged <= 1)%nat).
Proof.
  intros uid limit w out. subst out.
  unfold generate_suggestions, call. simpl.
  destruct (handle _ (get_schedule_by_user Connection uid) (w_store w))
    as [[[us|]|e] s1]; simpl; [|trace_done..].
  destruct (handle _ (get_connections Connection uid) s1)
    as [[conns|e] s2]; simpl; [|trace_done].
  destruct (handle _ (get_blocked_users Connection uid) s2)
    as [[blocks|e] s3]; simpl; [|trace_done].
  destruct (handle _ (get_schedules_by_university Connection (user_id us)
                        (exclude_ids conns blocks uid)) s3)
    as [[cands|e] s4]; simpl; [|trace_done].
  destruct (collect_suggestions py_pow us cands []) as [sugg|e]; simpl;
    trace_done.
Qed.

(** X19: every run of [create_connection_request] logs exactly one record.
    When it returns, that is the info record of the request, the clock was
    read once and one pending connection was handed to the repository.  When
    it raises, that is an error record carrying the exception raised, the
    service's own [ValueError]s included; the clock is read at most once, and
    a connection was handed to the repository only if [create_connection]
    itself is what raised. *)
Theorem create_connection_request_log :
  forall (a b : Z) (w : world Connection Store),
    let out := run_it (create_connection_request Connection a b) w in
    match fst out with
    | OK _ =>
        w_log (snd out) = w_log w ++ [info_connection_request a b]
        /\ w_ticks (snd out) = S (w_ticks w)
        /\ persisted (w_calls (snd out))
           = persisted (w_calls w) ++ [(a, b, "pending", clock (w_ticks w))]
    | Raise e =>
        w_log (snd out) = w_log w ++ [error_creating_connection_request e]
        /\ ((w_ticks (snd out) = w_ticks w
             /\ persisted (w_calls (snd out)) = persisted (w_calls w))
            \/ (w_ticks (snd out) = S (w_ticks w)
                /\ persisted (w_calls (snd out))
                   = persisted (w_calls w)
                     ++ [(a, b, "pending", clock (w_ticks w))]
                /\ exists s s',
                     handle _ (create_connection Connection a b "pending"
                                 (clock (w_ticks w))) s = (Raise e, s')))
    end.
Proof.
  intros a b w out. subst out.
  unfold create_connection_request, _is_blocked, call. simpl.
  destruct (handle _ (get_connection_between Connection a b) (w_store w))
    as [[[c|]|e] s1]; simpl;
    [ rewrite persisted_app; simpl; rewrite app_nil_r; auto | |
      rewrite persisted_app; simpl; rewrite app_nil_r; auto ].
  destruct (handle _ (is_blocked Connection a b) s1) as [[[|]|e] s2]; simpl;
    [ rewrite !persisted_app; simpl; rewrite !app_nil_r; auto | |
      rewrite !persisted_app; simpl; rewrite !app_nil_r; auto ].
  destruct (handle _ (is_blocked Connection b a) s2) as [[[|]|e] s3]; simpl;
    [ rewrite !persisted_app; simpl; rewrite !app_nil_r; auto | |
      rewrite !persisted_app; simpl; rewrite !app_nil_r; auto ].
  destruct (handle _ (create_connection Connection a b "pending"
                        (clock (w_ticks w))) s3) as [[c|e] s4] eqn:H4; simpl;
    rewrite !persisted_app; simpl; rewrite !app_nil_r.
  - auto.
  - split; [reflexivity|]. right. eauto.
Qed.

(** X20: when a repository call of [create_connection_request] raises, the
    exception reaches the caller unchanged and no further repository call is
    made: a failing lookup leaves nothing handed to [create_connection]. *)
Theorem create_connection_request_repository_failure :
  forall (a b : Z) (w : world Connection Store) (e : exn),
    let out := run_it (create_connection_request Connection a b) w in
    let failed_after (s : Store) (made : list (event Connection)) :=
      fst out = Raise e
      /\ w_store (snd out) = s
      /\ w_calls (snd out) = w_calls w ++ made in
    (forall s1,
        handle _ (get_connection_between Connection a b) (w_store w)
        = (Raise e, s1) ->
        failed_after s1 [Called (get_connection_between Connection a b)])
    /\ (forall s1 s2,
        handle _ (get_connection_between Connection a b) (w_store w)
        = (OK None, s1) ->
        handle _ (is_blocked Connection a b) s1 = (Raise e, s2) ->
        failed_after s2 [Called (get_connection_between Connection a b);
                         Called (is_blocked Connection a b)])
    /\ (forall s1 s2 s3,
        handle _ (get_connection_between Connection a b) (w_store w)
        = (OK None, s1) ->
        handle _ (is_blocked Connection a b) s1 = (OK false, s2) ->
        handle _ (is_blocked Connection b a) s2 = (Raise e, s3) ->
        failed_after s3 [Called (get_connection_between Connection a b);
                         Called (is_blocked Connection a b);
                         Called (is_blocked Connection b a)])
    /\ (forall s1 s2 s3 s4,
        handle _ (get_connection_between Connection a b) (w_store w)
        = (OK None, s1) ->
        handle _ (is_blocked Connection a b) s1 = (OK false, s2) ->
        handle _ (is_blocked Connection b a) s2 = (OK false, s3) ->
        handle _ (create_connection Connection a b "pending"
                    (clock (w_ticks w))) s3 = (Raise e, s4) ->
        failed_after s4 [Called (get_connection_between Connection a b);
                         Called (is_blocked Connection a b);
                         Called (is_blocked Connection b a);
                         Called (create_connection Connection a b "pending"
                                   (clock (w_ticks w)))]).
Proof.
  intros a b w e out failed_after. subst out failed_after.
  unfold create_connection_request, _is_blocked, call.
  repeat split; intros; simpl;
    repeat match goal with
           | H : handle _ ?c ?s = _ |- context [handle _ ?c ?s] =>
               rewrite H; simpl
           end;
    rewrite <- ?app_assoc; reflexivity.
Qed.

(** X22: [_is_blocked] answers whether either user has blocked the other.
    When the two lookups answer and leave the store as it is, the verdict is
    their disjunction and does not depend on which user is named first; and
    when the first lookup already says yes, the second is not made. *)
Theorem is_blocked_either_direction :
  forall (a b : Z) (w : world Connection Store) (r1 r2 : bool),
    handle _ (is_blocked Connection a b) (w_store w) = (OK r1, w_store w) ->
    handle _ (is_blocked Connection b a) (w_store w) = (OK r2, w_store w) ->
    fst (run_it (_is_blocked Connection a b) w) = OK (r1 || r2)
    /\ fst (run_it (_is_blocked Connection b a) w) = OK (r1 || r2)
    /\ (r1 = true ->
        w_calls (snd (run_it (_is_blocked Connection a b) w))
        = w_calls w ++ [Called (is_blocked Connection a b)]).
Proof.
  intros a b w r1 r2 H1 H2. unfold _is_blocked, call. simpl.
  rewrite H1, H2. destruct r1, r2; simpl; rewrite ?H1, ?H2; simpl; auto;
    repeat split; try reflexivity; discriminate.
Qed.

Lemma create_connection_request_inv : forall a b w c w',
  run_it (create_connection_request Connection a b) w = (OK c, w') ->
  exists s1 s2 s3,
    handle _ (get_connection_between Connection a b) (w_store w) = (OK None, s1)
    /\ handle _ (is_blocked Connection a b) s1 = (OK false, s2)
    /\ handle _ (is_blocked Connection b a) s2 = (OK false, s3)
    /\ handle _ (create_connection Connection a b "pending" (clock (w_ticks w)))
         s3 = (OK c, w_store w').
Proof.
  intros a b w c w' H.
  unfold create_connection_request, _is_blocked, call in H. simpl in H.
  destruct (handle _ (get_connection_between Connection a b) (w_store w))
    as [[[c0|]|e] s1] eqn:H1; simpl in H; try discriminate.
  destruct (handle _ (is_blocked Connection a b) s1) as [[[|]|e] s2] eqn:H2;
    simpl in H; try discriminate.
  destruct (handle _ (is_blocked Connection b a) s2) as [[[|]|e] s3] eqn:H3;
    simpl in H; try discriminate.
  destruct (handle _ (create_connection Connection a b "pending"
                        (clock (w_ticks w))) s3) as [[c1|e] s4] eqn:H4;
    simpl in H; try discriminate.
  injection H as E1 E2. subst. simpl.
  exists s1, s2, s3. auto.
Qed.

(** X21: a request that follows a successful one is refused.  If the
    repository finds, for the pair [(x, y)], the connection it has just
    created for [(a, b)], then [create_connection_request x y] right after
    a successful [create_connection_request a b] raises the conflict
    [ValueError] and hands nothing more to [create_connection]. *)
Theorem create_connection_request_repeated :
  forall (a b x y : Z) (w w1 : world Connection Store) (c : Connection),
    (forall st t s c0 s',
        handle _ (create_connection Connection a b st t) s = (OK c0, s') ->
        exists c' s'',
          handle _ (get_connection_between Connection x y) s'
          = (OK (Some c'), s'')) ->
    run_it (create_connection_request Connection a b) w = (OK c, w1) ->
    let out := run_it (create_connection_request Connection x y) w1 in
    fst out = Raise (ValueError "Connection already exists or is pending")
    /\ persisted (w_calls (snd out)) = persisted (w_calls w1).
Proof.
  intros a b x y w w1 c Hrepo Hrun out. subst out.
  destruct (create_connection_request_inv a b w c w1 Hrun)
    as (s1 & s2 & s3 & _ & _ & _ & H4).
  destruct (Hrepo _ _ _ _ _ H4) as (c' & s'' & H).
  unfold create_connection_request, call. simpl. rewrite H. simpl.
  rewrite persisted_app. simpl. rewrite app_nil_r. auto.
Qed.

End ServiceTraces.

(** ** The theorems at the schedules of [demo_run.py] and at the examples *)

(** C1 at Henry and Ivy: one shared course, no path, no time proximity; the
    score is exactly 0.4 and the pair is suggested. *)
Lemma evaluate_match_score_witness :
  exists s, _evaluate_match ieee_pow henry ivy = OK (Some s)
            /\ score s = 0.4%float.
Proof.
  apply (proj1 (proj2 (proj2 (evaluate_match_score ieee_pow henry ivy))) (-1)).
  - vm_compute. reflexivity.
  - vm_compute. reflexivity.
  - vm_compute. reflexivity.
  - lia.
Defined.

(** C2 at Frank and Grace: no shared course and a path overlap of exactly
    0.30.  With a class of Grace starting 10 minutes after Frank's ends the
    pair is suggested; with Frank's class on another day it is not. *)
Lemma evaluate_match_rejection_witness :
  (length (shared_courses frank grace) = 0%nat
   /\ _calculate_path_overlap ieee_pow (walking_paths frank) (walking_paths grace)
      = OK 0.30%float
   /\ _calculate_time_proximity (classes frank) (classes grace) = OK 10
   /\ ~ (_evaluate_match ieee_pow frank grace = OK None))
  /\ (_calculate_time_proximity (classes frank_on_tuesday) (classes grace)
      = OK (-1)
      /\ _evaluate_match ieee_pow frank_on_tuesday grace = OK None).
Proof.
  assert (S1 : length (shared_courses frank grace) = 0%nat)
    by (vm_compute; reflexivity).
  assert (P1 : _calculate_path_overlap ieee_pow (walking_paths frank)
                 (walking_paths grace) = OK 0.30%float)
    by (vm_compute; reflexivity).
  assert (T1 : _calculate_time_proximity (classes frank) (classes grace) = OK 10)
    by (vm_compute; reflexivity).
  assert (T2 : _calculate_time_proximity (classes frank_on_tuesday)
                 (classes grace) = OK (-1))
    by (vm_compute; reflexivity).
  split.
  - split; [exact S1|]. split; [exact P1|]. split; [exact T1|].
    destruct (evaluate_match_rejection ieee_pow frank grace 10 0.30%float T1 P1)
      as (_ & _ & H & _).
    destruct (H S1 eq_refl) as [_ H']. intros E. apply H' in E. lia.
  - split; [exact T2|].
    destruct (evaluate_match_rejection ieee_pow frank_on_tuesday grace (-1)
                0.30%float T2 P1) as (_ & _ & H & _).
    destruct (H S1 eq_refl) as [_ H']. apply H'. lia.
Defined.

(** C3 at Alice and Bob: Bob's ENG202 starts at 10:30, Alice's CS101 ends at
    10:15; the minimum is exactly 15 and it is returned. *)
Lemma time_proximity_meets_spec_witness :
  _calculate_time_proximity (classes alice) (classes bob) = OK 15
  /\ time_proximity_spec (classes alice) (classes bob) = 15
  /\ minimum (same_day_gaps (classes alice) (classes bob)) = Some 15.
Proof.
  assert (H : _calculate_time_proximity (classes alice) (classes bob) = OK 15)
    by (vm_compute; reflexivity).
  split; [exact H|]. split.
  - symmetry.
    exact (proj1 (time_proximity_meets_spec (classes alice) (classes bob)) 15 H).
  - vm_compute. reflexivity.
Defined.

(** C4 at [demo_run.py]: Alice's suggestions with limit 10, the population
    query returning Bob and Charlie. *)
Lemma generate_suggestions_result_witness :
  Forall positive_score demo_suggestions
  /\ StronglySorted score_desc demo_suggestions
  /\ Z.of_nat (length demo_suggestions) <= 10
  /\ Forall (fun s => suggested_user_id s <> 1) demo_suggestions
  /\ map suggested_user_id demo_suggestions = [2].
Proof.
  pose (w := fresh_world (Connection := mock_connection) tt).
  assert (Hrun : run mock_connection unit mock_handle demo_clock
                   (generate_suggestions mock_connection ieee_pow 1 10) w
                 = (OK demo_suggestions,
                    snd (run mock_connection unit mock_handle demo_clock
                           (generate_suggestions mock_connection ieee_pow 1 10)
                           w)))
    by (vm_compute; reflexivity).
  destruct (generate_suggestions_result mock_connection ieee_pow unit
              mock_handle demo_clock 1 10 w _ demo_suggestions
              ltac:(lia) Hrun) as (H1 & H2 & H3 & H4).
  split; [exact H1|]. split; [exact H2|]. split; [exact H3|].
  split; [|vm_compute; reflexivity].
  specialize (H4 alice tt [] tt [] tt [bob; charlie] tt
                eq_refl eq_refl eq_refl eq_refl).
  eapply List.Forall_impl; [|apply H4].
  - intros s (Hs & _). exact Hs.
  - repeat constructor; vm_compute; intros [E|[]]; discriminate.
Defined.

(** C5 at [demo_run.py]: user 2 has no schedule in the mock repository. *)
Lemma generate_suggestions_no_schedule_witness :
  fst (run mock_connection unit mock_handle demo_clock
         (generate_suggestions mock_connection ieee_pow 2 10)
         (fresh_world tt))
  = OK [].
Proof.
  rewrite (generate_suggestions_no_schedule mock_connection ieee_pow unit
             mock_handle demo_clock 2 10 (fresh_world tt) tt eq_refl).
  reflexivity.
Defined.

(** C6 at Alice and Bob (every point of Alice's path is close to Bob's) and
    at Frank and Grace (three points of ten). *)
Lemma path_overlap_range_witness :
  (_calculate_path_overlap ieee_pow (walking_paths alice) (walking_paths bob)
   = OK 1%float
   /\ (0 <=? 1)%float = true /\ (1 <=? 1)%float = true)
  /\ (_calculate_path_overlap ieee_pow (walking_paths frank) (walking_paths grace)
      = OK 0.30%float
      /\ (0 <=? 0.30 * 100)%float = true /\ (0.30 * 100 <=? 100)%float = true).
Proof.
  assert (P1 : _calculate_path_overlap ieee_pow (walking_paths alice)
                 (walking_paths bob) = OK 1%float) by (vm_compute; reflexivity).
  assert (P2 : _calculate_path_overlap ieee_pow (walking_paths frank)
                 (walking_paths grace) = OK 0.30%float)
    by (vm_compute; reflexivity).
  split.
  - split; [exact P1|].
    destruct (proj1 (path_overlap_range ieee_pow alice bob) 1%float P1)
      as (H1 & H2 & _). split; assumption.
  - split; [exact P2|].
    destruct (proj1 (path_overlap_range ieee_pow frank grace) 0.30%float P2)
      as (_ & _ & H3 & H4). split; assumption.
Defined.

(** C7 on the in-memory repository: a request from user 1 to user 2 is a
    conflict when the two are connected, and when user 2 has blocked user 1
    (the reverse direction); on an empty store it persists one pending
    connection. *)
Lemma create_connection_request_outcomes_witness :
  (fst (run mock_connection memory_store memory_handle demo_clock
          (create_connection_request mock_connection 1 2)
          (fresh_world store_connected))
   = Raise (ValueError "Connection already exists or is pending"))
  /\ (fst (run mock_connection memory_store memory_handle demo_clock
             (create_connection_request mock_connection 1 2)
             (fresh_world store_blocked))
      = Raise (ValueError "Cannot connect with blocked user"))
  /\ (persisted
        (w_calls (snd (run mock_connection memory_store memory_handle demo_clock
                         (create_connection_request mock_connection 1 2)
                         (fresh_world store_empty))))
      = [(1, 2, "pending", demo_clock 0)]).
Proof.
  split; [|split].
  - destruct (create_connection_request_outcomes mock_connection memory_store
                memory_handle demo_clock 1 2 (fresh_world store_connected))
      as (H & _).
    exact (proj1 (H _ _ eq_refl)).
  - destruct (create_connection_request_outcomes mock_connection memory_store
                memory_handle demo_clock 1 2 (fresh_world store_blocked))
      as (_ & _ & H & _).
    exact (proj1 (H _ _ _ eq_refl eq_refl eq_refl)).
  - destruct (create_connection_request_outcomes mock_connection memory_store
                memory_handle demo_clock 1 2 (fresh_world store_empty))
      as (_ & _ & _ & H).
    exact (proj1 (proj2 (H _ _ _ _ _ eq_refl eq_refl eq_refl eq_refl))).
Defined.

(** C8 as the claim words it fails.  On the in-memory repository, after
    user 1 has asked to connect with user 2, connection 1 is stored as
    pending; [accept_connection 1 2] returns a record with status accepted,
    and the stored connection is pending as before: it is not stored as
    accepted, and a lookup of the pair still returns it as pending. *)
Lemma accept_connection_leaves_pending :
  let pending :=
    {| mc_id := 1; mc_user1_id := 1; mc_user2_id := 2;
       mc_status := "pending"; mc_suggested_at := demo_clock 0 |} in
  let w1 := snd (run mock_connection memory_store memory_handle demo_clock
                   (create_connection_request mock_connection 1 2)
                   (fresh_world store_empty)) in
  let out := run mock_connection memory_store memory_handle demo_clock
               (accept_connection mock_connection 1 2) w1 in
  ms_connections (w_store w1) = [pending]
  /\ fst out = OK {| AcceptedConnection.id := 1;
                     AcceptedConnection.status := "accepted";
                     AcceptedConnection.connected_at := demo_clock 1 |}
  /\ ms_connections (w_store (snd out)) = [pending]
  /\ fst (memory_handle _ (get_connection_between mock_connection 1 2)
            (w_store (snd out))) = OK (Some pending)
  /\ ~ stored_as_accepted (w_store (snd out)) 1.
Proof.
  intros pending w1 out.
  split; [reflexivity|]. split; [reflexivity|]. split; [reflexivity|].
  split; [reflexivity|].
  intros (c & Hin & _ & Hst).
  change (ms_connections (w_store (snd out))) with [pending] in Hin.
  destruct Hin as [<-|[]]. discriminate.
Qed.

(** X16 at the repositories of [demo_run.py] behind a connection that fails
    at once, after one call, after two and after three. *)
Lemma generate_suggestions_repository_failure_witness :
  let e := CollaboratorFailure "repository unavailable" in
  let failed_at (budget : nat) :=
    fst (run mock_connection nat outage_handle demo_clock
           (generate_suggestions mock_connection ieee_pow 1 10)
           (fresh_world budget)) = Raise e in
  failed_at 0%nat /\ failed_at 1%nat /\ failed_at 2%nat /\ failed_at 3%nat.
Proof.
  intros e failed_at. subst failed_at. cbv beta.
  split; [|split; [|split]].
  - destruct (generate_suggestions_repository_failure mock_connection ieee_pow
                nat outage_handle demo_clock 1 10 (fresh_world 0%nat) e)
      as (H & _).
    rewrite (H _ eq_refl). reflexivity.
  - destruct (generate_suggestions_repository_failure mock_connection ieee_pow
                nat outage_handle demo_clock 1 10 (fresh_world 1%nat) e)
      as (_ & H & _).
    rewrite (H _ _ _ eq_refl eq_refl). reflexivity.
  - destruct (generate_suggestions_repository_failure mock_connection ieee_pow
                nat outage_handle demo_clock 1 10 (fresh_world 2%nat) e)
      as (_ & _ & H & _).
    rewrite (H _ _ _ _ _ eq_refl eq_refl eq_refl). reflexivity.
  - destruct (generate_suggestions_repository_failure mock_connection ieee_pow
                nat outage_handle demo_clock 1 10 (fresh_world 3%nat) e)
      as (_ & _ & _ & H).
    rewrite (H _ _ _ _ _ _ _ eq_refl eq_refl eq_refl eq_refl). reflexivity.
Defined.

(** X17 with Bob and then Mallory as the candidates: Bob is a match, and
    Mallory's start time makes the request fail. *)
Lemma generate_suggestions_candidate_failure_witness :
  _evaluate_match ieee_pow alice mallory = Raise bad_time
  /\ fst (run mock_connection unit (population_handle [bob; mallory]) demo_clock
            (generate_suggestions mock_connection ieee_pow 1 10)
            (fresh_world tt))
     = Raise bad_time.
Proof.
  assert (Hbad : _evaluate_match ieee_pow alice mallory = Raise bad_time)
    by (vm_compute; reflexivity).
  split; [exact Hbad|].
  refine (proj1 (generate_suggestions_candidate_failure mock_connection ieee_pow
                   unit (population_handle [bob; mallory]) demo_clock 1 10
                   (fresh_world tt) alice [] [] [bob] [] mallory tt tt tt tt
                   bad_time eq_refl eq_refl eq_refl eq_refl _ Hbad)).
  constructor; [|constructor]. eexists. vm_compute. reflexivity.
Defined.

(** X20 at the repositories of [demo_run.py] behind a connection that fails
    at once, and after three calls, when the connection is to be created. *)
Lemma create_connection_request_repository_failure_witness :
  let e := CollaboratorFailure "repository unavailable" in
  fst (run mock_connection nat outage_handle demo_clock
         (create_connection_request mock_connection 1 2) (fresh_world 0%nat))
  = Raise e
  /\ fst (run mock_connection nat outage_handle demo_clock
            (create_connection_request mock_connection 1 2)
            (fresh_world 3%nat))
     = Raise e.
Proof.
  intros e. split.
  - destruct (create_connection_request_repository_failure mock_connection nat
                outage_handle demo_clock 1 2 (fresh_world 0%nat) e) as (H & _).
    exact (proj1 (H _ eq_refl)).
  - destruct (create_connection_request_repository_failure mock_connection nat
                outage_handle demo_clock 1 2 (fresh_world 3%nat) e)
      as (_ & _ & _ & H).
    exact (proj1 (H _ _ _ _ eq_refl eq_refl eq_refl eq_refl)).
Defined.

(** X22 on the in-memory repository where user 2 has blocked user 1: the
    verdict is yes for the pair named either way round. *)
Lemma is_blocked_either_direction_witness :
  fst (run mock_connection memory_store memory_handle demo_clock
         (_is_blocked mock_connection 1 2) (fresh_world store_blocked))
  = OK true
  /\ fst (run mock_connection memory_store memory_handle demo_clock
            (_is_blocked mock_connection 2 1) (fresh_world store_blocked))
     = OK true.
Proof.
  destruct (is_blocked_either_direction mock_connection memory_store
              memory_handle demo_clock 1 2 (fresh_world store_blocked)
              false true eq_refl eq_refl) as (H1 & H2 & _).
  split; assumption.
Defined.

Lemma memory_handle_finds_created : forall a b st t s c0 s',
  memory_handle _ (create_connection mock_connection a b st t) s = (OK c0, s') ->
  (exists c' s'',
     memory_handle _ (get_connection_between mock_connection a b) s'
     = (OK (Some c'), s''))
  /\ (exists c' s'',
        memory_handle _ (get_connection_between mock_connection b a) s'
        = (OK (Some c'), s'')).
Proof.
  intros a b st t s c0 s' H. simpl in H. injection H as <- <-. simpl.
  split.
  - destruct (find (links a b) _) as [c'|] eqn:F; [eauto|].
    exfalso. eapply find_none in F; [|apply in_or_app; right; left; reflexivity].
    unfold links in F. simpl in F. rewrite !Z.eqb_refl in F. discriminate.
  - destruct (find (links b a) _) as [c'|] eqn:F; [eauto|].
    exfalso. eapply find_none in F; [|apply in_or_app; right; left; reflexivity].
    unfold links in F. simpl in F. rewrite !Z.eqb_refl in F.
    rewrite orb_true_r in F. discriminate.
Qed.

(** X21 on the in-memory repository with nothing recorded: after user 1 has
    asked to connect with user 2, a second request is a conflict, from
    user 1 and from user 2 alike. *)
Lemma create_connection_request_repeated_witness :
  let w1 := snd (run mock_connection memory_store memory_handle demo_clock
                   (create_connection_request mock_connection 1 2)
                   (fresh_world store_empty)) in
  fst (run mock_connection memory_store memory_handle demo_clock
         (create_connection_request mock_connection 1 2) w1)
  = Raise (ValueError "Connection already exists or is pending")
  /\ fst (run mock_connection memory_store memory_handle demo_clock
            (create_connection_request mock_connection 2 1) w1)
     = Raise (ValueError "Connection already exists or is pending").
Proof.
  intros w1. split.
  - refine (proj1 (create_connection_request_repeated mock_connection
                     memory_store memory_handle demo_clock 1 2 1 2
                     (fresh_world store_empty) w1 _ _ eq_refl)).
    intros st t s c0 s' H.
    exact (proj1 (memory_handle_finds_created 1 2 st t s c0 s' H)).
  - refine (proj1 (create_connection_request_repeated mock_connection
                     memory_store memory_handle demo_clock 1 2 2 1
                     (fresh_world store_empty) w1 _ _ eq_refl)).
    intros st t s c0 s' H.
    exact (proj2 (memory_handle_finds_created 1 2 st t s c0 s' H)).
Defined.

(** X6 at Alice and Bob. *)
Lemma evaluate_match_suggestion_fields_witness :
  exists s, _evaluate_match ieee_pow alice bob = OK (Some s)
            /\ suggested_user_id s = 2
            /\ (0.3 <=? score s)%float = true
            /\ NoDup (shared_classes s)
            /\ (time_proximity_minutes s = -1
                \/ 0 <= time_proximity_minutes s <= 15).
Proof.
  assert (H : _evaluate_match ieee_pow alice bob
              = OK (Some {| suggested_user_id := 2;
                            score := 1%float;
                            shared_classes := ["CS101"];
                            path_overlap_percent := 100%float;
                            time_proximity_minutes := 15 |}))
    by (vm_compute; reflexivity).
  eexists. split; [exact H|].
  destruct (evaluate_match_suggestion_fields ieee_pow alice bob _ H)
    as (H1 & H2 & H3 & _ & H5).
  repeat split; assumption.
Defined.

(** X7 at Alice and Bob, who share CS101. *)
Lemma evaluate_match_shared_course_witness :
  exists s, _evaluate_match ieee_pow alice bob = OK (Some s)
            /\ In "CS101" (shared_classes s)
            /\ (0.4 <=? score s)%float = true.
Proof.
  refine (evaluate_match_shared_course ieee_pow alice bob
            {| course := "CS101"; building := "Science Hall"; day := "Monday";
               start_time := "09:00"; end_time := "10:15" |}
            {| course := "CS101"; building := "Science Hall"; day := "Monday";
               start_time := "09:00"; end_time := "10:15" |}
            15 1%float _ _ eq_refl _ _).
  - simpl. now left.
  - simpl. now left.
  - vm_compute. reflexivity.
  - vm_compute. reflexivity.
Defined.

(** X8 at Alice and Karl, whose class starts when Alice's first class
    ends: one shared course, proximity 0, and the score is 0.4. *)
Lemma evaluate_match_back_to_back_witness :
  _calculate_time_proximity (classes alice) (classes karl) = OK 0
  /\ exists s, _evaluate_match ieee_pow alice karl = OK (Some s)
               /\ time_proximity_minutes s = 0
               /\ score s = 0.4%float.
Proof.
  assert (H : _evaluate_match ieee_pow alice karl
              = OK (Some {| suggested_user_id := 11;
                            score := 0.4%float;
                            shared_classes := ["CS101"];
                            path_overlap_percent := 0%float;
                            time_proximity_minutes := 0 |}))
    by (vm_compute; reflexivity).
  destruct (evaluate_match_back_to_back ieee_pow alice karl
              {| course := "CS101"; building := "Science Hall"; day := "Monday";
                 start_time := "09:00"; end_time := "10:15" |}
              {| course := "CS101"; building := "Science Hall"; day := "Monday";
                 start_time := "10:15"; end_time := "11:30" |}) as [T S].
  - split; repeat constructor; eexists; vm_compute; reflexivity.
  - simpl. now left.
  - simpl. now left.
  - reflexivity.
  - vm_compute. reflexivity.
  - split; [exact T|]. eexists. split; [exact H|].
    destruct (S _ H) as [S1 _]. split; [exact S1 | reflexivity].
Defined.

(** X4 at the paths of Frank and Grace, where three of Frank's ten
    points are within reach, and at the paths of Bob and Alice, where both
    of Bob's points are. *)
Lemma single_path_overlap_counts_witness :
  _calculate_single_path_overlap ieee_pow ten_points [ (0, 0)%float ]
  = int_truediv 3 10
  /\ _calculate_single_path_overlap ieee_pow
       [ (40.7128, -74.0060); (40.7129, -74.0061) ]%float
       [ (40.7128, -74.0060); (40.7129, -74.0061); (40.7130, -74.0062) ]%float
     = OK 1%float.
Proof.
  split.
  - refine (proj1 (single_path_overlap_counts ieee_pow ieee_distance
                     ten_points [ (0, 0)%float ] _ _ _)); try discriminate.
    intros p q Hp Hq. simpl in Hp, Hq.
    destruct Hq as [<-|[]].
    repeat (destruct Hp as [<-|Hp]; [vm_compute; reflexivity|]).
    destruct Hp.
  - refine (proj1 (proj2 (single_path_overlap_counts ieee_pow ieee_distance
                     [ (40.7128, -74.0060); (40.7129, -74.0061) ]%float
                     [ (40.7128, -74.0060); (40.7129, -74.0061);
                       (40.7130, -74.0062) ]%float
                     _ _ _)) _); try discriminate.
    + intros p q Hp Hq. simpl in Hp, Hq.
      destruct Hp as [<-|[<-|[]]]; destruct Hq as [<-|[<-|[<-|[]]]];
        vm_compute; reflexivity.
    + vm_compute. reflexivity.
Defined.

(** X11 at [demo_run.py]: Alice's suggestions, the population query
    returning Bob and Charlie. *)
Lemma generate_suggestions_complete_witness :
  fst (run mock_connection unit mock_handle demo_clock
         (generate_suggestions mock_connection ieee_pow 1 10) (fresh_world tt))
  = OK (slice_to (sort_by_score_desc (matches ieee_pow alice [bob; charlie])) 10)
  /\ Permutation (matches ieee_pow alice [bob; charlie])
       (slice_to (sort_by_score_desc (matches ieee_pow alice [bob; charlie]))
                 10).
Proof.
  destruct (generate_suggestions_complete mock_connection ieee_pow unit
              mock_handle demo_clock 1 10 (fresh_world tt) alice [] []
              [bob; charlie] tt tt tt tt eq_refl eq_refl eq_refl eq_refl)
    as [H1 H2].
  - repeat constructor; eexists; vm_compute; reflexivity.
  - split; [rewrite H1; reflexivity | apply H2; simpl; lia].
Defined.

(** X12 with Karl and then Bob as the candidates and a limit of 1: Bob is
    returned, and Karl, who is left out, scores no higher. *)
Lemma generate_suggestions_keeps_best_witness :
  exists l,
    fst (run mock_connection unit (population_handle [karl; bob]) demo_clock
           (generate_suggestions mock_connection ieee_pow 1 1) (fresh_world tt))
    = OK l
    /\ forall s, In s (matches ieee_pow alice [karl; bob]) ->
         In s l \/ forall x, In x l -> (score s <=? score x)%float = true.
Proof.
  apply (generate_suggestions_keeps_best mock_connection ieee_pow unit
           (population_handle [karl; bob]) demo_clock 1 1 (fresh_world tt)
           alice [] [] [karl; bob] tt tt tt tt
           eq_refl eq_refl eq_refl eq_refl).
  repeat constructor; eexists; vm_compute; reflexivity.
Defined.

(** X13 with Henry, Ivy and then Bob as the candidates: Henry and Ivy both
    score 0.4, and Henry, listed first, comes first. *)
Lemma generate_suggestions_ties_in_order_witness :
  map suggested_user_id
      (with_score 0.4 (matches ieee_pow alice [henry; ivy; bob])) = [6; 7]
  /\ exists l later,
       fst (run mock_connection unit (population_handle [henry; ivy; bob])
              demo_clock (generate_suggestions mock_connection ieee_pow 1 10)
              (fresh_world tt))
       = OK l
       /\ with_score 0.4 (matches ieee_pow alice [henry; ivy; bob])
          = with_score 0.4 l ++ later.
Proof.
  split; [vm_compute; reflexivity|].
  apply (generate_suggestions_ties_in_order mock_connection ieee_pow unit
           (population_handle [henry; ivy; bob]) demo_clock 1 10
           (fresh_world tt) alice [] [] [henry; ivy; bob] tt tt tt tt
           0.4%float eq_refl eq_refl eq_refl eq_refl).
  repeat constructor; eexists; vm_compute; reflexivity.
Defined.

(** X14 with Henry, Ivy and then Bob as the candidates and a limit of -1:
    three suggestions are found and two are returned. *)
Lemma generate_suggestions_count_witness :
  exists l,
    fst (run mock_connection unit (population_handle [henry; ivy; bob])
           demo_clock (generate_suggestions mock_connection ieee_pow 1 (-1))
           (fresh_world tt))
    = OK l
    /\ Z.of_nat (length l) = 2.
Proof.
  destruct (generate_suggestions_count mock_connection ieee_pow unit
              (population_handle [henry; ivy; bob]) demo_clock 1 (-1)
              (fresh_world tt) alice [] [] [henry; ivy; bob] tt tt tt tt
              eq_refl eq_refl eq_refl eq_refl)
    as (l & H1 & H2 & _).
  - repeat constructor; eexists; vm_compute; reflexivity.
  - exists l. split; [exact H1|]. rewrite H2. vm_compute. reflexivity.
Defined.

(** X9 at Alice and Mallory, and at Alice and a candidate whose path lies
    too far away for the square of the distance to be a float. *)
Lemma evaluate_match_failures_witness :
  ((bad_time = bad_time /\ ~ times_parse (classes alice) (classes mallory))
   \/ exists x y, ieee_pow x y = Raise bad_time)
  /\ ((OverflowError = bad_time
       /\ ~ times_parse (classes alice) (classes far_away))
      \/ exists x y, ieee_pow x y = Raise OverflowError).
Proof.
  split.
  - apply (evaluate_match_failures ieee_pow alice mallory bad_time).
    vm_compute. reflexivity.
  - apply (evaluate_match_failures ieee_pow alice far_away OverflowError).
    vm_compute. reflexivity.
Defined.


(** ** The model evaluated *)

(** [strptime] accepts one or two digits per field and nothing around them. *)
Example strptime_HM_examples :
  strptime_HM "10:15"
  = OK {| dt_ordinal := 693596; dt_second := 36900; dt_microsecond := 0 |}
  /\ strptime_HM "9:5"
     = OK {| dt_ordinal := 693596; dt_second := 32700; dt_microsecond := 0 |}
  /\ strptime_HM "24:00" = Raise (ValueError "time data does not match format")
  /\ strptime_HM "10:60" = Raise (ValueError "time data does not match format")
  /\ strptime_HM "10:15 " = Raise (ValueError "time data does not match format")
  /\ strptime_HM "1015" = Raise (ValueError "time data does not match format").
Proof. repeat split; reflexivity. Qed.

(** Conversions and divisions as CPython rounds them. *)
Example number_examples :
  float_of_int 3 = 3%float
  /\ float_of_int (2 ^ 53 + 1) = 9007199254740992%float
  /\ float_of_int (2 ^ 53 + 3) = 9007199254740996%float
  /\ int_truediv 3 10 = OK 0.3%float
  /\ int_truediv 2 3 = OK 0.66666666666666663%float
  /\ int_truediv 1 0 = Raise ZeroDivisionError
  /\ int_of_float 15.9%float = OK 15
  /\ int_of_float (-15.9)%float = OK (-15)
  /\ int_of_float infinity = Raise OverflowError
  /\ (3 * 0.4)%float = 1.2000000000000002%float.
Proof. repeat split; reflexivity. Qed.

(** The pairs of [demo_run.py]: Bob is suggested to Alice with score 1.0,
    Charlie is not suggested, and Alice is suggested to Bob without the
    proximity bonus. *)
Example demo_pairs :
  _evaluate_match ieee_pow alice bob
  = OK (Some {| suggested_user_id := 2;
                score := 1%float;
                shared_classes := ["CS101"];
                path_overlap_percent := 100%float;
                time_proximity_minutes := 15 |})
  /\ _evaluate_match ieee_pow alice charlie = OK None
  /\ _evaluate_match ieee_pow bob alice
     = OK (Some {| suggested_user_id := 1;
                   score := 0.80000000000000004%float;
                   shared_classes := ["CS101"];
                   path_overlap_percent := 100%float;
                   time_proximity_minutes := -1 |}).
Proof. repeat split; vm_compute; reflexivity. Qed.

(** A malformed time raises [ValueError]. *)
Example malformed_time_propagates :
  _calculate_time_proximity
    [ {| course := "CS101"; building := "Science Hall"; day := "Monday";
         start_time := "09:00"; end_time := "25:00" |} ] []
  = Raise (ValueError "time data does not match format").
Proof. reflexivity. Qed.
